(** * Rest-Mex polarity map: the data pipeline of [visualizacion.js]

    A shallow embedding of the upload handler, the grouping and projection
    done by [processData], the marker arithmetic of [generateFoliumMap], the
    table of the view rows and the component's state transitions, followed by
    the properties proved about them.  The pipeline is given twice: with
    lookups that find own properties only, and, in [Realm], with what the
    objects inherit from [Object.prototype] and with the [catch] of
    [processData]. *)

From stdpp Require Import base strings list gmap pretty.
From Stdlib Require Import Ascii QArith Qround Qabs Qcanon Qpower Permutation Sorted.

Local Close Scope Qc_scope.
Local Close Scope Q_scope.
Local Open Scope string_scope.
Local Open Scope list_scope.

(** ** JavaScript values held by a parsed row

    With [dynamicTyping] the parser hands over, for each cell, [null] (empty
    cell), a boolean, a finite number or a string; a field that the row does
    not have reads as [undefined].  A finite double is represented by its
    rational value.  The [Date] object that the parser makes of a cell in ISO
    date format is not represented. *)

Inductive jsval : Type :=
| JUndefined
| JNull
| JBool (b : bool)
| JNum (q : Q)
| JStr (s : string).

(** The two conversions between numbers and strings are built-ins of the
    language runtime; the code reaches them through [>=], [<=] and property
    access.  They are kept abstract: [StringToNumber] answers [None] for
    [NaN]. *)
Class Runtime := {
  StringToNumber : string -> option Q;
  NumberToString : Q -> string
}.

(** What is used of the runtime: integers print in decimal, no number prints
    as the word [total], and that word is not a numeral. *)
Class RuntimeLaws (rt : Runtime) : Prop := {
  NumberToString_int :
    forall z : Z, (Z.abs z < 10 ^ 21)%Z -> NumberToString (inject_Z z) = pretty z;
  NumberToString_not_total : forall q : Q, NumberToString q <> "total";
  StringToNumber_total : StringToNumber "total" = None
}.

(** ToBoolean *)
Definition truthy (v : jsval) : bool :=
  match v with
  | JUndefined | JNull => false
  | JBool b => b
  | JNum q => negb (Qeq_bool q 0)
  | JStr s => negb (String.eqb s "")
  end.

Section WithRuntime.
Context {rt : Runtime}.

(** ToNumber; [None] is [NaN]. *)
Definition ToNumber (v : jsval) : option Q :=
  match v with
  | JUndefined => None
  | JNull => Some 0%Q
  | JBool b => Some (if b then 1%Q else 0%Q)
  | JNum q => Some q
  | JStr s => StringToNumber s
  end.

(** [v >= q] and [v <= q] against a number literal: false as soon as the
    left side converts to [NaN]. *)
Definition js_ge (v : jsval) (q : Q) : bool :=
  match ToNumber v with Some x => Qle_bool q x | None => false end.

Definition js_le (v : jsval) (q : Q) : bool :=
  match ToNumber v with Some x => Qle_bool x q | None => false end.

(** ToPropertyKey, for a value used between brackets. *)
Definition ToPropertyKey (v : jsval) : string :=
  match v with
  | JUndefined => "undefined"
  | JNull => "null"
  | JBool b => if b then "true" else "false"
  | JNum q => NumberToString (Qred q)
  | JStr s => s
  end.

End WithRuntime.

(** ** Objects used as maps

    An object is the list of its own properties in creation order.
    Assignment to an existing key keeps the key's place.  [obj_get] reads an
    own property; what a lookup goes on to find on [Object.prototype] is added
    where it matters, in [Realm] below. *)

Definition obj (V : Type) : Type := list (string * V).

Fixpoint obj_get {V} (o : obj V) (k : string) : option V :=
  match o with
  | [] => None
  | (k', v) :: o' => if String.eqb k' k then Some v else obj_get o' k
  end.

Fixpoint obj_set {V} (o : obj V) (k : string) (v : V) : obj V :=
  match o with
  | [] => [(k, v)]
  | (k', v') :: o' =>
      if String.eqb k' k then (k', v) :: o' else (k', v') :: obj_set o' k v
  end.

(** Enumeration ([Object.keys], [Object.entries], spread) lists the keys
    that are array indices first, in increasing numeric order, then the other
    keys in creation order. *)

Definition digit_of (c : ascii) : option N :=
  let n := N_of_ascii c in
  if (48 <=? n)%N && (n <=? 57)%N then Some (n - 48)%N else None.

Fixpoint parse_digits (s : string) (acc : N) : option N :=
  match s with
  | EmptyString => Some acc
  | String c s' =>
      match digit_of c with
      | Some d => parse_digits s' (10 * acc + d)%N
      | None => None
      end
  end.

Definition array_index (s : string) : option N :=
  match s with
  | EmptyString => None
  | _ =>
      match parse_digits s 0 with
      | Some n =>
          if String.eqb (pretty n) s && (n <? 2 ^ 32 - 1)%N then Some n else None
      | None => None
      end
  end.

Definition is_index (s : string) : bool :=
  match array_index s with Some _ => true | None => false end.

Fixpoint insert_by_index {V} (n : N) (e : string * V) (l : list (N * (string * V)))
  : list (N * (string * V)) :=
  match l with
  | [] => [(n, e)]
  | (m, e') :: l' =>
      if (n <? m)%N then (n, e) :: l else (m, e') :: insert_by_index n e l'
  end.

Fixpoint index_entries {V} (o : obj V) : list (N * (string * V)) :=
  match o with
  | [] => []
  | (k, v) :: o' =>
      match array_index k with
      | Some n => insert_by_index n (k, v) (index_entries o')
      | None => index_entries o'
      end
  end.

Definition Object_entries {V} (o : obj V) : list (string * V) :=
  map snd (index_entries o) ++ List.filter (fun e => negb (is_index e.1)) o.

Definition Object_keys {V} (o : obj V) : list string :=
  map fst (Object_entries o).

(** [{ ...o }]: a new object whose properties are created in enumeration
    order. *)
Definition spread {V} (o : obj V) : obj V := Object_entries o.


(** ** Number arithmetic

    A number is a double; its operations return the exact result rounded to
    the nearest double, ties to the even significand.  [round64] is that
    rounding on rationals, with 53 significant bits and gradual underflow.
    All quantities computed here stay far below the largest double, so the
    overflow to [Infinity] is not part of the model. *)

(** [ilog2 n d] is the integer [e] with [2^e <= n/d < 2^(e+1)]. *)
Definition ilog2 (n d : positive) : Z :=
  let e := (Z.log2 (Zpos n) - Z.log2 (Zpos d))%Z in
  if (Zpos d * 2 ^ Z.max 0 e <=? Zpos n * 2 ^ Z.max 0 (- e))%Z
  then e else (e - 1)%Z.

(** Nearest integer to [a / b], ties to even, for [0 <= a] and [0 < b]. *)
Definition rne_div (a b : Z) : Z :=
  let q := (a / b)%Z in
  let r := (a mod b)%Z in
  match (2 * r ?= b)%Z with
  | Lt => q
  | Gt => (q + 1)%Z
  | Eq => if Z.even q then q else (q + 1)%Z
  end.

(** [m * 2^u] as a rational. *)
Definition scale2 (m u : Z) : Q :=
  (m * 2 ^ Z.max 0 u) # Z.to_pos (2 ^ Z.max 0 (- u)).

(** Exponent of the last place kept for a value in the binade [e]. *)
Definition ulp_exp (e : Z) : Z := Z.max (e - 52) (-1074).

Definition round64_pos (n d : positive) : Q :=
  let u := ulp_exp (ilog2 n d) in
  let m := rne_div (Zpos n * 2 ^ Z.max 0 (- u)) (Zpos d * 2 ^ Z.max 0 u) in
  Qred (scale2 m u).

Definition round64 (q : Q) : Q :=
  match Qnum q with
  | Z0 => 0%Q
  | Zpos n => round64_pos n (Qden q)
  | Zneg n => Qred (- round64_pos n (Qden q))
  end.

Definition js_add (a b : Q) : Q := round64 (a + b)%Q.
Definition js_mul (a b : Q) : Q := round64 (a * b)%Q.
(** [a / b] for a divisor that is not zero. *)
Definition js_div (a b : Q) : Q := round64 (a / b)%Q.

(** A decimal literal of the source denotes the nearest double. *)
Definition lit (q : Q) : Q := round64 q.

(** A counter is a number that holds a natural; up to [2^53] this is exact,
    and an array has fewer than [2^32] elements. *)
Definition of_count (n : nat) : Q := inject_Z (Z.of_nat n).

(** [x.toFixed(1)]: the integer [n] nearest to [10 * x], the larger one of two,
    printed with its last digit behind the point; from [10^21] on the plain
    string of the number. *)
Definition tenths (x : Q) : Z := Qfloor (x * 10 + (1 # 2))%Q.

Definition toFixed1 `{Runtime} (x : Q) : string :=
  let s := if Qlt_le_dec x 0%Q then "-" else "" in
  let x := Qabs x in
  if Qle_bool (inject_Z (10 ^ 21)) x then s +:+ NumberToString (Qred x)
  else
    let n := tenths x in
    s +:+ pretty (n / 10)%Z +:+ "." +:+ pretty (n mod 10)%Z.

(** ** The fixed tables *)

(** Mapeo de nombres del dataset a nombres estándar *)
Definition stateMapping : obj string :=
  [ ("QuintanaRoo", "Quintana Roo");
    ("Estado_de_Mexico", "Estado de México");
    ("Baja_CaliforniaSur", "Baja California Sur");
    ("San_Luis_Potosi", "San Luis Potosí");
    ("Michoacan", "Michoacán");
    ("Queretaro", "Querétaro");
    ("Yucatan", "Yucatán");
    ("Nayarit", "Nayarit");
    ("Chiapas", "Chiapas");
    ("Chihuahua", "Chihuahua");
    ("Guerrero", "Guerrero");
    ("Puebla", "Puebla");
    ("Jalisco", "Jalisco");
    ("Coahuila", "Coahuila");
    ("Veracruz", "Veracruz");
    ("Hidalgo", "Hidalgo");
    ("Morelos", "Morelos");
    ("Oaxaca", "Oaxaca");
    ("Guanajuato", "Guanajuato") ].

(** Coordenadas de capitales estatales (lat, lng) *)
Definition stateCoordinates : obj (Q * Q) :=
  [ ("Quintana Roo", (lit (211619 # 10000)%Q, lit (- 868515 # 10000)%Q));
    ("Estado de México", (lit (194326 # 10000)%Q, lit (- 996795 # 10000)%Q));
    ("Baja California Sur", (lit (241442 # 10000)%Q, lit (- 1103005 # 10000)%Q));
    ("San Luis Potosí", (lit (221565 # 10000)%Q, lit (- 1009855 # 10000)%Q));
    ("Michoacán", (lit (197007 # 10000)%Q, lit (- 1011884 # 10000)%Q));
    ("Querétaro", (lit (205888 # 10000)%Q, lit (- 1003899 # 10000)%Q));
    ("Yucatán", (lit (209674 # 10000)%Q, lit (- 895926 # 10000)%Q));
    ("Nayarit", (lit (217514 # 10000)%Q, lit (- 1048455 # 10000)%Q));
    ("Chiapas", (lit (167569 # 10000)%Q, lit (- 931292 # 10000)%Q));
    ("Chihuahua", (lit (286353 # 10000)%Q, lit (- 1060889 # 10000)%Q));
    ("Guerrero", (lit (174391 # 10000)%Q, lit (- 995451 # 10000)%Q));
    ("Puebla", (lit (190414 # 10000)%Q, lit (- 982063 # 10000)%Q));
    ("Jalisco", (lit (206597 # 10000)%Q, lit (- 1033496 # 10000)%Q));
    ("Coahuila", (lit (254232 # 10000)%Q, lit (- 1010053 # 10000)%Q));
    ("Veracruz", (lit (191738 # 10000)%Q, lit (- 961342 # 10000)%Q));
    ("Hidalgo", (lit (200911 # 10000)%Q, lit (- 987624 # 10000)%Q));
    ("Morelos", (lit (186813 # 10000)%Q, lit (- 991013 # 10000)%Q));
    ("Oaxaca", (lit (170732 # 10000)%Q, lit (- 967266 # 10000)%Q));
    ("Guanajuato", (lit (210190 # 10000)%Q, lit (- 1012574 # 10000)%Q)) ].

(** Colores por polaridad *)
Definition polarityColors : obj string :=
  [ ("1", "#DC2626"); ("2", "#F87171"); ("3", "#6B7280");
    ("4", "#34D399"); ("5", "#10B981") ].

Definition polarityLabels : obj string :=
  [ ("1", "Muy Negativa"); ("2", "Negativa"); ("3", "Neutral");
    ("4", "Positiva"); ("5", "Muy Positiva") ].

(** ** The component *)

Definition Row : Type := obj jsval.

(** [row.name] *)
Definition field (row : Row) (name : string) : jsval :=
  match obj_get row name with Some v => v | None => JUndefined end.

Record ViewRow : Type := {
  originalName : string;
  count : nat;
  total : nat;
  percentage : string;
  coordinates : Q * Q;
  allPolarities : obj nat
}.

Record Stats : Type := {
  totalStates : nat;
  totalReviews : nat;
  maxCount : nat
}.

(** The state cells of [FoliumMexicoMap]. *)
Record State : Type := {
  csvData : list Row;
  processedData : obj ViewRow;
  selectedPolarity : Z;
  fileLoaded : bool;
  loading : bool;
  error : string;
  stats : Stats
}.

Definition initialState : State :=
  {| csvData := [];
     processedData := [];
     selectedPolarity := 3;
     fileLoaded := false;
     loading := false;
     error := "";
     stats := {| totalStates := 0; totalReviews := 0; maxCount := 0 |} |}.

Definition requiredColumns : list string :=
  ["Title"; "Review"; "Polarity"; "Town"; "Region"; "Type"].

Definition includes (l : list string) (x : string) : bool :=
  existsb (String.eqb x) l.

(** [Object.keys(results.data[0] || {})] filtered against the required
    columns. *)
Definition missingColumns (data : list Row) : list string :=
  let headers := Object_keys (match data with row :: _ => row | [] => [] end) in
  List.filter (fun col => negb (includes headers col)) requiredColumns.

Section Component.
Context {rt : Runtime}.

(** The callback of [results.data.filter]. *)
Definition validRow (row : Row) : bool :=
  truthy (field row "Region") &&
  truthy (field row "Polarity") &&
  js_ge (field row "Polarity") 1 &&
  js_le (field row "Polarity") 5.

Definition validData (data : list Row) : list Row := List.filter validRow data.

(** The body of the [try] in the [complete] callback: the message thrown, or
    the rows to keep. *)
Definition validate (data : list Row) : string + list Row :=
  match missingColumns data with
  | (_ :: _) as missing => inl ("Columnas faltantes: " +:+ String.concat ", " missing)
  | [] =>
      match validData data with
      | [] => inl "No se encontraron datos válidos en el CSV"
      | valid => inr valid
      end
  end.

(** *** processData

    In this section every lookup finds own properties only, and [processData]
    is a function of the rows and the selected polarity.  That is what the code
    does as long as no Region of the data is the name of a property that
    objects inherit; [Realm] below has the lookups on [Object.prototype] and
    the [catch] of [processData], and [shown_plain] and [step_embed] relate the
    two. *)

Definition newBucket : obj nat :=
  [("1", 0); ("2", 0); ("3", 0); ("4", 0); ("5", 0); ("total", 0)].

(** [b[k] || 0]; also used to read [b.total], which every bucket has. *)
Definition get0 (b : obj nat) (k : string) : nat :=
  match obj_get b k with Some n => n | None => 0 end.

(** [b[polarity] = (b[polarity] || 0) + 1; b.total += 1] *)
Definition increment (b : obj nat) (polarity : string) : obj nat :=
  let b1 := obj_set b polarity (get0 b polarity + 1) in
  obj_set b1 "total" (get0 b1 "total" + 1).

(** The reducer of [csvData.reduce]. *)
Definition group_step (acc : obj (obj nat)) (row : Row) : obj (obj nat) :=
  let region := ToPropertyKey (field row "Region") in
  let polarity := ToPropertyKey (field row "Polarity") in
  let acc1 :=
    match obj_get acc region with
    | Some _ => acc
    | None => obj_set acc region newBucket
    end in
  match obj_get acc1 region with
  | Some b => obj_set acc1 region (increment b polarity)
  | None => acc1
  end.

Definition grouped (rows : list Row) : obj (obj nat) :=
  fold_left group_step rows [].

(** [stateMapping[region] || region] *)
Definition standardName (region : string) : string :=
  match obj_get stateMapping region with
  | Some name => if String.eqb name "" then region else name
  | None => region
  end.

Definition polarityKey (p : Z) : string := NumberToString (inject_Z p).

Definition percentageOf (count total : nat) : string :=
  if (0 <? total)%nat
  then toFixed1 (js_mul (js_div (of_count count) (of_count total)) 100)
  else "0.0".

(** The three variables updated by the [forEach]: [processedForPolarity],
    [maxCount], [totalReviews]. *)
Definition Projection : Type := obj ViewRow * nat * nat.

Definition project_step (selected : Z) (st : Projection)
    (entry : string * obj nat) : Projection :=
  let '(processed, maxCount, totalReviews) := st in
  let '(region, polarityData) := entry in
  let name := standardName region in
  let count := get0 polarityData (polarityKey selected) in
  match obj_get stateCoordinates name with
  | Some coords =>
      (obj_set processed name
         {| originalName := region;
            count := count;
            total := get0 polarityData "total";
            percentage := percentageOf count (get0 polarityData "total");
            coordinates := coords;
            allPolarities := spread polarityData |},
       Nat.max maxCount count,
       totalReviews + count)
  | None => st
  end.

Definition project (selected : Z) (g : obj (obj nat)) : Projection :=
  fold_left (project_step selected) (Object_entries g) ([], 0, 0).

Definition processedOf (selected : Z) (rows : list Row) : obj ViewRow :=
  (project selected (grouped rows)).1.1.

Definition statsOf (selected : Z) (rows : list Row) : Stats :=
  let '(processed, maxCount, totalReviews) := project selected (grouped rows) in
  {| totalStates := length (Object_keys processed);
     totalReviews := totalReviews;
     maxCount := maxCount |}.

Definition processData (s : State) : State :=
  {| csvData := csvData s;
     processedData := processedOf (selectedPolarity s) (csvData s);
     selectedPolarity := selectedPolarity s;
     fileLoaded := fileLoaded s;
     loading := loading s;
     error := error s;
     stats := statsOf (selectedPolarity s) (csvData s) |}.

(** The effect that depends on [csvData] and [selectedPolarity]. *)
Definition useEffect (s : State) : State :=
  match csvData s with
  | _ :: _ => processData s
  | [] => s
  end.

(** *** generateFoliumMap: the numbers put on each circle marker *)

Record Marker : Type := {
  markerName : string;
  center : Q * Q;
  radius : Q;
  fillColor : option string;
  fillOpacity : Q
}.

Definition intensityOf (count maxCount : nat) : Q :=
  if (0 <? maxCount)%nat then js_div (of_count count) (of_count maxCount) else 0%Q.

Definition markerOf (selected : Z) (maxCount : nat) (entry : string * ViewRow) : Marker :=
  let '(stateName, stateData) := entry in
  let intensity := intensityOf (count stateData) maxCount in
  let opacity := js_add (lit (3 # 10)) (js_mul intensity (lit (7 # 10))) in
  let radius := js_add 10 (js_mul intensity 20) in
  {| markerName := stateName;
     center := coordinates stateData;
     radius := radius;
     fillColor := obj_get polarityColors (polarityKey selected);
     fillOpacity := opacity |}.

Definition generateFoliumMap (selected : Z) (data : obj ViewRow) (maxCount : nat)
  : list Marker :=
  map (markerOf selected maxCount) (Object_entries data).

(** The markers drawn for a state of the component. *)
Definition mapMarkers (s : State) : list Marker :=
  generateFoliumMap (selectedPolarity s)
    (processedOf (selectedPolarity s) (csvData s))
    (maxCount (statsOf (selectedPolarity s) (csvData s))).

(** *** handleFileUpload *)

(** What the parser reports for the chosen file. *)
Inductive ParseOutcome : Type :=
| Complete (data : list Row)
| ParseError (message : string).

(** [setLoading(true); setError('')] *)
Definition beginUpload (s : State) : State :=
  {| csvData := csvData s;
     processedData := processedData s;
     selectedPolarity := selectedPolarity s;
     fileLoaded := fileLoaded s;
     loading := true;
     error := "";
     stats := stats s |}.

(** The [complete] callback, with its [catch] and [finally]. *)
Definition onComplete (data : list Row) (s : State) : State :=
  match validate data with
  | inr valid =>
      useEffect
        {| csvData := valid;
           processedData := processedData s;
           selectedPolarity := selectedPolarity s;
           fileLoaded := true;
           loading := false;
           error := error s;
           stats := stats s |}
  | inl message =>
      {| csvData := csvData s;
         processedData := processedData s;
         selectedPolarity := selectedPolarity s;
         fileLoaded := fileLoaded s;
         loading := false;
         error := message;
         stats := stats s |}
  end.

(** The [error] callback. *)
Definition onError (message : string) (s : State) : State :=
  {| csvData := csvData s;
     processedData := processedData s;
     selectedPolarity := selectedPolarity s;
     fileLoaded := fileLoaded s;
     loading := false;
     error := "Error al leer el archivo: " +:+ message;
     stats := stats s |}.

(** One upload from the file picker to the end of parsing; [None] is an event
    without a file. *)
Definition handleFileUpload (file : option ParseOutcome) (s : State) : State :=
  match file with
  | None => s
  | Some (Complete data) => onComplete data (beginUpload s)
  | Some (ParseError message) => onError message (beginUpload s)
  end.

(** [setSelectedPolarity(p)]: a value different from the current one
    re-renders the component and runs the effect; the current value changes
    nothing. *)
Definition selectPolarity (p : Z) (s : State) : State :=
  if (p =? selectedPolarity s)%Z then s
  else
    useEffect
      {| csvData := csvData s;
         processedData := processedData s;
         selectedPolarity := p;
         fileLoaded := fileLoaded s;
         loading := loading s;
         error := error s;
         stats := stats s |}.

(** *** The events of a session

    A file is picked, the parser answers, or an option of the polarity
    selector is chosen; the selector offers 1 to 5 and is disabled until a
    file is loaded. *)
Inductive Event : Type :=
| FilePicked
| ParseCompleted (data : list Row)
| ParseFailed (message : string)
| PolaritySelected (p : Z).

Definition polarityOptions : list Z := [1; 2; 3; 4; 5]%Z.

Definition step (e : Event) (s : State) : State :=
  match e with
  | FilePicked => beginUpload s
  | ParseCompleted data => onComplete data s
  | ParseFailed message => onError message s
  | PolaritySelected p =>
      if fileLoaded s && existsb (Z.eqb p) polarityOptions
      then selectPolarity p s
      else s
  end.

Inductive reachable : State -> Prop :=
| reachable_initial : reachable initialState
| reachable_step (e : Event) (s : State) : reachable s -> reachable (step e s).

End Component.

(** ** A runtime to run examples

    [refNumberToString] prints integers and dyadic fractions in positional
    decimal notation; [refStringToNumber] reads an optionally signed run of
    decimal digits and takes any other string for [NaN]. *)

Fixpoint zeros (n : nat) : string :=
  match n with O => "" | S n' => String "0" (zeros n') end.

Definition refNumberToString (q : Q) : string :=
  let n := Qnum q in
  let d := Zpos (Qden q) in
  if (d =? 1)%Z then pretty n
  else
    let k := Z.log2 d in
    let digits := (Z.abs n * 5 ^ k)%Z in
    let frac := pretty (digits mod 10 ^ k)%Z in
    (if (n <? 0)%Z then "-" else "") +:+ pretty (digits / 10 ^ k)%Z +:+ "." +:+
    zeros (Z.to_nat k - String.length frac) +:+ frac.

Definition refStringToNumber (s : string) : option Q :=
  let unsigned (t : string) : option Q :=
    match t with
    | EmptyString => None
    | _ => match parse_digits t 0 with
           | Some n => Some (inject_Z (Z.of_N n))
           | None => None
           end
    end in
  match s with
  | String "+" t => unsigned t
  | String "-" t => match unsigned t with Some q => Some (- q)%Q | None => None end
  | _ => unsigned s
  end.

Definition refRuntime : Runtime :=
  {| StringToNumber := refStringToNumber; NumberToString := refNumberToString |}.

(** ** Rows used in the examples *)

Definition mkRow (region polarity : jsval) : Row :=
  [ ("Title", JStr "A"); ("Review", JStr "good"); ("Polarity", polarity);
    ("Town", JStr "T"); ("Region", region); ("Type", JStr "hotel") ].

Definition rowOf (region : string) (polarity : Z) : Row :=
  mkRow (JStr region) (JNum (inject_Z polarity)).

(** ** Notions used in the statements *)

Section Notions.
Context {rt : Runtime}.

(** The keys under which [group_step] files a row. *)
Definition regionKeyOf (row : Row) : string := ToPropertyKey (field row "Region").
Definition polarityKeyOf (row : Row) : string := ToPropertyKey (field row "Polarity").

(** Rows filed under the raw region key [r], and those among them with
    polarity key [k]. *)
Definition totalFor (rows : list Row) (r : string) : nat :=
  length (List.filter (fun row => String.eqb (regionKeyOf row) r) rows).

Definition countFor (rows : list Row) (r k : string) : nat :=
  length (List.filter
            (fun row => String.eqb (regionKeyOf row) r && String.eqb (polarityKeyOf row) k)
            rows).

(** Rows whose raw key is sent to the standard name [c], and those among
    them with polarity key [k]. *)
Definition canonicalTotal (rows : list Row) (c : string) : nat :=
  length (List.filter (fun row => String.eqb (standardName (regionKeyOf row)) c) rows).

Definition canonicalCount (rows : list Row) (c k : string) : nat :=
  length (List.filter
            (fun row => String.eqb (standardName (regionKeyOf row)) c
                        && String.eqb (polarityKeyOf row) k)
            rows).

(** Rows with polarity key [k]. *)
Definition rowsWithPolarity (rows : list Row) (k : string) : nat :=
  length (List.filter (fun row => String.eqb (polarityKeyOf row) k) rows).

(** A raw key is mappable when its standard name has coordinates. *)
Definition mappableKey (r : string) : bool :=
  match obj_get stateCoordinates (standardName r) with Some _ => true | None => false end.

Definition mappableRow (row : Row) : bool := mappableKey (regionKeyOf row).

(** The polarity of a row is one of the integers 1 to 5. *)
Definition integerPolarity (row : Row) : Prop :=
  exists (q : Q) (z : Z),
    field row "Polarity" = JNum q /\ (q == inject_Z z)%Q /\ (1 <= z <= 5)%Z.

(** The row filter as the specification words it. *)
Definition regionNonEmpty (row : Row) : Prop :=
  field row "Region" <> JUndefined /\ field row "Region" <> JNull /\
  field row "Region" <> JStr "".

Definition polarityPresent (row : Row) : Prop :=
  field row "Polarity" <> JUndefined /\ field row "Polarity" <> JNull.

Definition keptBySpec (row : Row) : Prop :=
  regionNonEmpty row /\ polarityPresent row /\ integerPolarity row.

(** The row filter as the code has it. *)
Definition keptByCode (row : Row) : Prop :=
  truthy (field row "Region") = true /\
  truthy (field row "Polarity") = true /\
  exists x : Q, ToNumber (field row "Polarity") = Some x /\ (1 <= x)%Q /\ (x <= 5)%Q.

End Notions.

(** [total = count(1) + ... + count(5)] *)
Definition bucketBalanced (b : obj nat) : Prop :=
  get0 b "total" = get0 b "1" + get0 b "2" + get0 b "3" + get0 b "4" + get0 b "5".




(** Sum and maximum of [count] over the view rows. *)
Definition sumCounts (data : obj ViewRow) : nat :=
  fold_right (fun e acc => count e.2 + acc) 0 data.

Definition maxCounts (data : obj ViewRow) : nat :=
  fold_right (fun e acc => Nat.max (count e.2) acc) 0 data.

(** Two view rows that differ at most in [count] and [percentage]. *)
Definition sameButCount (e1 e2 : string * ViewRow) : Prop :=
  e1.1 = e2.1 /\
  originalName e1.2 = originalName e2.2 /\
  total e1.2 = total e2.2 /\
  coordinates e1.2 = coordinates e2.2 /\
  allPolarities e1.2 = allPolarities e2.2.

(** The number a percentage string stands for, in tenths. *)
Definition percentTenths (count total : nat) : Z :=
  tenths (js_mul (js_div (of_count count) (of_count total)) 100).

(** The record [project_step] writes for the bucket [polarityData] of the raw
    key [region]. *)
Definition viewRowOf `{Runtime} (selected : Z) (region : string)
    (polarityData : obj nat) (coords : Q * Q) : ViewRow :=
  let count := get0 polarityData (polarityKey selected) in
  {| originalName := region;
     count := count;
     total := get0 polarityData "total";
     percentage := percentageOf count (get0 polarityData "total");
     coordinates := coords;
     allPolarities := spread polarityData |}.

(** With a file loaded, the view data and the statistics are those of the
    current rows and polarity. *)
Definition inSync `{Runtime} (s : State) : Prop :=
  fileLoaded s = true ->
  csvData s <> [] /\
  processedData s = processedOf (selectedPolarity s) (csvData s) /\
  stats s = statsOf (selectedPolarity s) (csvData s).

(** No two rows with coordinates spell one standard name in two ways. *)
Definition oneSpelling `{Runtime} (rows : list Row) : Prop :=
  forall row1 row2, In row1 rows -> In row2 rows ->
    standardName (regionKeyOf row1) = standardName (regionKeyOf row2) ->
    regionKeyOf row1 = regionKeyOf row2.

(** ** What the component shows besides the map *)

(** [hasColumn row col]: [col] is among [Object.keys(row)]. *)
Definition hasColumn (row : Row) (col : string) : bool :=
  match obj_get row col with Some _ => true | None => false end.

(** The comparator [([,a], [,b]) => b.count - a.count] of the ranking puts
    the larger count first.  [Array.prototype.sort] is stable, so the result is
    the one of inserting each entry before the first entry, among those that
    follow it, whose count is not larger. *)
Fixpoint insertByCount (e : string * ViewRow) (l : list (string * ViewRow))
  : list (string * ViewRow) :=
  match l with
  | [] => [e]
  | x :: l' =>
      if (count e.2 <? count x.2)%nat then x :: insertByCount e l' else e :: l
  end.

Definition sortByCount (l : list (string * ViewRow)) : list (string * ViewRow) :=
  fold_right insertByCount [] l.

(** [const tableData = Object.entries(processedData).sort(...)] *)
Definition tableData (s : State) : list (string * ViewRow) :=
  sortByCount (Object_entries (processedData s)).






(** The keys of a list in the order of their first occurrence. *)
Definition addKey (l : list string) (k : string) : list string :=
  if existsb (String.eqb k) l then l else l ++ [k].

Definition firstOccurrences (l : list string) : list string :=
  fold_left addKey l [].

(** The first row of the parsed data has every required column. *)
Definition headerComplete (data : list Row) : bool :=
  match data with
  | row :: _ => forallb (hasColumn row) requiredColumns
  | [] => false
  end.

(** A session: the events handled one after the other. *)
Definition run `{Runtime} (events : list Event) (s : State) : State :=
  fold_left (fun s e => step e s) events s.

Definition noStats : Stats := {| totalStates := 0; totalReviews := 0; maxCount := 0 |}.

(** What every state of a session satisfies. *)
Definition sessionInvariant `{Runtime} (s : State) : Prop :=
  In (selectedPolarity s) polarityOptions /\
  (fileLoaded s = true <-> csvData s <> []) /\
  Forall (fun row => validRow row = true) (csvData s) /\
  (fileLoaded s = false -> processedData s = [] /\ stats s = noStats) /\
  (fileLoaded s = true ->
   processedData s = processedOf (selectedPolarity s) (csvData s) /\
   stats s = statsOf (selectedPolarity s) (csvData s)).


(** The entries at key [k] of all buckets, added up. *)
Definition bucketSum (k : string) (g : obj (obj nat)) : nat :=
  fold_right (fun e n => get0 e.2 k + n) 0 g.

(** The order of the ranking: [a] may stand before [b]. *)
Definition byCount (a b : string * ViewRow) : Prop := count b.2 <= count a.2.

(** The entries of a list with a given count. *)
Definition withCount (c : nat) (l : list (string * ViewRow)) : list (string * ViewRow) :=
  List.filter (fun e => (count e.2 =? c)%nat) l.

(** ** What the objects of [processData] inherit

    The accumulator [{}] of the reducer, the buckets, [processedForPolarity]
    and the two tables are ordinary objects: a lookup that finds no own
    property goes on to [Object.prototype].  With a key taken from the data,
    [acc[region]] can therefore be a method of [Object.prototype], the
    prototype itself (through the accessor [__proto__]), or a number that an
    earlier row has written there; the reducer then writes on that built-in
    object, or fails on the number, instead of filing the row in a bucket.
    What is written on a built-in object stays for the life of the page.

    [Realm] is [processData] and the session with these lookups; the
    definitions above are the reading in which every lookup finds own
    properties only.  The two agree as long as no Region of the data is
    [__proto__] or the name of a method of [Object.prototype]
    ([shown_plain], [step_embed] below).

    The code is a module, hence strict: an assignment to a property of a
    number throws a [TypeError], whose message is the engine's. *)

Class Engine := {
  (** the message of the [TypeError] for [n[key] = ...] with a number [n] *)
  CannotCreateProperty : string -> nat -> string
}.

(** V8: [Cannot create property '3' on number '1'] *)
Definition refEngine : Engine :=
  {| CannotCreateProperty := fun key n =>
       "Cannot create property '" +:+ key +:+ "' on number '" +:+ pretty n +:+ "'" |}.

Module Realm.

(** The methods of [Object.prototype] in a realm that no script has
    extended. *)
Definition methodNames : list string :=
  ["constructor"; "__defineGetter__"; "__defineSetter__"; "hasOwnProperty";
   "__lookupGetter__"; "__lookupSetter__"; "isPrototypeOf"; "propertyIsEnumerable";
   "toString"; "valueOf"; "toLocaleString"].

(** A key that every object inherits a built-in object for. *)
Definition isBuiltin (k : string) : bool :=
  String.eqb k "__proto__" || existsb (String.eqb k) methodNames.

(** The properties that rows have written on the built-in objects: on
    [Object.prototype], and on each of its methods.  A written value is a
    count or, for [None], [NaN] (the [total] of a built-in object, which starts
    from [undefined + 1]).

    A Polarity that passes the filter is [true], a number or a string that
    reads as a number, so its key is not the name of a property that
    [Object.prototype], one of its methods, [Function.prototype] or
    [Number.prototype] has from the start; [total] is not one either.  A
    lookup of such a key on a built-in object finds what rows have written,
    or nothing. *)
Record t : Type := {
  onPrototype : obj (option nat);
  onMethods : obj (obj (option nat))
}.

Definition pristine : t := {| onPrototype := []; onMethods := [] |}.

(** The result of a computation that may throw. *)
Inductive Outcome (A : Type) : Type :=
| Returns (a : A)
| Throws (message : string).
Arguments Returns {A} a.
Arguments Throws {A} message.

(** [o[k]] for a key that is found neither on [o] nor among the built-in
    names: what has been written on [Object.prototype]. *)
Inductive Inherited : Type :=
| AnObject            (* a method of Object.prototype, or the prototype itself *)
| ANumber (n : nat)   (* a written count, truthy *)
| NothingTruthy.      (* undefined, NaN or 0 *)

Definition inherited (r : t) (k : string) : Inherited :=
  if isBuiltin k then AnObject
  else
    match obj_get (onPrototype r) k with
    | Some (Some n) => if (0 <? n)%nat then ANumber n else NothingTruthy
    | _ => NothingTruthy
    end.

(** [Object.prototype[k] || 0] for a polarity key. *)
Definition inheritedCount (r : t) (k : string) : nat :=
  match obj_get (onPrototype r) k with Some (Some n) => n | _ => 0 end.

(** [b[k] || 0] for a bucket [b]. *)
Definition countAt (r : t) (b : obj nat) (k : string) : nat :=
  match obj_get b k with Some n => n | None => inheritedCount r k end.

(** [b[polarity] = (b[polarity] || 0) + 1; b.total += 1] for a bucket, which
    has a [total] of its own. *)
Definition increment (r : t) (b : obj nat) (polarity : string) : obj nat :=
  let b1 := obj_set b polarity (countAt r b polarity + 1) in
  obj_set b1 "total" (get0 b1 "total" + 1).

(** The same two statements on a built-in object with the written
    properties [own], whose prototype has the written properties [parent]. *)
Definition readWritten (own parent : obj (option nat)) (k : string) : option nat :=
  match obj_get own k with
  | Some v => v
  | None => match obj_get parent k with Some v => v | None => None end
  end.

Definition incrementWritten (own parent : obj (option nat)) (polarity : string)
  : obj (option nat) :=
  let x := match readWritten own parent polarity with Some n => n | None => 0 end in
  let own1 := obj_set own polarity (Some (x + 1)) in
  obj_set own1 "total"
    (match readWritten own1 parent "total" with Some n => Some (n + 1) | None => None end).

Definition writtenOn (r : t) (method : string) : obj (option nat) :=
  match obj_get (onMethods r) method with Some w => w | None => [] end.

Section WithRuntime.
Context {rt : Runtime} {en : Engine}.

(** The reducer of [csvData.reduce]. *)
Definition group_step (r : t) (acc : obj (obj nat)) (row : Row)
  : t * Outcome (obj (obj nat)) :=
  let region := ToPropertyKey (field row "Region") in
  let polarity := ToPropertyKey (field row "Polarity") in
  match obj_get acc region with
  | Some b => (r, Returns (obj_set acc region (increment r b polarity)))
  | None =>
      if String.eqb region "__proto__" then
        ({| onPrototype := incrementWritten (onPrototype r) [] polarity;
            onMethods := onMethods r |},
         Returns acc)
      else if existsb (String.eqb region) methodNames then
        ({| onPrototype := onPrototype r;
            onMethods :=
              obj_set (onMethods r) region
                (incrementWritten (writtenOn r region) (onPrototype r) polarity) |},
         Returns acc)
      else
        match inherited r region with
        | ANumber n => (r, Throws (CannotCreateProperty polarity n))
        | _ => (r, Returns (obj_set acc region (increment r newBucket polarity)))
        end
  end.

Fixpoint reduce (r : t) (acc : obj (obj nat)) (rows : list Row)
  : t * Outcome (obj (obj nat)) :=
  match rows with
  | [] => (r, Returns acc)
  | row :: rows' =>
      match group_step r acc row with
      | (r', Returns acc') => reduce r' acc' rows'
      | (r', Throws message) => (r', Throws message)
      end
  end.

Definition grouped (r : t) (rows : list Row) : t * Outcome (obj (obj nat)) :=
  reduce r [] rows.

(** What [stateCoordinates[standardName]] can be. *)
Inductive Coordinates : Type :=
| FromTable (c : Q * Q)
| InheritedNumber (n : nat)
| InheritedObject.

Record ViewRow : Type := {
  originalName : string;
  count : nat;
  total : nat;
  percentage : string;
  coordinates : Coordinates;
  allPolarities : obj nat
}.

(** [stateMapping[region] || region]: a string, a written count, or a
    built-in object. *)
Inductive Name : Type :=
| Text (s : string)
| Count (n : nat)
| BuiltinObject.

Definition standardName (r : t) (region : string) : Name :=
  match obj_get stateMapping region with
  | Some name => if String.eqb name "" then Text region else Text name
  | None =>
      match inherited r region with
      | AnObject => BuiltinObject
      | ANumber n => Count n
      | NothingTruthy => Text region
      end
  end.

(** The key that [name] is between brackets; the string of a built-in object
    (its source text, or [[object Object]]) is the key of no property. *)
Definition nameKey (name : Name) : option string :=
  match name with
  | Text s => Some s
  | Count n => Some (NumberToString (inject_Z (Z.of_nat n)))
  | BuiltinObject => None
  end.

(** [stateCoordinates[key]] when truthy. *)
Definition coordinatesAt (r : t) (key : string) : option Coordinates :=
  match obj_get stateCoordinates key with
  | Some c => Some (FromTable c)
  | None =>
      match inherited r key with
      | AnObject => Some InheritedObject
      | ANumber n => Some (InheritedNumber n)
      | NothingTruthy => None
      end
  end.

Definition Projection : Type := obj ViewRow * nat * nat.

(** The callback of the [forEach].  An assignment to the key [__proto__]
    sets the prototype of [processedForPolarity] and adds no property. *)
Definition project_step (r : t) (selected : Z) (st : Projection)
    (entry : string * obj nat) : Projection :=
  let '(processed, maxCount, totalReviews) := st in
  let '(region, polarityData) := entry in
  let count := countAt r polarityData (polarityKey selected) in
  match nameKey (standardName r region) with
  | Some key =>
      match coordinatesAt r key with
      | Some coords =>
          let viewRow :=
            {| originalName := region;
               count := count;
               total := get0 polarityData "total";
               percentage := percentageOf count (get0 polarityData "total");
               coordinates := coords;
               allPolarities := spread polarityData |} in
          (if String.eqb key "__proto__" then processed else obj_set processed key viewRow,
           Nat.max maxCount count,
           totalReviews + count)
      | None => st
      end
  | None => st
  end.

Definition project (r : t) (selected : Z) (g : obj (obj nat)) : Projection :=
  fold_left (project_step r selected) (Object_entries g) ([], 0, 0).

(** One run of the [try] block of [processData] on the rows: the realm it
    leaves, and the view data and statistics it sets or the message it
    throws. *)
Definition shown (r : t) (selected : Z) (rows : list Row)
  : t * Outcome (obj ViewRow * Stats) :=
  match grouped r rows with
  | (r', Returns g) =>
      let '(processed, maxCount, totalReviews) := project r' selected g in
      (r', Returns (processed,
                    {| totalStates := length (Object_keys processed);
                       totalReviews := totalReviews;
                       maxCount := maxCount |}))
  | (r', Throws message) => (r', Throws message)
  end.

(** The state cells of the component, and the realm it runs in. *)
Record State : Type := {
  realm : t;
  csvData : list Row;
  processedData : obj ViewRow;
  selectedPolarity : Z;
  fileLoaded : bool;
  loading : bool;
  error : string;
  stats : Stats
}.

Definition initialState : State :=
  {| realm := pristine;
     csvData := [];
     processedData := [];
     selectedPolarity := 3;
     fileLoaded := false;
     loading := false;
     error := "";
     stats := {| totalStates := 0; totalReviews := 0; maxCount := 0 |} |}.

(** [processData], with its [catch]. *)
Definition processData (s : State) : State :=
  match shown (realm s) (selectedPolarity s) (csvData s) with
  | (r, Returns (processed, st)) =>
      {| realm := r;
         csvData := csvData s;
         processedData := processed;
         selectedPolarity := selectedPolarity s;
         fileLoaded := fileLoaded s;
         loading := loading s;
         error := error s;
         stats := st |}
  | (r, Throws message) =>
      {| realm := r;
         csvData := csvData s;
         processedData := processedData s;
         selectedPolarity := selectedPolarity s;
         fileLoaded := fileLoaded s;
         loading := loading s;
         error := "Error al procesar datos: " +:+ message;
         stats := stats s |}
  end.

Definition useEffect (s : State) : State :=
  match csvData s with
  | _ :: _ => processData s
  | [] => s
  end.

(** The numbers put on a circle marker. *)
Record Marker : Type := {
  markerName : string;
  center : Coordinates;
  radius : Q;
  fillColor : option string;
  fillOpacity : Q
}.

Definition markerOf (selected : Z) (maxCount : nat) (entry : string * ViewRow) : Marker :=
  let '(stateName, stateData) := entry in
  let intensity := intensityOf (count stateData) maxCount in
  let opacity := js_add (lit (3 # 10)) (js_mul intensity (lit (7 # 10))) in
  let radius := js_add 10 (js_mul intensity 20) in
  {| markerName := stateName;
     center := coordinates stateData;
     radius := radius;
     fillColor := obj_get polarityColors (polarityKey selected);
     fillOpacity := opacity |}.

Definition generateFoliumMap (selected : Z) (data : obj ViewRow) (maxCount : nat)
  : list Marker :=
  map (markerOf selected maxCount) (Object_entries data).

(** [setLoading(true); setError('')] *)
Definition beginUpload (s : State) : State :=
  {| realm := realm s;
     csvData := csvData s;
     processedData := processedData s;
     selectedPolarity := selectedPolarity s;
     fileLoaded := fileLoaded s;
     loading := true;
     error := "";
     stats := stats s |}.

(** The [complete] callback, with its [catch] and [finally], and the effect
    that the new rows set off. *)
Definition onComplete (data : list Row) (s : State) : State :=
  match validate data with
  | inr valid =>
      useEffect
        {| realm := realm s;
           csvData := valid;
           processedData := processedData s;
           selectedPolarity := selectedPolarity s;
           fileLoaded := true;
           loading := false;
           error := error s;
           stats := stats s |}
  | inl message =>
      {| realm := realm s;
         csvData := csvData s;
         processedData := processedData s;
         selectedPolarity := selectedPolarity s;
         fileLoaded := fileLoaded s;
         loading := false;
         error := message;
         stats := stats s |}
  end.

(** The [error] callback. *)
Definition onError (message : string) (s : State) : State :=
  {| realm := realm s;
     csvData := csvData s;
     processedData := processedData s;
     selectedPolarity := selectedPolarity s;
     fileLoaded := fileLoaded s;
     loading := false;
     error := "Error al leer el archivo: " +:+ message;
     stats := stats s |}.

Definition handleFileUpload (file : option ParseOutcome) (s : State) : State :=
  match file with
  | None => s
  | Some (Complete data) => onComplete data (beginUpload s)
  | Some (ParseError message) => onError message (beginUpload s)
  end.

(** [setSelectedPolarity(p)] *)
Definition selectPolarity (p : Z) (s : State) : State :=
  if (p =? selectedPolarity s)%Z then s
  else
    useEffect
      {| realm := realm s;
         csvData := csvData s;
         processedData := processedData s;
         selectedPolarity := p;
         fileLoaded := fileLoaded s;
         loading := loading s;
         error := error s;
         stats := stats s |}.

Definition step (e : Event) (s : State) : State :=
  match e with
  | FilePicked => beginUpload s
  | ParseCompleted data => onComplete data s
  | ParseFailed message => onError message s
  | PolaritySelected p =>
      if fileLoaded s && existsb (Z.eqb p) polarityOptions
      then selectPolarity p s
      else s
  end.

Inductive reachable : State -> Prop :=
| reachable_initial : reachable initialState
| reachable_step (e : Event) (s : State) : reachable s -> reachable (step e s).

(** No Region among the rows that pass the filter is the name of a built-in
    property. *)
Definition plainRow (row : Row) : bool :=
  negb (isBuiltin (ToPropertyKey (field row "Region"))).

Definition plainEvent (e : Event) : Prop :=
  match e with
  | ParseCompleted data => forallb plainRow (validData data) = true
  | _ => True
  end.

(** The states of the sessions in which every file has plain rows only. *)
Inductive plainlyReachable : State -> Prop :=
| plainly_initial : plainlyReachable initialState
| plainly_step (e : Event) (s : State) :
    plainEvent e -> plainlyReachable s -> plainlyReachable (step e s).

End WithRuntime.

(** Two view rows that differ at most in [count] and [percentage]. *)
Definition sameButCount (e1 e2 : string * ViewRow) : Prop :=
  e1.1 = e2.1 /\
  originalName e1.2 = originalName e2.2 /\
  total e1.2 = total e2.2 /\
  coordinates e1.2 = coordinates e2.2 /\
  allPolarities e1.2 = allPolarities e2.2.

End Realm.

(** The view data and a state of the own-property reading, as seen in a
    realm on which nothing has been written. *)
Definition embedRow (v : ViewRow) : Realm.ViewRow :=
  {| Realm.originalName := originalName v;
     Realm.count := count v;
     Realm.total := total v;
     Realm.percentage := percentage v;
     Realm.coordinates := Realm.FromTable (coordinates v);
     Realm.allPolarities := allPolarities v |}.

Definition embedData (data : obj ViewRow) : obj Realm.ViewRow :=
  map (fun e => (e.1, embedRow e.2)) data.

Definition embed (s : State) : Realm.State :=
  {| Realm.realm := Realm.pristine;
     Realm.csvData := csvData s;
     Realm.processedData := embedData (processedData s);
     Realm.selectedPolarity := selectedPolarity s;
     Realm.fileLoaded := fileLoaded s;
     Realm.loading := loading s;
     Realm.error := error s;
     Realm.stats := stats s |}.

Definition embedProjection (st : Projection) : Realm.Projection :=
  (embedData st.1.1, st.1.2, st.2).

(** Sum and maximum of [count] over the view rows of a realm. *)
Definition sumCountsIn (data : obj Realm.ViewRow) : nat :=
  fold_right (fun e acc => Realm.count e.2 + acc) 0 data.

Definition maxCountsIn (data : obj Realm.ViewRow) : nat :=
  fold_right (fun e acc => Nat.max (Realm.count e.2) acc) 0 data.

(** What every state of a session satisfies, whatever the rows. *)
Definition realmInvariant `{Runtime} (s : Realm.State) : Prop :=
  In (Realm.selectedPolarity s) polarityOptions /\
  (Realm.fileLoaded s = true <-> Realm.csvData s <> []) /\
  Forall (fun row => validRow row = true) (Realm.csvData s) /\
  (Realm.fileLoaded s = false -> Realm.processedData s = [] /\ Realm.stats s = noStats).

(** * Properties *)

(** ** Objects *)

Section ObjectFacts.
Context {V : Type}.
Implicit Types (o : obj V) (k : string) (v : V).

Lemma obj_get_set_eq o k v : obj_get (obj_set o k v) k = Some v.
Proof.
  induction o as [|[k' v'] o IH]; simpl.
  - by rewrite String.eqb_refl.
  - destruct (String.eqb k' k) eqn:E; simpl; rewrite E; auto.
Qed.

Lemma obj_get_set_ne o k k' v : k <> k' -> obj_get (obj_set o k v) k' = obj_get o k'.
Proof.
  intros Hne. induction o as [|[k0 v0] o IH]; simpl.
  - destruct (String.eqb_spec k k'); congruence.
  - destruct (String.eqb_spec k0 k) as [->|]; simpl.
    + destruct (String.eqb_spec k k'); congruence.
    + by rewrite IH.
Qed.

Lemma obj_get_set o k k' v :
  obj_get (obj_set o k v) k' = if String.eqb k k' then Some v else obj_get o k'.
Proof.
  destruct (String.eqb_spec k k') as [->|Hne].
  - apply obj_get_set_eq.
  - by apply obj_get_set_ne.
Qed.



Lemma obj_get_In o k v : obj_get o k = Some v -> In (k, v) o.
Proof.
  induction o as [|[k' v'] o IH]; simpl; [done|].
  destruct (String.eqb_spec k' k) as [->|]; [intros [= ->]; by left | auto].
Qed.

Lemma obj_get_None o k : obj_get o k = None <-> ~ In k (map fst o).
Proof.
  induction o as [|[k' v'] o IH]; simpl; [tauto|].
  destruct (String.eqb_spec k' k) as [->|]; [split; [done|tauto] | ].
  rewrite IH. tauto.
Qed.

Lemma keys_obj_set o k v :
  map fst (obj_set o k v) =
  match obj_get o k with Some _ => map fst o | None => map fst o ++ [k] end.
Proof.
  induction o as [|[k' v'] o IH]; simpl; [done|].
  destruct (String.eqb_spec k' k) as [->|]; simpl; [done|].
  rewrite IH. by destruct (obj_get o k).
Qed.

Lemma NoDup_keys_set o k v : NoDup (map fst o) -> NoDup (map fst (obj_set o k v)).
Proof.
  intros Hnd. rewrite keys_obj_set. destruct (obj_get o k) eqn:E; [done|].
  apply NoDup_app. split_and!; [done| |apply NoDup_singleton].
  intros x Hx [->|[]]%list_elem_of_In. apply obj_get_None in E. apply E.
  by apply list_elem_of_In.
Qed.

Lemma In_obj_get o k v : NoDup (map fst o) -> In (k, v) o -> obj_get o k = Some v.
Proof.
  induction o as [|[k' v'] o IH]; simpl; [done|].
  intros Hnd [[= -> ->]|Hin].
  - by rewrite String.eqb_refl.
  - apply NoDup_cons in Hnd as [Hk Hnd].
    destruct (String.eqb_spec k' k) as [->|]; [|auto].
    exfalso. apply Hk. apply list_elem_of_In. apply (in_map fst) in Hin. exact Hin.
Qed.

End ObjectFacts.

Section EnumerationFacts.
Context {V : Type}.
Implicit Types (o : obj V).

Lemma insert_by_index_perm n (e : string * V) l :
  Permutation (insert_by_index n e l) ((n, e) :: l).
Proof.
  induction l as [|[m e'] l IH]; simpl; [done|].
  destruct (n <? m)%N; [done|].
  rewrite IH. apply perm_swap.
Qed.

Lemma index_entries_perm o :
  Permutation (map snd (index_entries o)) (List.filter (fun e => is_index e.1) o).
Proof.
  induction o as [|[k v] o IH]; simpl; [done|].
  unfold is_index at 1. simpl. destruct (array_index k) as [n|]; [|done].
  rewrite insert_by_index_perm. simpl. by rewrite IH.
Qed.

Lemma filter_split_perm {A} (f : A -> bool) (l : list A) :
  Permutation (List.filter f l ++ List.filter (fun x => negb (f x)) l) l.
Proof.
  induction l as [|x l IH]; simpl; [done|].
  destruct (f x); simpl.
  - by rewrite IH.
  - rewrite <- Permutation_middle. by rewrite IH.
Qed.

Lemma Object_entries_perm o : Permutation (Object_entries o) o.
Proof.
  unfold Object_entries. rewrite index_entries_perm.
  apply (filter_split_perm (fun e => is_index e.1)).
Qed.

Lemma In_Object_entries o e : In e (Object_entries o) <-> In e o.
Proof.
  split; apply Permutation_in; [|symmetry]; apply Object_entries_perm.
Qed.

Lemma length_Object_keys o : length (Object_keys o) = length o.
Proof.
  unfold Object_keys. rewrite length_map.
  apply Permutation_length, Object_entries_perm.
Qed.

Lemma index_entries_index o n e :
  In (n, e) (index_entries o) -> is_index e.1 = true.
Proof.
  induction o as [|[k v] o IH]; simpl; [done|].
  destruct (array_index k) as [m|] eqn:E; [|done].
  intros Hin. apply (Permutation_in _ (insert_by_index_perm m (k, v) _)) in Hin.
  destruct Hin as [[= <- <-]|Hin]; [|auto].
  unfold is_index. simpl. by rewrite E.
Qed.

(** When no key is an array index the enumeration is the creation order. *)
Lemma Object_entries_no_index o :
  (forall e, In e o -> is_index e.1 = false) -> Object_entries o = o.
Proof.
  intros H. unfold Object_entries.
  assert (index_entries o = []) as ->.
  { induction o as [|[k v] o IH]; simpl; [done|].
    specialize (H (k, v) (or_introl eq_refl)) as Hk. unfold is_index in Hk. simpl in Hk.
    destruct (array_index k); [done|]. apply IH. intros e He. apply H. by right. }
  simpl. induction o as [|e o IH]; simpl; [done|].
  rewrite (H e (or_introl eq_refl)). simpl. f_equal. apply IH.
  intros e' He'. apply H. by right.
Qed.

End EnumerationFacts.

(** Filtering the properties of an object by key. *)
Section FilterFacts.
Context {V : Type} (P : string -> bool).
Implicit Types (o : obj V).

Lemma obj_get_filter o k :
  obj_get (List.filter (fun e => P e.1) o) k = if P k then obj_get o k else None.
Proof.
  induction o as [|[k' v'] o IH]; simpl; [by destruct (P k)|].
  destruct (P k') eqn:Ek'; simpl.
  - destruct (String.eqb_spec k' k) as [->|]; [by rewrite Ek'|done].
  - destruct (String.eqb_spec k' k) as [->|]; [|done].
    rewrite IH. by rewrite Ek'.
Qed.

Lemma filter_obj_set o k v :
  List.filter (fun e => P e.1) (obj_set o k v) =
  if P k then obj_set (List.filter (fun e => P e.1) o) k v
  else List.filter (fun e => P e.1) o.
Proof.
  induction o as [|[k' v'] o IH]; simpl.
  - by destruct (P k).
  - destruct (String.eqb_spec k' k) as [->|Hne]; simpl.
    + destruct (P k) eqn:Ek; simpl; [|done].
      by rewrite String.eqb_refl.
    + rewrite IH. destruct (P k') eqn:Ek'; simpl.
      * destruct (P k); [|done]. simpl.
        by destruct (String.eqb_spec k' k).
      * by destruct (P k).
Qed.

End FilterFacts.

(** ** The grouping *)

Lemma get0_set b k k' n :
  get0 (obj_set b k n) k' = if String.eqb k k' then n else get0 b k'.
Proof. unfold get0. rewrite obj_get_set. by destruct (String.eqb k k'). Qed.

Lemma get0_increment b p k :
  get0 (increment b p) k =
  get0 b k + (if String.eqb p k then 1 else 0) + (if String.eqb "total" k then 1 else 0).
Proof.
  unfold increment. rewrite !get0_set.
  destruct (String.eqb_spec p k) as [Hp|Hp];
    destruct (String.eqb_spec "total" k) as [Ht|Ht]; subst;
    rewrite ?String.eqb_refl; try lia.
  all: destruct (String.eqb_spec p "total"); try congruence; try lia.
Qed.

Lemma get0_newBucket k : get0 newBucket k = 0.
Proof.
  unfold get0. destruct (obj_get newBucket k) as [n|] eqn:E; [|done].
  apply obj_get_In in E. unfold newBucket in E. simpl in E.
  repeat (destruct E as [[= _ <-]|E]; [done|]). done.
Qed.


Section GroupingFacts.
Context {rt : Runtime}.

Lemma group_step_get acc row r :
  obj_get (group_step acc row) r =
  if String.eqb (regionKeyOf row) r
  then Some (increment (default newBucket (obj_get acc r)) (polarityKeyOf row))
  else obj_get acc r.
Proof.
  unfold group_step. fold (regionKeyOf row) (polarityKeyOf row).
  destruct (obj_get acc (regionKeyOf row)) as [b|] eqn:E.
  - rewrite E, obj_get_set.
    destruct (String.eqb_spec (regionKeyOf row) r) as [<-|]; [by rewrite E|done].
  - rewrite obj_get_set_eq, !obj_get_set.
    destruct (String.eqb_spec (regionKeyOf row) r) as [<-|]; [by rewrite E|done].
Qed.

Lemma group_step_NoDup acc row :
  NoDup (map fst acc) -> NoDup (map fst (group_step acc row)).
Proof.
  intros H. unfold group_step.
  destruct (obj_get acc _) as [b|] eqn:E.
  - rewrite E. by apply NoDup_keys_set.
  - rewrite obj_get_set_eq. by do 2 apply NoDup_keys_set.
Qed.

Lemma fold_group_NoDup rows acc :
  NoDup (map fst acc) -> NoDup (map fst (fold_left group_step rows acc)).
Proof.
  revert acc. induction rows as [|row rows IH]; intros acc H; simpl; [done|].
  by apply IH, group_step_NoDup.
Qed.

Lemma grouped_NoDup rows : NoDup (map fst (grouped rows)).
Proof. apply fold_group_NoDup. constructor. Qed.

(** The count read at [k] in the bucket of [r], [0] without a bucket. *)
Lemma fold_group_count rows acc r k :
  get0 (default [] (obj_get (fold_left group_step rows acc) r)) k =
  get0 (default [] (obj_get acc r)) k + countFor rows r k
  + (if String.eqb "total" k then totalFor rows r else 0).
Proof.
  revert acc. induction rows as [|row rows IH]; intros acc.
  - unfold countFor, totalFor. cbn [fold_left List.filter length].
    destruct (String.eqb "total" k); lia.
  - cbn [fold_left]. rewrite IH, group_step_get. unfold countFor, totalFor.
    cbn [List.filter].
    destruct (String.eqb_spec (regionKeyOf row) r) as [Hr|Hr]; cbn [andb from_option id].
    + rewrite get0_increment.
      assert (get0 (default newBucket (obj_get acc r)) k
              = get0 (default [] (obj_get acc r)) k) as ->.
      { destruct (obj_get acc r); cbn [from_option id]; [done|]. by rewrite get0_newBucket. }
      destruct (String.eqb (polarityKeyOf row) k), (String.eqb "total" k);
        cbn [length]; lia.
    + destruct (String.eqb "total" k); lia.
Qed.

Lemma fold_group_dom rows acc r :
  obj_get (fold_left group_step rows acc) r = None <->
  obj_get acc r = None /\ totalFor rows r = 0.
Proof.
  revert acc. induction rows as [|row rows IH]; intros acc.
  - unfold totalFor. cbn [fold_left List.filter length]. tauto.
  - cbn [fold_left]. rewrite IH, group_step_get. unfold totalFor. cbn [List.filter].
    destruct (String.eqb_spec (regionKeyOf row) r); cbn [length]; [|tauto].
    split; [intros [[=] _] | intros [_ [=]]].
Qed.

Lemma grouped_count rows r b k :
  obj_get (grouped rows) r = Some b ->
  get0 b k = countFor rows r k + (if String.eqb "total" k then totalFor rows r else 0).
Proof.
  intros H. pose proof (fold_group_count rows [] r k) as Hc.
  fold (grouped rows) in Hc. rewrite H in Hc. cbn [from_option id obj_get] in Hc.
  change (get0 [] k) with 0 in Hc. lia.
Qed.

Lemma grouped_dom rows r :
  is_Some (obj_get (grouped rows) r) <-> 0 < totalFor rows r.
Proof.
  pose proof (fold_group_dom rows [] r) as H. fold (grouped rows) in H.
  simpl in H. rewrite <- not_eq_None_Some. rewrite H. split.
  - intros Hn. destruct (totalFor rows r); [tauto|lia].
  - intros Hp [_ Hz]. lia.
Qed.


End GroupingFacts.




(** ** The runtime *)

Lemma Qred_inject_Z z : Qred (inject_Z z) = inject_Z z.
Proof. apply Qred_identity. simpl. apply Z.gcd_1_r. Qed.

Lemma pretty_digit z :
  (1 <= z <= 5)%Z -> In (pretty z) ["1"; "2"; "3"; "4"; "5"].
Proof.
  intros Hz.
  assert (z = 1 \/ z = 2 \/ z = 3 \/ z = 4 \/ z = 5)%Z as H by lia.
  simpl. destruct H as [->|[->|[->|[->| ->]]]]; auto 6.
Qed.

Section RuntimeFacts.
Context {rt : Runtime} {laws : RuntimeLaws rt}.

Lemma integerPolarity_key row :
  integerPolarity row ->
  exists z, (1 <= z <= 5)%Z /\ polarityKeyOf row = pretty z
            /\ polarityKeyOf row = polarityKey z.
Proof.
  intros (q & z & Hf & Hq & Hz). exists z. split; [done|].
  unfold polarityKeyOf, polarityKey. rewrite Hf. simpl.
  rewrite (Qred_complete _ _ Hq), Qred_inject_Z.
  split; [|done]. apply NumberToString_int. lia.
Qed.

Lemma polarityKey_not_total p : polarityKey p <> "total".
Proof. apply NumberToString_not_total. Qed.

Lemma validRow_not_total row :
  validRow row = true -> polarityKeyOf row <> "total".
Proof.
  unfold validRow, polarityKeyOf, js_ge.
  destruct (field row "Polarity") as [| |b|q|s]; simpl.
  - by rewrite andb_false_r.
  - by rewrite andb_false_r.
  - by destruct b.
  - intros _. apply NumberToString_not_total.
  - intros H ->. rewrite StringToNumber_total in H.
    by rewrite !andb_false_r in H.
Qed.

End RuntimeFacts.

Lemma pretty_N_go_head x s :
  (0 < x)%N -> exists c t, pretty_N_go x s = String c t /\ c <> "t"%char.
Proof.
  revert s. induction (N.lt_wf_0 x) as [x _ IH]; intros s Hx.
  rewrite pretty_N_go_step by done.
  destruct (decide (x `div` 10 = 0)%N) as [->|Hy].
  - rewrite pretty_N_go_0. eexists _, _. split; [done|].
    unfold pretty_N_char. by repeat case_match.
  - apply IH; [by apply N.div_lt | ]. apply N.neq_0_lt_0. done.
Qed.

Lemma pretty_N_head (n : N) :
  exists c t, pretty n = String c t /\ c <> "t"%char.
Proof.
  unfold pretty, pretty_N. case_decide as Hn.
  - by eexists _, _.
  - apply pretty_N_go_head. lia.
Qed.

Lemma pretty_Z_head (z : Z) :
  exists c t, pretty z = String c t /\ c <> "t"%char.
Proof.
  unfold pretty, pretty_Z. destruct z as [|p|p].
  - by eexists _, _.
  - apply pretty_N_head.
  - eexists _, _. by split.
Qed.

Lemma refNumberToString_head q :
  exists c t, refNumberToString q = String c t /\ c <> "t"%char.
Proof.
  unfold refNumberToString. destruct (_ =? 1)%Z; [apply pretty_Z_head|].
  destruct (Qnum q <? 0)%Z; simpl.
  - eexists _, _. by split.
  - match goal with
    | |- context [pretty (?a / ?b)%Z] =>
        destruct (pretty_Z_head (a / b)%Z) as (c & t & -> & Hc)
    end.
    simpl. by eexists _, _.
Qed.

Lemma refRuntimeLaws : RuntimeLaws refRuntime.
Proof.
  split.
  - intros z _. reflexivity.
  - intros q. simpl. destruct (refNumberToString_head q) as (c & t & -> & Hc).
    intros [= ->]. done.
  - reflexivity.
Qed.

(** ** The row filter *)

Lemma validRow_keptByCode `{Runtime} row : validRow row = true <-> keptByCode row.
Proof.
  unfold validRow, keptByCode, js_ge, js_le.
  rewrite !andb_true_iff.
  destruct (ToNumber (field row "Polarity")) as [x|].
  - rewrite !Qle_bool_iff. split.
    + intros [[[? ?] ?] ?]. eauto 10.
    + intros (? & ? & y & [= <-] & ? & ?). auto.
  - split; [intros [[_ [=]] _] | intros (_ & _ & y & [=] & _)].
Qed.

(** ** Order of the rows *)



(** ** Balance of a bucket *)

Lemma increment_balanced b k :
  In k ["1"; "2"; "3"; "4"; "5"] -> bucketBalanced b -> bucketBalanced (increment b k).
Proof.
  unfold bucketBalanced. intros Hk Hb. rewrite !get0_increment, Hb.
  simpl in Hk. destruct Hk as [<-|[<-|[<-|[<-|[<-|[]]]]]]; simpl; lia.
Qed.

Lemma newBucket_balanced : bucketBalanced newBucket.
Proof. reflexivity. Qed.

Lemma group_step_balanced `{rt : Runtime} `{!RuntimeLaws rt} acc row :
  (forall r b, obj_get acc r = Some b -> bucketBalanced b) ->
  integerPolarity row ->
  forall r b, obj_get (group_step acc row) r = Some b -> bucketBalanced b.
Proof.
  intros Hacc Hrow r b. rewrite group_step_get.
  destruct (String.eqb (regionKeyOf row) r); [|apply Hacc].
  intros [= <-]. destruct (integerPolarity_key row Hrow) as (z & Hz & -> & _).
  apply increment_balanced; [by apply pretty_digit|].
  destruct (obj_get acc r) eqn:E; simpl; [by eapply Hacc | apply newBucket_balanced].
Qed.


(** ** The projection *)


Lemma filter_nil_iff {A} (f : A -> bool) (l : list A) :
  (forall x, In x l -> f x = false) -> List.filter f l = [].
Proof.
  induction l as [|x l IH]; intros H; simpl; [done|].
  rewrite (H x (or_introl eq_refl)). apply IH. intros y Hy. apply H. by right.
Qed.

Lemma filter_filter_imp {A} (f g : A -> bool) (l : list A) :
  (forall x, f x = true -> g x = true) ->
  List.filter f (List.filter g l) = List.filter f l.
Proof.
  intros H. induction l as [|x l IH]; simpl; [done|].
  destruct (g x) eqn:Eg; simpl; rewrite IH; [done|].
  destruct (f x) eqn:Ef; [|done]. apply H in Ef. congruence.
Qed.

Lemma table_keys_not_index :
  forallb (fun e => negb (is_index e.1)) stateMapping = true /\
  forallb (fun e => negb (is_index e.1)) stateCoordinates = true.
Proof. split; vm_compute; reflexivity. Qed.

Lemma mappable_not_index r : mappableKey r = true -> is_index r = false.
Proof.
  destruct table_keys_not_index as [Hm Hc].
  rewrite forallb_forall in Hm, Hc.
  unfold mappableKey, standardName. intros H.
  assert (In r (map fst stateMapping) \/ In r (map fst stateCoordinates)) as [Hin|Hin].
  { destruct (obj_get stateMapping r) as [name|] eqn:Em.
    - left. apply obj_get_In in Em. by apply (in_map fst) in Em.
    - right. destruct (obj_get stateCoordinates r) eqn:Ec; [|done].
      apply obj_get_In in Ec. by apply (in_map fst) in Ec. }
  - apply in_map_iff in Hin as (e & <- & He). apply Hm in He. by apply negb_true_iff.
  - apply in_map_iff in Hin as (e & <- & He). apply Hc in He. by apply negb_true_iff.
Qed.

Lemma filter_Object_entries {V} (o : obj V) :
  List.filter (fun e => mappableKey e.1) (Object_entries o) =
  List.filter (fun e => mappableKey e.1) o.
Proof.
  unfold Object_entries. rewrite List.filter_app.
  rewrite filter_nil_iff, filter_filter_imp; [done| |].
  - intros e He. apply negb_true_iff. by apply mappable_not_index.
  - intros e (ne & <- & Hin)%in_map_iff. destruct ne as [n e].
    apply index_entries_index in Hin. simpl.
    destruct (mappableKey e.1) eqn:E; [|done].
    apply mappable_not_index in E. congruence.
Qed.

Lemma In_obj_set {V} (o : obj V) k v e :
  In e (obj_set o k v) -> e = (k, v) \/ In e o.
Proof.
  induction o as [|[k' v'] o IH]; simpl.
  - intros [<-|[]]. by left.
  - destruct (String.eqb_spec k' k) as [->|]; simpl.
    + intros [<-|H]; [by left | right; by right].
    + intros [<-|H]; [right; by left|]. destruct (IH H); [by left | right; by right].
Qed.

Lemma obj_get_perm {V} (o o' : obj V) k :
  Permutation o o' -> NoDup (map fst o) -> obj_get o k = obj_get o' k.
Proof.
  intros Hp Hnd.
  assert (NoDup (map fst o')) as Hnd'.
  { assert (Permutation (map fst o) (map fst o')) as Hm by (by apply Permutation_map).
    by rewrite <- Hm. }
  destruct (obj_get o k) as [v|] eqn:E.
  - symmetry. apply In_obj_get; [done|]. eapply Permutation_in; [exact Hp|].
    by apply obj_get_In.
  - symmetry. apply obj_get_None. apply obj_get_None in E. intros Hin. apply E.
    eapply Permutation_in; [|exact Hin]. apply Permutation_map. by symmetry.
Qed.

Section ProjectionFacts.
Context {rt : Runtime}.

Lemma project_step_cases p processed m t region b :
  project_step p (processed, m, t) (region, b) =
  match obj_get stateCoordinates (standardName region) with
  | Some coords =>
      (obj_set processed (standardName region) (viewRowOf p region b coords),
       Nat.max m (get0 b (polarityKey p)), t + get0 b (polarityKey p))
  | None => (processed, m, t)
  end.
Proof. reflexivity. Qed.

Lemma project_step_skip p st e :
  mappableKey e.1 = false -> project_step p st e = st.
Proof.
  destruct st as [[processed m] t], e as [region b]. rewrite project_step_cases.
  unfold mappableKey. cbn [fst snd]. by destruct (obj_get stateCoordinates _).
Qed.

Lemma project_skip p l st :
  fold_left (project_step p) l st =
  fold_left (project_step p) (List.filter (fun e => mappableKey e.1) l) st.
Proof.
  revert st. induction l as [|e l IH]; intros st; cbn [fold_left List.filter]; [done|].
  destruct (mappableKey e.1) eqn:E; cbn [fold_left]; [apply IH|].
  rewrite project_step_skip by done. apply IH.
Qed.

Lemma project_mappable p (g : obj (obj nat)) :
  project p g = fold_left (project_step p) (List.filter (fun e => mappableKey e.1) g) ([], 0, 0).
Proof. unfold project. by rewrite project_skip, filter_Object_entries. Qed.

Lemma group_step_filter acc row :
  List.filter (fun e => mappableKey e.1) (group_step acc row) =
  if mappableRow row
  then group_step (List.filter (fun e => mappableKey e.1) acc) row
  else List.filter (fun e => mappableKey e.1) acc.
Proof.
  unfold group_step, mappableRow. fold (regionKeyOf row) (polarityKeyOf row).
  destruct (obj_get acc (regionKeyOf row)) as [b|] eqn:E.
  - rewrite E, (filter_obj_set mappableKey).
    destruct (mappableKey (regionKeyOf row)) eqn:Em; [|done].
    rewrite (obj_get_filter mappableKey), Em, E. by rewrite (obj_get_filter mappableKey), Em, E.
  - rewrite obj_get_set_eq, !(filter_obj_set mappableKey).
    destruct (mappableKey (regionKeyOf row)) eqn:Em; [|done].
    rewrite (obj_get_filter mappableKey), Em, E. by rewrite obj_get_set_eq.
Qed.

Lemma fold_group_filter rows acc :
  List.filter (fun e => mappableKey e.1) (fold_left group_step rows acc) =
  fold_left group_step (List.filter mappableRow rows)
    (List.filter (fun e => mappableKey e.1) acc).
Proof.
  revert acc. induction rows as [|row rows IH]; intros acc; cbn [fold_left List.filter]; [done|].
  rewrite IH, group_step_filter. by destruct (mappableRow row).
Qed.

Lemma grouped_filter rows :
  List.filter (fun e => mappableKey e.1) (grouped rows) =
  grouped (List.filter mappableRow rows).
Proof. unfold grouped. by rewrite fold_group_filter. Qed.

Lemma project_drop_unmappable p rows :
  project p (grouped (List.filter mappableRow rows)) = project p (grouped rows).
Proof.
  rewrite !project_mappable, <- grouped_filter.
  by rewrite filter_filter_imp.
Qed.

(** Every view row comes from an entry with coordinates. *)
Lemma project_origin p l st name v :
  In (name, v) (fold_left (project_step p) l st).1.1 ->
  In (name, v) st.1.1 \/
  exists region b coords,
    In (region, b) l /\ name = standardName region /\
    obj_get stateCoordinates name = Some coords /\ v = viewRowOf p region b coords.
Proof.
  revert st. induction l as [|[region b] l IH]; intros st; cbn [fold_left In]; [tauto|].
  intros [Hin|(r' & b' & c' & ? & ? & ? & ?)]%IH; [|right; eauto 10].
  destruct st as [[processed m] t]. rewrite project_step_cases in Hin.
  destruct (obj_get stateCoordinates (standardName region)) as [coords|] eqn:Ec;
    cbn [fst snd] in Hin; [|tauto].
  apply In_obj_set in Hin as [[= -> ->]|Hin]; [|tauto].
  right. exists region, b, coords. auto.
Qed.

Lemma project_lookup_other p l st c :
  (forall e, In e l -> standardName e.1 <> c) ->
  obj_get (fold_left (project_step p) l st).1.1 c = obj_get st.1.1 c.
Proof.
  revert st. induction l as [|[region b] l IH]; intros st H; cbn [fold_left]; [done|].
  rewrite IH by (intros e He; apply H; by right).
  destruct st as [[processed m] t]. rewrite project_step_cases.
  destruct (obj_get stateCoordinates _); cbn [fst snd]; [|done].
  apply obj_get_set_ne. apply (H (region, b)). by left.
Qed.

Lemma project_lookup_unique p l st r b c coords :
  NoDup (map fst l) -> In (r, b) l ->
  (forall e, In e l -> e.1 <> r -> standardName e.1 <> c) ->
  standardName r = c -> obj_get stateCoordinates c = Some coords ->
  obj_get (fold_left (project_step p) l st).1.1 c = Some (viewRowOf p r b coords).
Proof.
  intros Hnd Hin Hothers Hr Hc. revert st.
  induction l as [|[r' b'] l IH]; intros st; cbn [fold_left List.filter]; [done|].
  simpl in Hnd. apply NoDup_cons in Hnd as [Hr' Hnd].
  destruct Hin as [[= -> ->]|Hin].
  - rewrite project_lookup_other.
    + destruct st as [[processed m] t]. rewrite project_step_cases, Hr, Hc. cbn [fst snd].
      apply obj_get_set_eq.
    + intros e He. apply Hothers; [by right|]. intros Heq. apply Hr'.
      apply list_elem_of_In. rewrite <- Heq. by apply in_map.
  - apply IH; [done|done|]. intros e He. apply Hothers. by right.
Qed.

(** The two accumulated numbers. *)
Lemma project_totals p l st :
  (fold_left (project_step p) l st).2 =
    st.2 + fold_right (fun e acc =>
                         (if mappableKey e.1 then get0 e.2 (polarityKey p) else 0) + acc) 0 l /\
  (fold_left (project_step p) l st).1.2 =
    Nat.max st.1.2 (fold_right (fun e acc =>
                         Nat.max (if mappableKey e.1 then get0 e.2 (polarityKey p) else 0) acc) 0 l).
Proof.
  revert st. induction l as [|[region b] l IH]; intros st; cbn [fold_left fold_right fst snd].
  - split; lia.
  - destruct (IH (project_step p st (region, b))) as [-> ->].
    destruct st as [[processed m] t]. rewrite project_step_cases. unfold mappableKey.
    destruct (obj_get stateCoordinates _); cbn [fst snd]; lia.
Qed.



End ProjectionFacts.

Lemma statsOf_totalStates `{Runtime} p rows :
  totalStates (statsOf p rows) = length (processedOf p rows).
Proof.
  unfold statsOf, processedOf. destruct (project p (grouped rows)) as [[processed m] t].
  apply length_Object_keys.
Qed.

(** ** Rounding *)

Local Open Scope Z_scope.

Lemma rne_div_le a b y : 0 < b -> a <= y * b -> rne_div a b <= y.
Proof.
  intros Hb Ha. unfold rne_div.
  pose proof (Z.div_mod a b ltac:(lia)) as Hdm.
  pose proof (Z.mod_pos_bound a b Hb) as Hr.
  assert (a / b <= y) as Hq by nia.
  destruct (2 * (a mod b) ?= b) eqn:E; [destruct (Z.even (a / b))| |]; try lia.
  - apply Z.compare_eq in E. nia.
  - apply Z.compare_gt_iff in E. nia.
Qed.

Lemma rne_div_nonneg a b : 0 <= a -> 0 < b -> 0 <= rne_div a b.
Proof.
  intros Ha Hb. unfold rne_div.
  assert (0 <= a / b) by (apply Z.div_pos; lia).
  destruct (2 * (a mod b) ?= b); [destruct (Z.even (a / b))| |]; lia.
Qed.

Lemma rne_div_nearest a b : 0 < b -> 2 * Z.abs (rne_div a b * b - a) <= b.
Proof.
  intros Hb. unfold rne_div.
  pose proof (Z.div_mod a b ltac:(lia)) as Hdm.
  pose proof (Z.mod_pos_bound a b Hb) as Hr.
  assert (a / b * b - a = - (a mod b)) as H0 by lia.
  assert ((a / b + 1) * b - a = b - a mod b) as H1 by lia.
  destruct (2 * (a mod b) ?= b) eqn:E; [destruct (Z.even (a / b))| |];
    rewrite ?H0, ?H1.
  - apply Z.compare_eq in E. lia.
  - apply Z.compare_eq in E. lia.
  - assert (2 * (a mod b) < b) by exact E. lia.
  - apply Z.compare_gt_iff in E. lia.
Qed.

Lemma ilog2_lower n d :
  Z.pos d * 2 ^ Z.max 0 (ilog2 n d) <= Z.pos n * 2 ^ Z.max 0 (- ilog2 n d).
Proof.
  unfold ilog2.
  set (e := Z.log2 (Z.pos n) - Z.log2 (Z.pos d)).
  destruct (Z.leb_spec (Z.pos d * 2 ^ Z.max 0 e) (Z.pos n * 2 ^ Z.max 0 (- e))) as [H|H];
    [done|].
  pose proof (Z.log2_spec (Z.pos n) ltac:(lia)) as [Hn _].
  pose proof (Z.log2_spec (Z.pos d) ltac:(lia)) as [_ Hd].
  pose proof (Z.log2_nonneg (Z.pos n)) as Hln.
  pose proof (Z.log2_nonneg (Z.pos d)) as Hld.
  destruct (Z.le_gt_cases 1 e) as [He|He].
  - rewrite (Z.max_r 0 (e - 1)), (Z.max_l 0 (- (e - 1))) by lia.
    rewrite Z.pow_0_r, Z.mul_1_r.
    assert (2 ^ Z.log2 (Z.pos n) = 2 ^ Z.succ (Z.log2 (Z.pos d)) * 2 ^ (e - 1)) as Heq.
    { rewrite <- Z.pow_add_r by lia. f_equal. lia. }
    assert (0 < 2 ^ (e - 1)) by (apply Z.pow_pos_nonneg; lia).
    nia.
  - rewrite (Z.max_l 0 (e - 1)), (Z.max_r 0 (- (e - 1))) by lia.
    rewrite Z.pow_0_r, Z.mul_1_r.
    assert (2 ^ Z.succ (Z.log2 (Z.pos d)) = 2 ^ Z.log2 (Z.pos n) * 2 ^ (- (e - 1))) as Heq.
    { rewrite <- Z.pow_add_r by lia. f_equal. lia. }
    assert (0 < 2 ^ (- (e - 1))) by (apply Z.pow_pos_nonneg; lia).
    nia.
Qed.

Lemma ulp_exp_small n d b :
  Z.pos n <= b * Z.pos d -> b < 2 ^ 53 -> ulp_exp (ilog2 n d) <= 0.
Proof.
  intros Hn Hb. pose proof (ilog2_lower n d) as Hl.
  unfold ulp_exp. destruct (Z.le_gt_cases (ilog2 n d) 52) as [He|He]; [lia|].
  exfalso. rewrite (Z.max_r 0 (ilog2 n d)), (Z.max_l 0 (- ilog2 n d)) in Hl by lia.
  rewrite Z.pow_0_r, Z.mul_1_r in Hl.
  assert (2 ^ 53 <= 2 ^ ilog2 n d) by (apply Z.pow_le_mono_r; lia).
  nia.
Qed.

Local Close Scope Z_scope.

Lemma round64_pos_nonneg n d : (0 <= round64_pos n d)%Q.
Proof.
  unfold round64_pos. rewrite Qred_correct. unfold scale2, Qle. simpl.
  rewrite Z.mul_1_r. apply Z.mul_nonneg_nonneg; [|apply Z.pow_nonneg; lia].
  apply rne_div_nonneg; [|].
  - apply Z.mul_nonneg_nonneg; [lia|apply Z.pow_nonneg; lia].
  - apply Z.mul_pos_pos; [lia|apply Z.pow_pos_nonneg; lia].
Qed.

Lemma round64_pos_le n d b :
  (Z.pos n <= b * Z.pos d)%Z -> (b < 2 ^ 53)%Z -> (round64_pos n d <= inject_Z b)%Q.
Proof.
  intros Hn Hb. pose proof (ulp_exp_small n d b Hn Hb) as Hu.
  unfold round64_pos. rewrite Qred_correct.
  set (u := ulp_exp (ilog2 n d)) in *.
  rewrite (Z.max_l 0 u), (Z.max_r 0 (- u)) by lia.
  unfold scale2. rewrite (Z.max_l 0 u), (Z.max_r 0 (- u)) by lia.
  rewrite Z.pow_0_r, !Z.mul_1_r.
  assert (0 < 2 ^ (- u))%Z as Hp by (apply Z.pow_pos_nonneg; lia).
  unfold Qle. simpl. rewrite Z.mul_1_r, Z2Pos.id by done.
  apply rne_div_le; [lia|]. nia.
Qed.

Lemma round64_nonneg q : (0 <= q)%Q -> (0 <= round64 q)%Q.
Proof.
  intros Hq. unfold round64. destruct q as [[|n|n] d]; simpl.
  - apply Qle_refl.
  - apply round64_pos_nonneg.
  - unfold Qle in Hq. simpl in Hq. lia.
Qed.

Lemma round64_le_int q b :
  (0 <= q)%Q -> (q <= inject_Z b)%Q -> (b < 2 ^ 53)%Z -> (round64 q <= inject_Z b)%Q.
Proof.
  intros Hq Hb Hlt. unfold round64. destruct q as [[|n|n] d]; simpl.
  - unfold Qle in *. simpl in *. lia.
  - apply round64_pos_le; [|done]. unfold Qle in Hb. simpl in Hb. lia.
  - unfold Qle in Hq. simpl in Hq. lia.
Qed.

(** ** Percentages *)

Lemma of_count_ratio c t :
  c <= t -> 0 < t -> (0 <= of_count c / of_count t)%Q /\ (of_count c / of_count t <= 1)%Q.
Proof.
  intros Hc Ht. unfold of_count.
  assert (0 < inject_Z (Z.of_nat t))%Q as Hpos.
  { unfold Qlt. simpl. lia. }
  split.
  - apply Qle_shift_div_l; [done|]. rewrite Qmult_0_l. unfold Qle. simpl. lia.
  - apply Qle_shift_div_r; [done|]. rewrite Qmult_1_l. unfold Qle. simpl. lia.
Qed.

Lemma percent_value_bounds c t :
  c <= t -> 0 < t ->
  (0 <= js_mul (js_div (of_count c) (of_count t)) 100)%Q /\
  (js_mul (js_div (of_count c) (of_count t)) 100 <= 100)%Q.
Proof.
  intros Hc Ht. destruct (of_count_ratio c t Hc Ht) as [H0 H1].
  assert (0 <= js_div (of_count c) (of_count t))%Q as Hd0 by (by apply round64_nonneg).
  assert (js_div (of_count c) (of_count t) <= 1)%Q as Hd1.
  { apply (round64_le_int _ 1); [done|done|reflexivity]. }
  unfold js_mul. split.
  - apply round64_nonneg. apply Qmult_le_0_compat; [done|]. by unfold Qle.
  - apply (round64_le_int _ 100); [| |reflexivity].
    + apply Qmult_le_0_compat; [done|]. by unfold Qle.
    + apply Qle_trans with (1 * 100)%Q; [|by unfold Qle].
      apply Qmult_le_compat_r; [done|]. by unfold Qle.
Qed.

Lemma tenths_bounds x :
  (0 <= x)%Q -> (x <= 100)%Q -> (0 <= tenths x <= 1000)%Z.
Proof.
  intros H0 H1. unfold tenths. split.
  - change 0%Z with (Qfloor 0). apply Qfloor_resp_le.
    apply Qle_trans with (0 * 10 + 0)%Q; [by unfold Qle|].
    apply Qplus_le_compat; [|by unfold Qle].
    apply Qmult_le_compat_r; [done|by unfold Qle].
  - change 1000%Z with (Qfloor (100 * 10 + (1 # 2))). apply Qfloor_resp_le.
    apply Qplus_le_compat; [|apply Qle_refl].
    apply Qmult_le_compat_r; [done|by unfold Qle].
Qed.

Lemma tenths_nearest x :
  (inject_Z (tenths x) - (1 # 2) <= x * 10)%Q /\ (x * 10 < inject_Z (tenths x) + (1 # 2))%Q.
Proof.
  unfold tenths. pose proof (Qfloor_le (x * 10 + (1 # 2))) as Hl.
  pose proof (Qlt_floor (x * 10 + (1 # 2))) as Hu.
  rewrite inject_Z_plus in Hu. split.
  - apply (Qplus_le_l _ _ (1 # 2)). ring_simplify. ring_simplify in Hl. exact Hl.
  - apply (Qplus_lt_l _ _ (1 # 2)). ring_simplify. ring_simplify in Hu. exact Hu.
Qed.

Lemma toFixed1_small `{Runtime} x :
  (0 <= x)%Q -> (x <= 100)%Q ->
  toFixed1 x = pretty (tenths x / 10)%Z +:+ "." +:+ pretty (tenths x mod 10)%Z.
Proof.
  intros H0 H1. unfold toFixed1.
  destruct (Qlt_le_dec x 0) as [Hneg|_]; [exfalso; by apply (Qlt_not_le _ _ Hneg)|].
  assert (Qabs x = x) as ->.
  { destruct x as [n d]. unfold Qabs. f_equal. apply Z.abs_eq.
    unfold Qle in H0. simpl in H0. lia. }
  destruct (Qle_bool (inject_Z (10 ^ 21)) x) eqn:E; [|done].
  apply Qle_bool_iff in E. exfalso.
  assert (inject_Z (10 ^ 21) <= 100)%Q as Habs by (by eapply Qle_trans).
  unfold Qle in Habs. simpl in Habs. lia.
Qed.

(** [round64] on a few values whose doubles are known: 0.1, 1/3 and the
    smallest subnormal. *)
Example round64_tenth :
  round64 (1 # 10) = (3602879701896397 # 36028797018963968)%Q.
Proof. vm_compute. reflexivity. Qed.

Example round64_third :
  round64 (1 # 3) = (6004799503160661 # 18014398509481984)%Q.
Proof. vm_compute. reflexivity. Qed.

Example round64_exact_on_small_integers :
  map round64 [0; 1; 5; 10; 20; 30; 100; 1 # 2]%Q = [0; 1; 5; 10; 20; 30; 100; 1 # 2]%Q.
Proof. vm_compute. reflexivity. Qed.


(** ** Counting rows *)

Lemma filter_length_le_imp {A} (f g : A -> bool) (l : list A) :
  (forall x, In x l -> f x = true -> g x = true) ->
  length (List.filter f l) <= length (List.filter g l).
Proof.
  induction l as [|x l IH]; intros H; simpl; [done|].
  assert (length (List.filter f l) <= length (List.filter g l)) as Hle.
  { apply IH. intros y Hy. apply H. by right. }
  destruct (f x) eqn:Ef.
  - rewrite (H x (or_introl eq_refl) Ef). simpl. lia.
  - destruct (g x); simpl; lia.
Qed.

Lemma filter_length_ext {A} (f g : A -> bool) (l : list A) :
  (forall x, In x l -> f x = g x) ->
  length (List.filter f l) = length (List.filter g l).
Proof.
  intros H. apply Nat.le_antisymm; apply filter_length_le_imp; intros x Hx;
    rewrite (H x Hx); done.
Qed.

Section CountingFacts.
Context {rt : Runtime}.

Lemma countFor_le_totalFor rows r k : countFor rows r k <= totalFor rows r.
Proof.
  apply filter_length_le_imp. intros row _. by intros [? _]%andb_true_iff.
Qed.

Lemma countFor_total_valid `{!RuntimeLaws rt} rows r :
  Forall (fun row => validRow row = true) rows -> countFor rows r "total" = 0.
Proof.
  intros Hv. unfold countFor. rewrite filter_nil_iff; [done|].
  intros row Hrow. rewrite Forall_forall in Hv.
  apply list_elem_of_In in Hrow. apply Hv in Hrow. apply validRow_not_total in Hrow.
  destruct (String.eqb_spec (polarityKeyOf row) "total"); [done|].
  by rewrite andb_false_r.
Qed.

Lemma totalFor_pos_In rows r :
  0 < totalFor rows r <-> exists row, In row rows /\ regionKeyOf row = r.
Proof.
  unfold totalFor. split.
  - intros H. destruct (List.filter _ rows) as [|row l] eqn:E; [simpl in H; lia|].
    assert (In row (List.filter (fun row => String.eqb (regionKeyOf row) r) rows)) as Hin
      by (rewrite E; by left).
    apply filter_In in Hin as [Hin Heq]. exists row. split; [done|].
    by apply String.eqb_eq.
  - intros (row & Hin & Heq).
    assert (In row (List.filter (fun row => String.eqb (regionKeyOf row) r) rows)) as Hf.
    { apply filter_In. split; [done|]. by apply String.eqb_eq. }
    destruct (List.filter _ rows); [done|simpl; lia].
Qed.

End CountingFacts.


Lemma increment_NoDup b k : NoDup (map fst b) -> NoDup (map fst (increment b k)).
Proof. intros H. unfold increment. by do 2 apply NoDup_keys_set. Qed.

Lemma newBucket_NoDup : NoDup (map fst newBucket).
Proof. apply NoDup_ListNoDup. vm_compute. repeat constructor; simpl; intuition congruence. Qed.

Lemma grouped_bucket_NoDup `{Runtime} rows r b :
  obj_get (grouped rows) r = Some b -> NoDup (map fst b).
Proof.
  unfold grouped.
  assert (forall r b, obj_get ([] : obj (obj nat)) r = Some b -> NoDup (map fst b)) as Hacc
    by done.
  revert Hacc r b. generalize ([] : obj (obj nat)) as acc.
  induction rows as [|row rows IH]; intros acc Hacc r b; simpl; [apply Hacc|].
  apply IH. clear r b. intros r b. rewrite group_step_get.
  destruct (String.eqb (regionKeyOf row) r); [|apply Hacc].
  intros [= <-]. apply increment_NoDup.
  destruct (obj_get acc r) eqn:E; simpl; [by eapply Hacc | apply newBucket_NoDup].
Qed.

Lemma spread_get {V} (o : obj V) k :
  NoDup (map fst o) -> obj_get (spread o) k = obj_get o k.
Proof.
  intros Hnd. symmetry. apply obj_get_perm; [|done].
  symmetry. apply Object_entries_perm.
Qed.

Section ViewFacts.
Context {rt : Runtime}.

Lemma processedOf_origin p rows name v :
  In (name, v) (processedOf p rows) ->
  exists region b coords,
    obj_get (grouped rows) region = Some b /\ name = standardName region /\
    obj_get stateCoordinates name = Some coords /\ v = viewRowOf p region b coords.
Proof.
  unfold processedOf, project.
  intros [[]|(region & b & coords & Hin & ? & ? & ?)]%project_origin.
  exists region, b, coords. split; [|done].
  apply In_obj_get; [apply grouped_NoDup|]. by apply In_Object_entries.
Qed.

Lemma processedOf_drop_unmappable p rows :
  processedOf p (List.filter mappableRow rows) = processedOf p rows.
Proof. unfold processedOf. by rewrite project_drop_unmappable. Qed.

Lemma statsOf_drop_unmappable p rows :
  statsOf p (List.filter mappableRow rows) = statsOf p rows.
Proof. unfold statsOf. by rewrite project_drop_unmappable. Qed.

End ViewFacts.


(** ** The state of the component *)

Section StateFacts.
Context {rt : Runtime}.

Lemma validate_inr data valid :
  validate data = inr valid -> valid = validData data /\ valid <> [].
Proof.
  unfold validate. destruct (missingColumns data); [|done].
  destruct (validData data) eqn:E; [done|]. intros [= <-]. done.
Qed.

Lemma useEffect_loaded s :
  csvData s <> [] -> useEffect s = processData s.
Proof. unfold useEffect. by destruct (csvData s). Qed.

Lemma useEffect_frame s :
  csvData (useEffect s) = csvData s /\ fileLoaded (useEffect s) = fileLoaded s /\
  loading (useEffect s) = loading s /\ error (useEffect s) = error s /\
  selectedPolarity (useEffect s) = selectedPolarity s.
Proof.
  unfold useEffect. destruct (csvData s) eqn:E; [by rewrite E|].
  unfold processData. cbn [csvData fileLoaded loading error selectedPolarity].
  by rewrite E.
Qed.

Lemma onComplete_inSync data s : inSync s -> inSync (onComplete data s).
Proof.
  intros Hs. unfold onComplete. destruct (validate data) as [message|valid] eqn:Hv.
  - exact Hs.
  - apply validate_inr in Hv as [-> Hne]. rewrite useEffect_loaded by done.
    intros _. by split_and!.
Qed.

Lemma selectPolarity_inSync p s : inSync s -> inSync (selectPolarity p s).
Proof.
  intros Hs. unfold selectPolarity. destruct (p =? selectedPolarity s)%Z; [done|].
  intros Hl. rewrite (proj1 (proj2 (useEffect_frame _))) in Hl. cbn [fileLoaded] in Hl.
  destruct (Hs Hl) as (Hne & _ & _).
  rewrite useEffect_loaded by done. by split_and!.
Qed.

Lemma reachable_inSync s : reachable s -> inSync s.
Proof.
  induction 1 as [|e s _ IH]; [by intros [=]|].
  destruct e as [|data|message|p]; cbn [step].
  - exact IH.
  - by apply onComplete_inSync.
  - exact IH.
  - destruct (fileLoaded s && _); [by apply selectPolarity_inSync | done].
Qed.

End StateFacts.


(** ** The statistics and the view rows *)

Lemma obj_set_fresh {V} (o : obj V) k v :
  obj_get o k = None -> obj_set o k v = o ++ [(k, v)].
Proof.
  induction o as [|[k' v'] o IH]; simpl; [done|].
  destruct (String.eqb k' k); [done|]. intros H. by rewrite IH.
Qed.

Lemma sumCounts_app o1 o2 : sumCounts (o1 ++ o2) = sumCounts o1 + sumCounts o2.
Proof. unfold sumCounts. induction o1 as [|e o1 IH]; simpl; [done|]. rewrite IH. lia. Qed.

Lemma maxCounts_app o1 o2 : maxCounts (o1 ++ o2) = Nat.max (maxCounts o1) (maxCounts o2).
Proof. unfold maxCounts. induction o1 as [|e o1 IH]; simpl; [done|]. rewrite IH. lia. Qed.

Lemma sumCounts_set_le o k v : sumCounts (obj_set o k v) <= sumCounts o + count v.
Proof.
  unfold sumCounts. induction o as [|[k' v'] o IH]; simpl; [lia|].
  destruct (String.eqb k' k); simpl; lia.
Qed.

Section StatisticsFacts.
Context {rt : Runtime}.

(** The view rows never count more than the statistics. *)
Lemma project_sum_le p l st :
  sumCounts st.1.1 <= st.2 ->
  sumCounts (fold_left (project_step p) l st).1.1 <= (fold_left (project_step p) l st).2.
Proof.
  revert st. induction l as [|[region b] l IH]; intros st H; cbn [fold_left]; [done|].
  apply IH. destruct st as [[o m] t]. rewrite project_step_cases.
  destruct (obj_get stateCoordinates _) as [coords|]; cbn [fst snd] in *; [|done].
  pose proof (sumCounts_set_le o (standardName region) (viewRowOf p region b coords)) as Hs.
  change (count (viewRowOf p region b coords)) with (get0 b (polarityKey p)) in Hs. lia.
Qed.

(** Without two mappable raw keys of one standard name, the statistics are
    the sum and the maximum of the view rows. *)
Lemma project_exact p l o m t :
  NoDup (map fst o ++ map (fun e => standardName e.1)
                          (List.filter (fun e => mappableKey e.1) l)) ->
  t = sumCounts o -> m = maxCounts o ->
  (fold_left (project_step p) l (o, m, t)).2
    = sumCounts (fold_left (project_step p) l (o, m, t)).1.1 /\
  (fold_left (project_step p) l (o, m, t)).1.2
    = maxCounts (fold_left (project_step p) l (o, m, t)).1.1.
Proof.
  revert o m t. induction l as [|[region b] l IH]; intros o m t Hnd Ht Hm;
    cbn [fold_left]; [done|].
  rewrite project_step_cases. cbn [List.filter fst] in Hnd. unfold mappableKey in Hnd at 1.
  destruct (obj_get stateCoordinates (standardName region)) as [coords|] eqn:Ec.
  - cbn [map fst] in Hnd.
    assert (obj_get o (standardName region) = None) as Hfresh.
    { apply obj_get_None. intros Hin. apply NoDup_app in Hnd as (_ & Hdis & _).
      apply (Hdis (standardName region)); [by apply list_elem_of_In | left]. }
    rewrite (obj_set_fresh _ _ _ Hfresh). apply IH.
    + rewrite map_app. cbn [map fst]. by rewrite <- app_assoc.
    + rewrite sumCounts_app, Ht.
      change (sumCounts [(standardName region, viewRowOf p region b coords)])
        with (get0 b (polarityKey p) + 0). lia.
    + rewrite maxCounts_app, Hm.
      change (maxCounts [(standardName region, viewRowOf p region b coords)])
        with (Nat.max (get0 b (polarityKey p)) 0). lia.
  - by apply IH.
Qed.

(** The bucket entries at a key other than [total] add up to the rows with
    that polarity key. *)
Lemma bucket_sum_set (o : obj (obj nat)) k r b b' :
  obj_get o r = Some b ->
  fold_right (fun e n => get0 e.2 k + n) 0 (obj_set o r b') + get0 b k =
  fold_right (fun e n => get0 e.2 k + n) 0 o + get0 b' k.
Proof.
  induction o as [|[r0 b0] o IH]; simpl; [done|].
  destruct (String.eqb r0 r); simpl.
  - intros [= ->]. lia.
  - intros H. specialize (IH H). lia.
Qed.

Lemma bucket_sum_snoc (o : obj (obj nat)) k r b :
  fold_right (fun e n => get0 e.2 k + n) 0 (o ++ [(r, b)]) =
  fold_right (fun e n => get0 e.2 k + n) 0 o + get0 b k.
Proof. induction o as [|e o IH]; simpl; [lia|]. rewrite IH. lia. Qed.

Lemma group_step_sum acc row k :
  k <> "total" ->
  fold_right (fun e n => get0 e.2 k + n) 0 (group_step acc row) =
  fold_right (fun e n => get0 e.2 k + n) 0 acc
  + (if String.eqb (polarityKeyOf row) k then 1 else 0).
Proof.
  intros Hk. unfold group_step. fold (regionKeyOf row) (polarityKeyOf row).
  assert (forall b, get0 (increment b (polarityKeyOf row)) k =
                    get0 b k + (if String.eqb (polarityKeyOf row) k then 1 else 0)) as Hinc.
  { intros b. rewrite get0_increment.
    destruct (String.eqb_spec "total" k); [congruence|lia]. }
  destruct (obj_get acc (regionKeyOf row)) as [b|] eqn:E.
  - rewrite E. pose proof (bucket_sum_set acc k _ _ (increment b (polarityKeyOf row)) E) as H.
    rewrite Hinc in H. lia.
  - rewrite obj_get_set_eq.
    pose proof (bucket_sum_set (obj_set acc (regionKeyOf row) newBucket) k
                  (regionKeyOf row) newBucket (increment newBucket (polarityKeyOf row))
                  (obj_get_set_eq _ _ _)) as H.
    rewrite Hinc, get0_newBucket in H.
    rewrite (obj_set_fresh acc _ newBucket E) in H at 2.
    rewrite bucket_sum_snoc, get0_newBucket in H. lia.
Qed.

Lemma grouped_sum rows k :
  k <> "total" ->
  fold_right (fun e n => get0 e.2 k + n) 0 (grouped rows) = rowsWithPolarity rows k.
Proof.
  intros Hk. unfold grouped, rowsWithPolarity.
  assert (forall acc, NoDup (map fst acc) ->
            fold_right (fun e n => get0 e.2 k + n) 0 (fold_left group_step rows acc) =
            fold_right (fun e n => get0 e.2 k + n) 0 acc
            + length (List.filter (fun row => String.eqb (polarityKeyOf row) k) rows)) as H.
  { induction rows as [|row rows IH]; intros acc Hnd; cbn [fold_left List.filter]; [simpl; lia|].
    rewrite IH by (by apply group_step_NoDup). rewrite group_step_sum by done.
    destruct (String.eqb (polarityKeyOf row) k); simpl; lia. }
  rewrite H by constructor. simpl. lia.
Qed.

End StatisticsFacts.

Lemma bucket_sum_perm k (l l' : obj (obj nat)) :
  Permutation l l' ->
  fold_right (fun e n => get0 e.2 k + n) 0 l = fold_right (fun e n => get0 e.2 k + n) 0 l'.
Proof.
  induction 1 as [|x l l' _ IH|x y l|l l' l'' _ IH1 _ IH2]; simpl; try lia.
Qed.

Lemma NoDup_map_on {A B} (f : A -> B) (l : list A) :
  (forall x y, In x l -> In y l -> f x = f y -> x = y) ->
  NoDup l -> NoDup (map f l).
Proof.
  intros Hinj Hnd. induction Hnd as [|x l Hx Hnd IH]; simpl; constructor.
  - intros Hin%list_elem_of_In. apply in_map_iff in Hin as (y & Heq & Hy).
    apply Hx. apply list_elem_of_In.
    rewrite (Hinj x y); [done|by left|by right|done].
  - apply IH. intros a b Ha Hb. apply Hinj; by right.
Qed.

Lemma NoDup_List_filter {A} (f : A -> bool) (l : list A) :
  NoDup l -> NoDup (List.filter f l).
Proof.
  induction 1 as [|x l Hx Hnd IH]; simpl; [constructor|].
  destruct (f x); [|done]. constructor; [|done].
  intros Hin%list_elem_of_In%filter_In. apply Hx, list_elem_of_In. tauto.
Qed.

Lemma NoDup_of_keys {V} (o : obj V) : NoDup (map fst o) -> NoDup o.
Proof.
  induction o as [|e o IH]; [constructor|]. cbn [map].
  intros [Hx Hk]%NoDup_cons. constructor; [|by apply IH].
  intros Hin. apply Hx. apply list_elem_of_In, in_map. by apply list_elem_of_In.
Qed.

Lemma mappable_sum_le `{Runtime} k (l : obj (obj nat)) :
  fold_right (fun e acc => (if mappableKey e.1 then get0 e.2 k else 0) + acc) 0 l
  <= fold_right (fun e n => get0 e.2 k + n) 0 l.
Proof. induction l as [|e l IH]; simpl; [lia|]. destruct (mappableKey e.1); lia. Qed.

Lemma mappable_sum_eq `{Runtime} k (l : obj (obj nat)) :
  (forall e, In e l -> mappableKey e.1 = true) ->
  fold_right (fun e acc => (if mappableKey e.1 then get0 e.2 k else 0) + acc) 0 l
  = fold_right (fun e n => get0 e.2 k + n) 0 l.
Proof.
  induction l as [|e l IH]; intros Hmk; simpl; [lia|].
  rewrite (Hmk e) by (by left). rewrite IH; [lia|]. intros e' He'. apply Hmk. by right.
Qed.

(** What holds of the statistics: the number of states is the number of view
    rows; the view rows add up to at most [totalReviews], which is at most the
    number of rows with the selected polarity and equal to it when every row is
    mappable; with one spelling per standard name, [totalReviews] and
    [maxCount] are the sum and the maximum over the view rows. *)
Lemma statistics_of_view_rows `{rt : Runtime} `{!RuntimeLaws rt} (rows : list Row) (p : Z) :
  totalStates (statsOf p rows) = length (processedOf p rows) /\
  sumCounts (processedOf p rows) <= totalReviews (statsOf p rows) /\
  totalReviews (statsOf p rows) <= rowsWithPolarity rows (polarityKey p) /\
  (forallb mappableRow rows = true ->
   totalReviews (statsOf p rows) = rowsWithPolarity rows (polarityKey p)) /\
  (oneSpelling rows ->
   totalReviews (statsOf p rows) = sumCounts (processedOf p rows) /\
   maxCount (statsOf p rows) = maxCounts (processedOf p rows)).
Proof.
  assert (totalReviews (statsOf p rows) = (project p (grouped rows)).2) as Ht.
  { unfold statsOf. by destruct (project p (grouped rows)) as [[? ?] ?]. }
  assert (maxCount (statsOf p rows) = (project p (grouped rows)).1.2) as Hm.
  { unfold statsOf. by destruct (project p (grouped rows)) as [[? ?] ?]. }
  pose proof (Object_entries_perm (grouped rows)) as Hperm.
  pose proof (grouped_sum rows (polarityKey p) (polarityKey_not_total p)) as Hsum.
  rewrite <- (bucket_sum_perm _ _ _ Hperm) in Hsum.
  destruct (project_totals p (Object_entries (grouped rows)) ([], 0, 0)) as [Htot _].
  fold (project p (grouped rows)) in Htot. cbn [snd] in Htot. rewrite Nat.add_0_l in Htot.
  split_and!.
  - apply statsOf_totalStates.
  - rewrite Ht. unfold processedOf, project. by apply project_sum_le.
  - rewrite Ht, Htot, <- Hsum. apply mappable_sum_le.
  - intros Hall. rewrite Ht, Htot, <- Hsum.
    assert (forall e, In e (Object_entries (grouped rows)) -> mappableKey e.1 = true) as Hmk.
    { intros [r b] Hin. apply (proj1 (In_Object_entries _ _)) in Hin. cbn [fst].
      apply In_obj_get in Hin; [|apply grouped_NoDup].
      assert (0 < totalFor rows r) as (row & Hrow & <-)%totalFor_pos_In
        by (apply grouped_dom; eauto).
      rewrite forallb_forall in Hall. by apply Hall. }
    by apply mappable_sum_eq.
  - intros Hone. rewrite Ht, Hm. unfold processedOf, project.
    apply project_exact; [|done|done]. cbn [map app fst].
    apply NoDup_map_on.
    + intros [r1 b1] [r2 b2] [Hin1 _]%filter_In [Hin2 _]%filter_In Heq. cbn [fst] in Heq.
      apply (proj1 (In_Object_entries _ _)) in Hin1.
      apply (proj1 (In_Object_entries _ _)) in Hin2.
      pose proof (In_obj_get _ _ _ (grouped_NoDup rows) Hin1) as H1.
      pose proof (In_obj_get _ _ _ (grouped_NoDup rows) Hin2) as H2.
      assert (0 < totalFor rows r1) as (row1 & Hrow1 & <-)%totalFor_pos_In
        by (apply grouped_dom; eauto).
      assert (0 < totalFor rows r2) as (row2 & Hrow2 & <-)%totalFor_pos_In
        by (apply grouped_dom; eauto).
      pose proof (Hone row1 row2 Hrow1 Hrow2 Heq) as Hr. rewrite Hr in H1.
      rewrite H1 in H2. injection H2 as ->. by rewrite Hr.
    + apply NoDup_List_filter, NoDup_of_keys.
      assert (Permutation (map fst (Object_entries (grouped rows))) (map fst (grouped rows)))
        as Hpm by (by apply Permutation_map).
      rewrite Hpm. apply grouped_NoDup.
Qed.

(** ** The realm: agreement with the own-property reading on plain rows *)

Lemma obj_set_twice {V} (o : obj V) k v v' : obj_set (obj_set o k v) k v' = obj_set o k v'.
Proof.
  induction o as [|[k' w] o IH]; simpl.
  - by rewrite String.eqb_refl.
  - destruct (String.eqb_spec k' k) as [->|Hne]; simpl.
    + by rewrite String.eqb_refl.
    + destruct (String.eqb_spec k' k); [done|]. by rewrite IH.
Qed.

Lemma embedData_set data k v :
  embedData (obj_set data k v) = obj_set (embedData data) k (embedRow v).
Proof.
  unfold embedData. induction data as [|[k' w] data IH]; simpl; [done|].
  destruct (String.eqb k' k); simpl; [done|]. by rewrite IH.
Qed.

Lemma embedData_get data k :
  obj_get (embedData data) k = embedRow <$> obj_get data k.
Proof.
  unfold embedData. induction data as [|[k' w] data IH]; simpl; [done|].
  by destruct (String.eqb k' k).
Qed.

Lemma embedData_keys data : map fst (embedData data) = map fst data.
Proof. unfold embedData. rewrite map_map. by apply map_ext. Qed.

Lemma embedData_In data name v :
  In (name, v) (embedData data) <-> exists w, v = embedRow w /\ In (name, w) data.
Proof.
  unfold embedData. rewrite in_map_iff. split.
  - intros ([k w] & [= <- <-] & Hin). by exists w.
  - intros (w & -> & Hin). by exists (name, w).
Qed.

Lemma embedData_nil data : embedData data = [] <-> data = [].
Proof. unfold embedData. split; [apply map_eq_nil|by intros ->]. Qed.

Lemma embedRow_inj v w : embedRow v = embedRow w -> v = w.
Proof. destruct v, w. unfold embedRow. simpl. by intros [= -> -> -> -> -> ->]. Qed.

Lemma embedData_inj d1 d2 : embedData d1 = embedData d2 -> d1 = d2.
Proof.
  unfold embedData. revert d2.
  induction d1 as [|[k v] d1 IH]; intros [|[k' v'] d2]; cbn [map fst snd]; try done.
  intros [= -> ? ? ? ? ? ? Hd]. rewrite (IH d2 Hd).
  destruct v, v'; simpl in *; by subst.
Qed.

Lemma isBuiltin_proto k : Realm.isBuiltin k = false -> String.eqb k "__proto__" = false.
Proof. unfold Realm.isBuiltin. by intros [? _]%orb_false_elim. Qed.

Lemma isBuiltin_method k :
  Realm.isBuiltin k = false -> existsb (String.eqb k) Realm.methodNames = false.
Proof. unfold Realm.isBuiltin. by intros [_ ?]%orb_false_elim. Qed.

Lemma inherited_pristine k :
  Realm.isBuiltin k = false -> Realm.inherited Realm.pristine k = Realm.NothingTruthy.
Proof. intros H. unfold Realm.inherited. by rewrite H. Qed.

Lemma countAt_pristine b k : Realm.countAt Realm.pristine b k = get0 b k.
Proof. unfold Realm.countAt, get0. by destruct (obj_get b k). Qed.

Lemma increment_pristine b k : Realm.increment Realm.pristine b k = increment b k.
Proof. unfold Realm.increment, increment. by rewrite countAt_pristine. Qed.

Lemma standardName_table_plain region name :
  obj_get stateMapping region = Some name ->
  Realm.isBuiltin name = false /\ name <> "" /\ is_Some (obj_get stateCoordinates name).
Proof.
  intros H%obj_get_In.
  assert (Forall (fun e : string * string =>
                    Realm.isBuiltin e.2 = false /\ e.2 <> "" /\
                    is_Some (obj_get stateCoordinates e.2)) stateMapping) as Hall.
  { repeat constructor; try done; by eexists. }
  rewrite List.Forall_forall in Hall. exact (Hall _ H).
Qed.

Section RealmFacts.
Context {rt : Runtime} {en : Engine}.

Lemma group_step_plain acc row :
  Realm.plainRow row = true ->
  Realm.group_step Realm.pristine acc row = (Realm.pristine, Realm.Returns (group_step acc row)).
Proof.
  intros Hp%negb_true_iff. unfold Realm.group_step, group_step.
  set (region := ToPropertyKey (field row "Region")) in *.
  set (polarity := ToPropertyKey (field row "Polarity")).
  destruct (obj_get acc region) as [b|] eqn:E.
  - rewrite E. by rewrite increment_pristine.
  - rewrite (isBuiltin_proto _ Hp), (isBuiltin_method _ Hp), (inherited_pristine _ Hp).
    rewrite obj_get_set_eq, obj_set_twice. by rewrite increment_pristine.
Qed.

Lemma reduce_plain rows acc :
  forallb Realm.plainRow rows = true ->
  Realm.reduce Realm.pristine acc rows =
  (Realm.pristine, Realm.Returns (fold_left group_step rows acc)).
Proof.
  revert acc. induction rows as [|row rows IH]; intros acc H; cbn [Realm.reduce fold_left];
    [done|].
  cbn [forallb] in H. apply andb_true_iff in H as [Hrow Hrows].
  rewrite (group_step_plain _ _ Hrow). by apply IH.
Qed.

Lemma grouped_plain rows :
  forallb Realm.plainRow rows = true ->
  Realm.grouped Realm.pristine rows = (Realm.pristine, Realm.Returns (grouped rows)).
Proof. apply reduce_plain. Qed.

Lemma grouped_keys_plain rows region b :
  forallb Realm.plainRow rows = true ->
  In (region, b) (grouped rows) -> Realm.isBuiltin region = false.
Proof.
  intros Hp Hin.
  assert (is_Some (obj_get (grouped rows) region)) as Hs.
  { exists b. apply In_obj_get; [apply grouped_NoDup|done]. }
  apply grouped_dom, totalFor_pos_In in Hs as (row & Hrow & <-).
  rewrite forallb_forall in Hp. specialize (Hp row Hrow).
  by apply negb_true_iff in Hp.
Qed.

Lemma standardName_plain region :
  Realm.isBuiltin region = false ->
  Realm.standardName Realm.pristine region = Realm.Text (standardName region) /\
  Realm.coordinatesAt Realm.pristine (standardName region) =
    Realm.FromTable <$> obj_get stateCoordinates (standardName region) /\
  String.eqb (standardName region) "__proto__" = false.
Proof.
  intros Hp. unfold Realm.standardName, standardName, Realm.coordinatesAt.
  destruct (obj_get stateMapping region) as [name|] eqn:E.
  - destruct (standardName_table_plain _ _ E) as (Hb & Hne & [c Hc]).
    destruct (String.eqb_spec name ""); [done|].
    rewrite Hc. split_and!; try done. by apply isBuiltin_proto.
  - rewrite (inherited_pristine _ Hp). split_and!; [done| |by apply isBuiltin_proto].
    by destruct (obj_get stateCoordinates region).
Qed.

Lemma project_step_plain p st region b :
  Realm.isBuiltin region = false ->
  Realm.project_step Realm.pristine p (embedProjection st) (region, b) =
  embedProjection (project_step p st (region, b)).
Proof.
  intros Hp. destruct st as [[processed m] t].
  destruct (standardName_plain region Hp) as (Hn & Hc & Hproto).
  unfold Realm.project_step, embedProjection. cbn [fst snd].
  rewrite Hn. cbn [Realm.nameKey]. rewrite Hc, project_step_cases.
  destruct (obj_get stateCoordinates (standardName region)) as [coords|]; cbn [fmap option_fmap option_map];
    [|done].
  rewrite Hproto, countAt_pristine. cbn [fst snd]. by rewrite embedData_set.
Qed.

Lemma project_fold_plain p l st :
  (forall e, In e l -> Realm.isBuiltin e.1 = false) ->
  fold_left (Realm.project_step Realm.pristine p) l (embedProjection st) =
  embedProjection (fold_left (project_step p) l st).
Proof.
  revert st. induction l as [|[region b] l IH]; intros st H; cbn [fold_left]; [done|].
  rewrite project_step_plain by (apply (H (region, b)); by left).
  apply IH. intros e He. apply H. by right.
Qed.

Lemma project_plain p rows :
  forallb Realm.plainRow rows = true ->
  Realm.project Realm.pristine p (grouped rows) = embedProjection (project p (grouped rows)).
Proof.
  intros Hp. unfold Realm.project, project.
  apply (project_fold_plain p (Object_entries (grouped rows)) ([], 0, 0)). intros [region b] He.
  apply (proj1 (In_Object_entries _ _)) in He. by apply (grouped_keys_plain rows region b).
Qed.

(** On plain rows, in a realm on which nothing has been written, one run of
    [processData] writes nothing on a built-in object, does not throw, and
    sets the view data and statistics of the own-property reading. *)
Lemma shown_plain p rows :
  forallb Realm.plainRow rows = true ->
  Realm.shown Realm.pristine p rows =
  (Realm.pristine, Realm.Returns (embedData (processedOf p rows), statsOf p rows)).
Proof.
  intros Hp. unfold Realm.shown. rewrite (grouped_plain _ Hp), (project_plain _ _ Hp).
  unfold processedOf, statsOf, embedProjection.
  destruct (project p (grouped rows)) as [[processed m] t]. cbn [fst snd].
  rewrite !length_Object_keys. unfold embedData. by rewrite length_map.
Qed.

Lemma processData_embed s :
  forallb Realm.plainRow (csvData s) = true ->
  Realm.processData (embed s) = embed (processData s).
Proof.
  intros Hp. unfold Realm.processData. cbn [embed Realm.realm Realm.selectedPolarity Realm.csvData].
  by rewrite (shown_plain _ _ Hp).
Qed.

Lemma useEffect_embed s :
  forallb Realm.plainRow (csvData s) = true ->
  Realm.useEffect (embed s) = embed (useEffect s).
Proof.
  intros Hp. unfold Realm.useEffect, useEffect.
  change (Realm.csvData (embed s)) with (csvData s).
  destruct (csvData s) eqn:E; [done|].
  apply processData_embed. by rewrite E.
Qed.

Lemma step_embed e s :
  Realm.plainEvent e -> forallb Realm.plainRow (csvData s) = true ->
  Realm.step e (embed s) = embed (step e s) /\
  forallb Realm.plainRow (csvData (step e s)) = true.
Proof.
  intros He Hs. destruct e as [|data|message|p]; cbn [Realm.step step].
  - done.
  - cbn [Realm.plainEvent] in He. unfold Realm.onComplete, onComplete.
    destruct (validate data) as [message|valid] eqn:Hv; [done|].
    apply validate_inr in Hv as [-> Hne].
    pose proof (useEffect_embed
                  {| csvData := validData data; processedData := processedData s;
                     selectedPolarity := selectedPolarity s; fileLoaded := true;
                     loading := false; error := error s; stats := stats s |} He) as Hu.
    split; [exact Hu|].
    by rewrite (proj1 (useEffect_frame _)).
  - done.
  - cbn [embed Realm.fileLoaded].
    destruct (fileLoaded s && existsb (Z.eqb p) polarityOptions); [|done].
    unfold Realm.selectPolarity, selectPolarity. cbn [embed Realm.selectedPolarity].
    destruct (p =? selectedPolarity s)%Z; [done|].
    pose proof (useEffect_embed
                  {| csvData := csvData s; processedData := processedData s;
                     selectedPolarity := p; fileLoaded := fileLoaded s;
                     loading := loading s; error := error s; stats := stats s |} Hs) as Hu.
    split; [exact Hu|].
    by rewrite (proj1 (useEffect_frame _)).
Qed.

(** A session in which every file has plain rows only goes through the
    states of the own-property reading and writes nothing on a built-in
    object. *)
Lemma plainlyReachable_embed S :
  Realm.plainlyReachable S ->
  exists s, reachable s /\ S = embed s /\ forallb Realm.plainRow (csvData s) = true.
Proof.
  induction 1 as [|e S He _ (s & Hr & -> & Hp)].
  - exists initialState. split_and!; [constructor|done|done].
  - destruct (step_embed e s He Hp) as [Heq Hp'].
    exists (step e s). split_and!; [by constructor|done|done].
Qed.

End RealmFacts.


(** ** The own-property reading *)

(** With own properties only, the grouping is keyed by the raw Region key,
    and a standard name that all rows reach through one raw key gets a view
    row with the sums over these rows. *)
Lemma grouping_by_raw_region_key_own `{rt : Runtime} `{!RuntimeLaws rt} (rows : list Row) :
  Forall (fun row => validRow row = true) rows ->
  (forall r b, obj_get (grouped rows) r = Some b ->
     (forall k, k <> "total" -> get0 b k = countFor rows r k) /\
     get0 b "total" = totalFor rows r) /\
  (forall p r coords,
     obj_get stateCoordinates (standardName r) = Some coords ->
     0 < totalFor rows r ->
     (forall row, In row rows ->
        standardName (regionKeyOf row) = standardName r -> regionKeyOf row = r) ->
     exists v, obj_get (processedOf p rows) (standardName r) = Some v /\
       originalName v = r /\
       count v = canonicalCount rows (standardName r) (polarityKey p) /\
       total v = canonicalTotal rows (standardName r)).
Proof.
  intros Hvalid.
  assert (forall r b, obj_get (grouped rows) r = Some b ->
            (forall k, k <> "total" -> get0 b k = countFor rows r k) /\
            get0 b "total" = totalFor rows r) as Hraw.
  { intros r b Hb. split.
    - intros k Hk. rewrite (grouped_count rows r b k Hb).
      destruct (String.eqb_spec "total" k); [congruence|lia].
    - rewrite (grouped_count rows r b "total" Hb), countFor_total_valid by done.
      simpl. lia. }
  split; [exact Hraw|].
  intros p r coords Hc Hpos Hsingle.
  apply grouped_dom in Hpos as [b Hb].
  exists (viewRowOf p r b coords). split; [|split; [done|]].
  - unfold processedOf, project. apply project_lookup_unique; [| | |done|done].
    + assert (Permutation (map fst (Object_entries (grouped rows))) (map fst (grouped rows)))
        as Hm by apply Permutation_map, Object_entries_perm.
      rewrite Hm. apply grouped_NoDup.
    + apply In_Object_entries. by apply obj_get_In.
    + intros [r' b'] Hin Hne Hstd. cbn [fst snd] in *. apply Hne.
      apply (proj1 (In_Object_entries _ _)) in Hin.
      apply In_obj_get in Hin; [|apply grouped_NoDup].
      assert (0 < totalFor rows r') as (row & Hrow & <-)%totalFor_pos_In
        by (apply grouped_dom; eauto).
      by apply Hsingle.
  - destruct (Hraw r b Hb) as [Hk Ht]. unfold viewRowOf. cbn [count total].
    rewrite Hk by apply polarityKey_not_total. rewrite Ht.
    unfold countFor, totalFor, canonicalCount, canonicalTotal.
    assert (forall row, In row rows ->
              String.eqb (regionKeyOf row) r =
              String.eqb (standardName (regionKeyOf row)) (standardName r)) as Hsame.
    { intros row Hrow.
      destruct (String.eqb_spec (regionKeyOf row) r) as [->|Hne].
      - by rewrite String.eqb_refl.
      - destruct (String.eqb_spec (standardName (regionKeyOf row)) (standardName r)) as [E|];
          [|done]. exfalso. by apply Hne, Hsingle. }
    split; apply filter_length_ext; intros row Hrow; by rewrite (Hsame row Hrow).
Qed.

(** With own properties only, a row whose standard name has no coordinates
    gets a bucket and no view row, and the view data and statistics are those
    of the data without such rows. *)
Lemma unmappable_rows_dropped_by_projection_own `{Runtime}
    (rows : list Row) (p : Z) (row : Row) :
  In row rows -> mappableRow row = false ->
  is_Some (obj_get (grouped rows) (regionKeyOf row)) /\
  (forall name v, In (name, v) (processedOf p rows) ->
     originalName v <> regionKeyOf row /\ name <> standardName (regionKeyOf row)) /\
  (forall m, In m (generateFoliumMap p (processedOf p rows) (maxCount (statsOf p rows))) ->
     markerName m <> standardName (regionKeyOf row)) /\
  processedOf p rows = processedOf p (List.filter mappableRow rows) /\
  statsOf p rows = statsOf p (List.filter mappableRow rows).
Proof.
  intros Hin Hun.
  assert (forall name v, In (name, v) (processedOf p rows) ->
            originalName v <> regionKeyOf row /\ name <> standardName (regionKeyOf row))
    as Hview.
  { intros name v (region & b & coords & _ & -> & Hc & ->)%processedOf_origin.
    unfold mappableRow, mappableKey in Hun.
    split.
    - unfold viewRowOf. cbn [originalName]. intros ->. rewrite Hc in Hun. discriminate.
    - intros Heq. rewrite Heq in Hc. rewrite Hc in Hun. discriminate. }
  split_and!.
  - apply grouped_dom, totalFor_pos_In. eauto.
  - exact Hview.
  - intros m ([name v] & <- & Hm)%in_map_iff.
    apply (proj1 (In_Object_entries _ _)) in Hm. unfold markerOf. cbn [markerName].
    by apply (Hview name v).
  - by rewrite processedOf_drop_unmappable.
  - by rewrite statsOf_drop_unmappable.
Qed.



(** * The claims *)

(** C1 (as amended). The row filter keeps exactly the rows of the parsed data
    whose Region is truthy, whose Polarity is truthy and whose Polarity,
    converted to a number, lies between 1 and 5; whether that number is an
    integer is not looked at. *)
Theorem validData_keeps_truthy_in_range `{Runtime} (data : list Row) (row : Row) :
  In row (validData data) <-> In row data /\ keptByCode row.
Proof.
  unfold validData. rewrite filter_In. by rewrite validRow_keptByCode.
Qed.

(** C1 (counterexample). A row with Region "Jalisco" and Polarity 2.5 is kept
    by the filter although 2.5 is not an integer. *)
Lemma fractional_polarity_is_kept :
  In (mkRow (JStr "Jalisco") (JNum (5 # 2)))
     (@validData refRuntime [mkRow (JStr "Jalisco") (JNum (5 # 2))]) /\
  ~ keptBySpec (mkRow (JStr "Jalisco") (JNum (5 # 2))).
Proof.
  split.
  - left. reflexivity.
  - intros (_ & _ & q & z & Hf & Hq & Hz).
    injection Hf as <-. unfold Qeq in Hq. simpl in Hq. lia.
Qed.


(** C2 (as amended). When no Region is [__proto__] or the name of a method of
    [Object.prototype], and nothing has been written on a built-in object, the
    grouping returns, writes nothing there, and is keyed by the raw Region key:
    the bucket of a raw key counts, per polarity key and in total, exactly the
    valid rows with that raw key.  Standard names come in only at the
    projection, and a standard name with coordinates that all rows reach
    through one raw key gets a view row whose count and total are the sums
    over all rows with that standard name. *)
Theorem grouping_by_raw_region_key `{rt : Runtime} `{!RuntimeLaws rt} `{en : Engine}
    (rows : list Row) :
  Forall (fun row => validRow row = true) rows ->
  forallb Realm.plainRow rows = true ->
  exists g,
    Realm.grouped Realm.pristine rows = (Realm.pristine, Realm.Returns g) /\
    (forall r b, obj_get g r = Some b ->
       (forall k, k <> "total" -> get0 b k = countFor rows r k) /\
       get0 b "total" = totalFor rows r) /\
    (forall p, exists processed st,
       Realm.shown Realm.pristine p rows =
         (Realm.pristine, Realm.Returns (processed, st)) /\
       forall r coords,
         obj_get stateCoordinates (standardName r) = Some coords ->
         0 < totalFor rows r ->
         (forall row, In row rows ->
            standardName (regionKeyOf row) = standardName r -> regionKeyOf row = r) ->
         exists v, obj_get processed (standardName r) = Some v /\
           Realm.originalName v = r /\
           Realm.count v = canonicalCount rows (standardName r) (polarityKey p) /\
           Realm.total v = canonicalTotal rows (standardName r)).
Proof.
  intros Hvalid Hplain.
  destruct (grouping_by_raw_region_key_own rows Hvalid) as [Hraw Hview].
  exists (grouped rows). split_and!; [by apply grouped_plain|exact Hraw|].
  intros p. exists (embedData (processedOf p rows)), (statsOf p rows).
  split; [by apply shown_plain|].
  intros r coords Hc Hpos Hsingle.
  destruct (Hview p r coords Hc Hpos Hsingle) as (v & Hv & Ho & Hcount & Htotal).
  exists (embedRow v). rewrite embedData_get, Hv. by split_and!.
Qed.

Lemma grouping_by_raw_region_key_witness :
  Forall (fun row => @validRow refRuntime row = true)
         [rowOf "QuintanaRoo" 3; rowOf "Jalisco" 3; rowOf "QuintanaRoo" 4] /\
  forallb (@Realm.plainRow refRuntime)
         [rowOf "QuintanaRoo" 3; rowOf "Jalisco" 3; rowOf "QuintanaRoo" 4] = true /\
  exists g,
    @Realm.grouped refRuntime refEngine Realm.pristine
      [rowOf "QuintanaRoo" 3; rowOf "Jalisco" 3; rowOf "QuintanaRoo" 4]
    = (Realm.pristine, Realm.Returns g) /\
    forall r b, obj_get g r = Some b ->
      get0 b "total" =
      @totalFor refRuntime [rowOf "QuintanaRoo" 3; rowOf "Jalisco" 3; rowOf "QuintanaRoo" 4] r.
Proof.
  assert (Forall (fun row => @validRow refRuntime row = true)
            [rowOf "QuintanaRoo" 3; rowOf "Jalisco" 3; rowOf "QuintanaRoo" 4]) as Hv.
  { repeat constructor. }
  assert (forallb (@Realm.plainRow refRuntime)
            [rowOf "QuintanaRoo" 3; rowOf "Jalisco" 3; rowOf "QuintanaRoo" 4] = true) as Hp
    by reflexivity.
  split; [exact Hv|]. split; [exact Hp|].
  destruct (@grouping_by_raw_region_key refRuntime refRuntimeLaws refEngine _ Hv Hp)
    as (g & Hg & Hraw & _).
  exists g. split; [exact Hg|]. intros r b Hb. exact (proj2 (Hraw r b Hb)).
Defined.

(** C2 (counterexample). Two rows spelt "QuintanaRoo" and "Quintana Roo" have
    the same standard name, yet they are filed in two buckets and the view row
    of "Quintana Roo" counts one row, not two. *)
Lemma two_spellings_not_summed :
  standardName "QuintanaRoo" = "Quintana Roo" /\
  standardName "Quintana Roo" = "Quintana Roo" /\
  forallb (@Realm.plainRow refRuntime)
    [rowOf "QuintanaRoo" 3; rowOf "Quintana Roo" 3] = true /\
  @canonicalCount refRuntime
     [rowOf "QuintanaRoo" 3; rowOf "Quintana Roo" 3] "Quintana Roo" "3" = 2 /\
  exists g processed st,
    @Realm.grouped refRuntime refEngine Realm.pristine
      [rowOf "QuintanaRoo" 3; rowOf "Quintana Roo" 3] = (Realm.pristine, Realm.Returns g) /\
    map fst g = ["QuintanaRoo"; "Quintana Roo"] /\
    @Realm.shown refRuntime refEngine Realm.pristine 3
      [rowOf "QuintanaRoo" 3; rowOf "Quintana Roo" 3]
    = (Realm.pristine, Realm.Returns (processed, st)) /\
    Realm.count <$> obj_get processed "Quintana Roo" = Some 1.
Proof.
  split_and!; try reflexivity.
  eexists _, _, _. split_and!; vm_compute; reflexivity.
Qed.

(** C3 (as amended). An upload attempt does not clear the session.  When the
    validation of the parsed file fails, or the parser reports an error, the
    rows, the view data, the statistics, the loaded flag and the selected
    polarity stay what they were, the error message is set and the loading
    flag is cleared.  When the validation succeeds the rows become exactly the
    valid rows of the new file and the loaded flag is set; the view data and
    statistics become those that [processData] computes from these rows, or,
    when it throws, stay what they were next to its error message.  When
    nothing has been written on a built-in object and no Region of the new
    rows is the name of a built-in property, [processData] does not throw and
    the view data and statistics depend on the new rows and the selected
    polarity alone. *)
Theorem upload_replaces_rows_only_on_success `{rt : Runtime} `{en : Engine}
    (s : Realm.State) :
  (forall data message,
     validate data = inl message ->
     Realm.handleFileUpload (Some (Complete data)) s =
     {| Realm.realm := Realm.realm s;
        Realm.csvData := Realm.csvData s; Realm.processedData := Realm.processedData s;
        Realm.selectedPolarity := Realm.selectedPolarity s;
        Realm.fileLoaded := Realm.fileLoaded s;
        Realm.loading := false; Realm.error := message; Realm.stats := Realm.stats s |}) /\
  (forall message,
     Realm.handleFileUpload (Some (ParseError message)) s =
     {| Realm.realm := Realm.realm s;
        Realm.csvData := Realm.csvData s; Realm.processedData := Realm.processedData s;
        Realm.selectedPolarity := Realm.selectedPolarity s;
        Realm.fileLoaded := Realm.fileLoaded s;
        Realm.loading := false; Realm.error := "Error al leer el archivo: " +:+ message;
        Realm.stats := Realm.stats s |}) /\
  (forall data valid,
     validate data = inr valid ->
     Realm.handleFileUpload (Some (Complete data)) s =
     match Realm.shown (Realm.realm s) (Realm.selectedPolarity s) (validData data) with
     | (r, Realm.Returns (processed, st)) =>
         {| Realm.realm := r;
            Realm.csvData := validData data; Realm.processedData := processed;
            Realm.selectedPolarity := Realm.selectedPolarity s; Realm.fileLoaded := true;
            Realm.loading := false; Realm.error := ""; Realm.stats := st |}
     | (r, Realm.Throws message) =>
         {| Realm.realm := r;
            Realm.csvData := validData data; Realm.processedData := Realm.processedData s;
            Realm.selectedPolarity := Realm.selectedPolarity s; Realm.fileLoaded := true;
            Realm.loading := false; Realm.error := "Error al procesar datos: " +:+ message;
            Realm.stats := Realm.stats s |}
     end) /\
  (forall data valid,
     validate data = inr valid ->
     Realm.realm s = Realm.pristine ->
     forallb Realm.plainRow (validData data) = true ->
     Realm.handleFileUpload (Some (Complete data)) s =
     {| Realm.realm := Realm.pristine;
        Realm.csvData := validData data;
        Realm.processedData := embedData (processedOf (Realm.selectedPolarity s) (validData data));
        Realm.selectedPolarity := Realm.selectedPolarity s; Realm.fileLoaded := true;
        Realm.loading := false; Realm.error := "";
        Realm.stats := statsOf (Realm.selectedPolarity s) (validData data) |}).
Proof.
  assert (forall data valid,
     validate data = inr valid ->
     Realm.handleFileUpload (Some (Complete data)) s =
     match Realm.shown (Realm.realm s) (Realm.selectedPolarity s) (validData data) with
     | (r, Realm.Returns (processed, st)) =>
         {| Realm.realm := r;
            Realm.csvData := validData data; Realm.processedData := processed;
            Realm.selectedPolarity := Realm.selectedPolarity s; Realm.fileLoaded := true;
            Realm.loading := false; Realm.error := ""; Realm.stats := st |}
     | (r, Realm.Throws message) =>
         {| Realm.realm := r;
            Realm.csvData := validData data; Realm.processedData := Realm.processedData s;
            Realm.selectedPolarity := Realm.selectedPolarity s; Realm.fileLoaded := true;
            Realm.loading := false; Realm.error := "Error al procesar datos: " +:+ message;
            Realm.stats := Realm.stats s |}
     end) as Hsuccess.
  { intros data valid Hv. unfold Realm.handleFileUpload, Realm.onComplete. rewrite Hv.
    apply validate_inr in Hv as [-> Hne].
    unfold Realm.useEffect. cbn [Realm.csvData].
    destruct (validData data) as [|row valid] eqn:E; [done|].
    unfold Realm.processData.
    cbn [Realm.realm Realm.selectedPolarity Realm.csvData Realm.beginUpload
         Realm.processedData Realm.stats Realm.fileLoaded Realm.loading Realm.error].
    by destruct (Realm.shown (Realm.realm s) (Realm.selectedPolarity s) (row :: valid))
      as [r [[processed st]|message]]. }
  split_and!.
  - intros data message Hv. unfold Realm.handleFileUpload, Realm.onComplete. by rewrite Hv.
  - done.
  - exact Hsuccess.
  - intros data valid Hv Hr Hp. rewrite (Hsuccess data valid Hv), Hr.
    by rewrite (shown_plain _ _ Hp).
Qed.

Lemma upload_replaces_rows_only_on_success_witness :
  let s1 := @Realm.handleFileUpload refRuntime refEngine
              (Some (Complete [rowOf "Jalisco" 5])) Realm.initialState in
  Realm.fileLoaded s1 = true /\
  @validate refRuntime [rowOf "Puebla" 3; rowOf "Puebla" 9] = inr [rowOf "Puebla" 3] /\
  Realm.realm s1 = Realm.pristine /\
  Realm.csvData
    (@Realm.handleFileUpload refRuntime refEngine
       (Some (Complete [rowOf "Puebla" 3; rowOf "Puebla" 9])) s1) = [rowOf "Puebla" 3] /\
  map fst (Realm.processedData
    (@Realm.handleFileUpload refRuntime refEngine
       (Some (Complete [rowOf "Puebla" 3; rowOf "Puebla" 9])) s1)) = ["Puebla"] /\
  @validate refRuntime [rowOf "Jalisco" 9] = inl "No se encontraron datos válidos en el CSV" /\
  Realm.csvData
    (@Realm.handleFileUpload refRuntime refEngine
       (Some (Complete [rowOf "Jalisco" 9])) s1) = [rowOf "Jalisco" 5].
Proof.
  set (s1 := @Realm.handleFileUpload refRuntime refEngine
               (Some (Complete [rowOf "Jalisco" 5])) Realm.initialState).
  assert (@validate refRuntime [rowOf "Puebla" 3; rowOf "Puebla" 9] = inr [rowOf "Puebla" 3])
    as Hok by reflexivity.
  assert (Realm.realm s1 = Realm.pristine) as Hr by reflexivity.
  assert (forallb (@Realm.plainRow refRuntime)
            (@validData refRuntime [rowOf "Puebla" 3; rowOf "Puebla" 9]) = true) as Hp
    by reflexivity.
  assert (@validate refRuntime [rowOf "Jalisco" 9]
          = inl "No se encontraron datos válidos en el CSV") as Hbad by reflexivity.
  pose proof (proj2 (proj2 (proj2
    (@upload_replaces_rows_only_on_success refRuntime refEngine s1))) _ _ Hok Hr Hp) as H1.
  pose proof (proj1
    (@upload_replaces_rows_only_on_success refRuntime refEngine s1) _ _ Hbad) as H2.
  split; [reflexivity|]. split; [exact Hok|]. split; [exact Hr|].
  split; [by rewrite H1|]. split; [by rewrite H1|]. split; [exact Hbad|].
  by rewrite H2.
Defined.

(** C3 (counterexample). After a successful upload, a second upload whose
    rows are all out of range fails validation and leaves the rows, the view
    data and the loaded flag of the first upload in place, next to the error
    message. *)
Lemma failed_upload_keeps_previous_rows :
  let s1 := @Realm.handleFileUpload refRuntime refEngine
              (Some (Complete [rowOf "Jalisco" 5])) Realm.initialState in
  let s2 := @Realm.handleFileUpload refRuntime refEngine
              (Some (Complete [rowOf "Jalisco" 9])) s1 in
  Realm.fileLoaded s1 = true /\ Realm.error s1 = "" /\
  Realm.error s2 = "No se encontraron datos válidos en el CSV" /\
  Realm.csvData s2 = [rowOf "Jalisco" 5] /\
  map fst (Realm.processedData s2) = ["Jalisco"] /\
  Realm.fileLoaded s2 = true.
Proof. vm_compute. repeat split; reflexivity. Qed.

(** C4 (as amended). When no Region is the name of a built-in property and
    nothing has been written on a built-in object, a row whose standard name
    has no coordinates is filed by the grouping like any other row, in a
    bucket under its raw key.  The projection passes over that bucket: no view
    row has its raw key as original name or its standard name as key, no
    marker carries its name, and the view rows and the statistics are those of
    the data without such rows. *)
Theorem unmappable_rows_dropped_by_projection `{rt : Runtime} `{en : Engine}
    (rows : list Row) (p : Z) (row : Row) :
  forallb Realm.plainRow rows = true ->
  In row rows -> mappableRow row = false ->
  exists g processed st,
    Realm.grouped Realm.pristine rows = (Realm.pristine, Realm.Returns g) /\
    is_Some (obj_get g (regionKeyOf row)) /\
    Realm.shown Realm.pristine p rows = (Realm.pristine, Realm.Returns (processed, st)) /\
    (forall name v, In (name, v) processed ->
       Realm.originalName v <> regionKeyOf row /\ name <> standardName (regionKeyOf row)) /\
    (forall m, In m (Realm.generateFoliumMap p processed (maxCount st)) ->
       Realm.markerName m <> standardName (regionKeyOf row)) /\
    Realm.shown Realm.pristine p (List.filter mappableRow rows) =
      (Realm.pristine, Realm.Returns (processed, st)).
Proof.
  intros Hplain Hin Hun.
  destruct (unmappable_rows_dropped_by_projection_own rows p row Hin Hun)
    as (Hb & Hview & _ & Hpd & Hst).
  assert (forall name v, In (name, v) (embedData (processedOf p rows)) ->
            Realm.originalName v <> regionKeyOf row /\ name <> standardName (regionKeyOf row))
    as Hview'.
  { intros name v (w & -> & Hw)%embedData_In. exact (Hview name w Hw). }
  exists (grouped rows), (embedData (processedOf p rows)), (statsOf p rows).
  split_and!.
  - by apply grouped_plain.
  - exact Hb.
  - by apply shown_plain.
  - exact Hview'.
  - intros m ([name v] & <- & Hm)%in_map_iff.
    apply (proj1 (In_Object_entries _ _)) in Hm.
    unfold Realm.markerOf. cbn [Realm.markerName]. by apply (Hview' name v).
  - rewrite shown_plain, <- Hpd, <- Hst; [done|].
    apply forallb_forall. intros x [Hx _]%filter_In.
    rewrite forallb_forall in Hplain. by apply Hplain.
Qed.

Lemma unmappable_rows_dropped_by_projection_witness :
  forallb (@Realm.plainRow refRuntime) [rowOf "Jalisco" 3; rowOf "Atlantis" 3] = true /\
  In (rowOf "Atlantis" 3) [rowOf "Jalisco" 3; rowOf "Atlantis" 3] /\
  @mappableRow refRuntime (rowOf "Atlantis" 3) = false /\
  exists processed st,
    @Realm.shown refRuntime refEngine Realm.pristine 3
      [rowOf "Jalisco" 3; rowOf "Atlantis" 3] = (Realm.pristine, Realm.Returns (processed, st)) /\
    @Realm.shown refRuntime refEngine Realm.pristine 3
      (List.filter (@mappableRow refRuntime) [rowOf "Jalisco" 3; rowOf "Atlantis" 3])
    = (Realm.pristine, Realm.Returns (processed, st)).
Proof.
  assert (forallb (@Realm.plainRow refRuntime) [rowOf "Jalisco" 3; rowOf "Atlantis" 3] = true)
    as Hp by reflexivity.
  assert (In (rowOf "Atlantis" 3) [rowOf "Jalisco" 3; rowOf "Atlantis" 3]) as Hin
    by (right; left; reflexivity).
  assert (@mappableRow refRuntime (rowOf "Atlantis" 3) = false) as Hun by reflexivity.
  split; [exact Hp|]. split; [exact Hin|]. split; [exact Hun|].
  destruct (@unmappable_rows_dropped_by_projection refRuntime refEngine _ 3%Z _ Hp Hin Hun)
    as (g & processed & st & _ & _ & Hs & _ & _ & Hf).
  exists processed, st. split; [exact Hs|exact Hf].
Defined.

(** C4 (counterexample). For a single row of the region "Atlantis", which has
    no coordinates, the grouping does allocate a bucket. *)
Lemma unmappable_region_gets_bucket :
  @mappableRow refRuntime (rowOf "Atlantis" 3) = false /\
  @Realm.grouped refRuntime refEngine Realm.pristine [rowOf "Atlantis" 3]
  = (Realm.pristine,
     Realm.Returns
       [("Atlantis", [("1", 0); ("2", 0); ("3", 1); ("4", 0); ("5", 0); ("total", 1)])]).
Proof. split; reflexivity. Qed.


(** C5 (the code at the failing input). Two rows spelt "QuintanaRoo" and one
    spelt "Quintana Roo", all of polarity 3 and all mappable: the statistics
    report 3 reviews and a maximum of 2, while the only view row has count
    1. *)
Lemma alias_collision_statistics :
  forallb (@validRow refRuntime)
    [rowOf "QuintanaRoo" 3; rowOf "QuintanaRoo" 3; rowOf "Quintana Roo" 3] = true /\
  forallb (@mappableRow refRuntime)
    [rowOf "QuintanaRoo" 3; rowOf "QuintanaRoo" 3; rowOf "Quintana Roo" 3] = true /\
  @rowsWithPolarity refRuntime
    [rowOf "QuintanaRoo" 3; rowOf "QuintanaRoo" 3; rowOf "Quintana Roo" 3] "3" = 3 /\
  @statsOf refRuntime 3
    [rowOf "QuintanaRoo" 3; rowOf "QuintanaRoo" 3; rowOf "Quintana Roo" 3]
    = {| totalStates := 1; totalReviews := 3; maxCount := 2 |} /\
  map (fun e => (e.1, count e.2))
    (@processedOf refRuntime 3
       [rowOf "QuintanaRoo" 3; rowOf "QuintanaRoo" 3; rowOf "Quintana Roo" 3])
    = [("Quintana Roo", 1)] /\
  sumCounts (@processedOf refRuntime 3
       [rowOf "QuintanaRoo" 3; rowOf "QuintanaRoo" 3; rowOf "Quintana Roo" 3]) = 1 /\
  maxCounts (@processedOf refRuntime 3
       [rowOf "QuintanaRoo" 3; rowOf "QuintanaRoo" 3; rowOf "Quintana Roo" 3]) = 1.
Proof. vm_compute. repeat split; reflexivity. Qed.


(** C6 (as amended). A view row of the projection comes from a bucket of the
    grouping:
    its count is the bucket's entry at the selected polarity, 0 if there is
    none; its total is the bucket's total; [allPolarities] reads like the
    bucket at every key; its percentage is [((count / total) * 100).toFixed(1)]
    in double arithmetic when the total is positive and "0.0" otherwise.  With
    a positive total that string is the number of tenths [n] nearest to the
    computed double, printed with one decimal, and [0 <= n / 10 <= 100]. *)
Theorem view_row_of_bucket `{rt : Runtime} `{!RuntimeLaws rt}
    (rows : list Row) (p : Z) (name : string) (v : ViewRow) :
  obj_get (processedOf p rows) name = Some v ->
  exists region b,
    obj_get (grouped rows) region = Some b /\ standardName region = name /\
    count v = get0 b (polarityKey p) /\
    total v = get0 b "total" /\
    (forall k, obj_get (allPolarities v) k = obj_get b k) /\
    percentage v =
      (if (0 <? total v)%nat
       then toFixed1 (js_mul (js_div (of_count (count v)) (of_count (total v))) 100)
       else "0.0") /\
    (0 < total v ->
     let x := js_mul (js_div (of_count (count v)) (of_count (total v))) 100 in
     let n := percentTenths (count v) (total v) in
     percentage v = pretty (n / 10)%Z +:+ "." +:+ pretty (n mod 10)%Z /\
     (inject_Z n - (1 # 2) <= x * 10)%Q /\ (x * 10 < inject_Z n + (1 # 2))%Q /\
     (0 <= n <= 1000)%Z).
Proof.
  intros (region & b & coords & Hb & -> & Hc & ->)%obj_get_In%processedOf_origin.
  exists region, b. unfold viewRowOf. cbn [count total percentage allPolarities].
  split_and!; try done.
  - intros k. apply spread_get. by eapply grouped_bucket_NoDup.
  - intros Hpos.
    assert (get0 b (polarityKey p) <= get0 b "total") as Hle.
    { rewrite (grouped_count rows region b _ Hb), (grouped_count rows region b "total" Hb).
      destruct (String.eqb_spec "total" (polarityKey p)) as [E|_].
      - symmetry in E. by apply polarityKey_not_total in E.
      - pose proof (countFor_le_totalFor rows region (polarityKey p)).
        rewrite String.eqb_refl. lia. }
    destruct (percent_value_bounds _ _ Hle Hpos) as [Hx0 Hx1].
    unfold percentTenths.
    destruct (tenths_nearest
                (js_mul (js_div (of_count (get0 b (polarityKey p)))
                           (of_count (get0 b "total"))) 100)) as [Hn1 Hn2].
    split_and!; try done.
    + unfold percentageOf. apply Nat.ltb_lt in Hpos. rewrite Hpos.
      by apply toFixed1_small.
    + by apply tenths_bounds.
    + by apply tenths_bounds.
Qed.

Lemma view_row_of_bucket_witness :
  exists v region b,
    obj_get (@processedOf refRuntime 5 [rowOf "Jalisco" 5]) "Jalisco" = Some v /\
    obj_get (@grouped refRuntime [rowOf "Jalisco" 5]) region = Some b /\
    count v = get0 b (@polarityKey refRuntime 5) /\
    percentage v = "100.0".
Proof.
  assert (obj_get (@processedOf refRuntime 5 [rowOf "Jalisco" 5]) "Jalisco"
          = Some (@viewRowOf refRuntime 5 "Jalisco"
                    [("1", 0); ("2", 0); ("3", 0); ("4", 0); ("5", 1); ("total", 1)]
                    (lit (206597 # 10000), lit (- 1033496 # 10000)))) as Hv
    by (vm_compute; reflexivity).
  destruct (@view_row_of_bucket refRuntime refRuntimeLaws _ _ _ _ Hv)
    as (region & b & Hb & _ & Hcount & _).
  eexists _, region, b. split; [exact Hv|]. split; [exact Hb|]. split; [exact Hcount|].
  vm_compute. reflexivity.
Defined.

(** C6 (counterexample). 23 rows out of 80 are 28.75 per cent, which rounds
    to 28.8, and so does the double computed as [100 * 23 / 80]; the code
    divides first, gets a double just below 28.75 and prints 28.7. *)
Lemma percentage_of_23_in_80 :
  @percentageOf refRuntime 23 80 = "28.7" /\
  (of_count 23 / of_count 80 * 100 == 2875 # 100)%Q /\
  tenths (of_count 23 / of_count 80 * 100) = 288%Z /\
  @toFixed1 refRuntime (js_div (js_mul 100 (of_count 23)) (of_count 80)) = "28.8".
Proof. vm_compute. repeat split; reflexivity. Qed.






(** C8. Every entry of the view data gives one marker, in enumeration order,
    with intensity [count / maxCount] when [maxCount > 0] and [0] otherwise,
    fill opacity [0.3 + intensity * 0.7] and radius [10 + intensity * 20], all
    in double arithmetic.  With a maximum of 10, a count of 10 gives intensity
    1 and radius 30, and a count of 5 gives intensity 0.5 and radius 20; the
    upload of ten rows of one region and five of another yields exactly these
    two radii. *)
Theorem marker_numbers `{rt : Runtime} :
  (forall (selected : Z) (data : obj ViewRow) (maxCount : nat),
     generateFoliumMap selected data maxCount =
     map (fun e =>
            let i := if (0 <? maxCount)%nat
                     then js_div (of_count (count e.2)) (of_count maxCount)
                     else 0%Q in
            {| markerName := e.1;
               center := coordinates e.2;
               radius := js_add 10 (js_mul i 20);
               fillColor := obj_get polarityColors (polarityKey selected);
               fillOpacity := js_add (lit (3 # 10)) (js_mul i (lit (7 # 10))) |})
         (Object_entries data)) /\
  intensityOf 10 10 = 1%Q /\
  js_add 10 (js_mul (intensityOf 10 10) 20) = 30%Q /\
  intensityOf 5 10 = (1 # 2)%Q /\
  js_add 10 (js_mul (intensityOf 5 10) 20) = 20%Q /\
  map (fun m => (markerName m, radius m))
      (@mapMarkers refRuntime
         (@handleFileUpload refRuntime
            (Some (Complete (repeat (rowOf "Jalisco" 3) 10 ++ repeat (rowOf "Puebla" 3) 5)))
            initialState))
  = [("Jalisco", 30%Q); ("Puebla", 20%Q)].
Proof.
  split; [|vm_compute; repeat split; reflexivity].
  intros selected data maxCount. unfold generateFoliumMap.
  apply map_ext. intros [name v]. reflexivity.
Qed.






(** C10. When every row has an integer polarity from 1 to 5, every bucket of
    the grouping has [total = count(1) + ... + count(5)], and one more row
    filed by the reducer keeps that true of every bucket. *)
Theorem buckets_balanced `{rt : Runtime} `{!RuntimeLaws rt} :
  (forall rows : list Row,
      Forall integerPolarity rows ->
      forall r b, obj_get (grouped rows) r = Some b -> bucketBalanced b) /\
  (forall (acc : obj (obj nat)) (row : Row),
      (forall r b, obj_get acc r = Some b -> bucketBalanced b) ->
      integerPolarity row ->
      forall r b, obj_get (group_step acc row) r = Some b -> bucketBalanced b).
Proof.
  split; [|apply group_step_balanced].
  intros rows Hrows. unfold grouped.
  assert (forall r b, obj_get ([] : obj (obj nat)) r = Some b -> bucketBalanced b) as Hacc
    by done.
  revert Hacc. generalize ([] : obj (obj nat)) as acc.
  induction Hrows as [|row rows Hrow _ IH]; intros acc Hacc; simpl; [done|].
  apply IH. by apply group_step_balanced.
Qed.

Lemma buckets_balanced_witness :
  Forall (@integerPolarity) [rowOf "Jalisco" 5; rowOf "Jalisco" 1] /\
  bucketBalanced [("1", 1); ("2", 0); ("3", 0); ("4", 0); ("5", 1); ("total", 2)].
Proof.
  assert (Forall (@integerPolarity) [rowOf "Jalisco" 5; rowOf "Jalisco" 1]) as Hrows.
  { repeat constructor.
    - exists (inject_Z 5), 5%Z. split; [reflexivity|]. split; [reflexivity|lia].
    - exists (inject_Z 1), 1%Z. split; [reflexivity|]. split; [reflexivity|lia]. }
  split; [exact Hrows|].
  exact (proj1 (@buckets_balanced refRuntime refRuntimeLaws) _ Hrows "Jalisco" _ eq_refl).
Defined.

(** * Further properties *)

(** ** Validation of an upload *)

Lemma includes_Object_keys (row : Row) col :
  includes (Object_keys row) col = hasColumn row col.
Proof.
  unfold includes, hasColumn.
  destruct (obj_get row col) as [v|] eqn:E.
  - apply existsb_exists. exists col. split; [|apply String.eqb_refl].
    unfold Object_keys. apply in_map_iff. exists (col, v). split; [done|].
    apply In_Object_entries. by apply obj_get_In.
  - apply not_true_is_false. intros (x & Hin & ->%String.eqb_eq)%existsb_exists.
    apply obj_get_None in E. apply E.
    unfold Object_keys in Hin. apply in_map_iff in Hin as (e & <- & He).
    apply (proj1 (In_Object_entries _ _)) in He. by apply in_map.
Qed.

Lemma missingColumns_filter data :
  missingColumns data =
  List.filter (fun col => negb (hasColumn (hd [] data) col)) requiredColumns.
Proof.
  unfold missingColumns. apply filter_ext. intros col.
  rewrite includes_Object_keys. by destruct data.
Qed.

Lemma missingColumns_nil data : missingColumns data = [] <-> headerComplete data = true.
Proof.
  rewrite missingColumns_filter. unfold headerComplete. split.
  - intros H. destruct data as [|row data].
    + vm_compute in H. discriminate.
    + apply forallb_forall. intros col Hcol. cbn [hd] in H.
      destruct (hasColumn row col) eqn:E; [done|].
      assert (In col (List.filter (fun col => negb (hasColumn row col)) requiredColumns)) as Hin
        by (apply filter_In; by rewrite E).
      rewrite H in Hin. destruct Hin.
  - destruct data as [|row data]; [done|]. intros H. cbn [hd].
    apply filter_nil_iff. intros col Hcol. rewrite forallb_forall in H.
    by rewrite (H col Hcol).
Qed.

(** X1. The three outcomes of validating a parsed file.  When the first row
    lacks a required column the upload fails with "Columnas faltantes: "
    followed by exactly the missing required columns, in the order Title,
    Review, Polarity, Town, Region, Type, whatever the rows hold; a file
    without rows fails in this way with all six.  With a complete first row the
    upload fails with the empty-dataset message when no row passes the filter,
    and otherwise succeeds with the rows that pass it. *)
Theorem validate_outcomes `{Runtime} (data : list Row) :
  (headerComplete data = false ->
   List.filter (fun col => negb (hasColumn (hd [] data) col)) requiredColumns <> [] /\
   validate data =
   inl ("Columnas faltantes: " +:+
        String.concat ", "
          (List.filter (fun col => negb (hasColumn (hd [] data) col)) requiredColumns))) /\
  (data = [] ->
   validate data = inl "Columnas faltantes: Title, Review, Polarity, Town, Region, Type") /\
  (headerComplete data = true -> validData data = [] ->
   validate data = inl "No se encontraron datos válidos en el CSV") /\
  (headerComplete data = true -> validData data <> [] ->
   validate data = inr (validData data)).
Proof.
  split_and!.
  - intros Hh. rewrite <- missingColumns_filter.
    assert (missingColumns data <> []) as Hne.
    { intros Hnil%missingColumns_nil. congruence. }
    split; [done|]. unfold validate. by destruct (missingColumns data).
  - intros ->. reflexivity.
  - intros Hh%missingColumns_nil Hv. unfold validate. by rewrite Hh, Hv.
  - intros Hh%missingColumns_nil Hv. unfold validate. rewrite Hh.
    by destruct (validData data).
Qed.

Lemma validate_outcomes_witness :
  headerComplete [[("Title", JStr "A"); ("Polarity", JNum 5); ("Town", JStr "T");
                   ("Region", JStr "Jalisco"); ("Type", JStr "hotel")]] = false /\
  @validate refRuntime [[("Title", JStr "A"); ("Polarity", JNum 5); ("Town", JStr "T");
                         ("Region", JStr "Jalisco"); ("Type", JStr "hotel")]]
  = inl "Columnas faltantes: Review".
Proof.
  assert (headerComplete [[("Title", JStr "A"); ("Polarity", JNum 5); ("Town", JStr "T");
                           ("Region", JStr "Jalisco"); ("Type", JStr "hotel")]] = false) as Hh
    by reflexivity.
  split; [exact Hh|].
  exact (proj2 (proj1 (@validate_outcomes refRuntime _) Hh)).
Defined.

(** ** Invariants of a session *)

Section SessionFacts.
Context {rt : Runtime}.

Lemma validData_Forall data : Forall (fun row => validRow row = true) (validData data).
Proof.
  apply Forall_forall. intros row Hin%list_elem_of_In. unfold validData in Hin.
  by apply filter_In in Hin as [_ ?].
Qed.

Lemma onComplete_invariant data s : sessionInvariant s -> sessionInvariant (onComplete data s).
Proof.
  intros (Hp & Hl & Hv & Hoff & Hon). unfold onComplete.
  destruct (validate data) as [message|valid] eqn:E.
  - by split_and!.
  - apply validate_inr in E as [-> Hne]. rewrite useEffect_loaded by done.
    unfold processData, sessionInvariant. cbn -[processedOf statsOf polarityOptions validData].
    split_and!; try done.
    apply validData_Forall.
Qed.

Lemma selectPolarity_invariant p s :
  In p polarityOptions -> sessionInvariant s -> sessionInvariant (selectPolarity p s).
Proof.
  intros Hp (Hsel & Hl & Hv & Hoff & Hon). unfold selectPolarity.
  destruct (p =? selectedPolarity s)%Z; [by split_and!|].
  unfold useEffect. cbn [csvData]. destruct (csvData s) as [|row rows] eqn:E.
  - unfold sessionInvariant. cbn -[processedOf statsOf polarityOptions]. by split_and!.
  - unfold processData, sessionInvariant. cbn -[processedOf statsOf polarityOptions].
    split_and!; try done.
    intros Hoff'. assert (fileLoaded s = true) as Hload by (by apply Hl).
    congruence.
Qed.

Lemma step_invariant e s : sessionInvariant s -> sessionInvariant (step e s).
Proof.
  intros Hs. destruct e as [|data|message|p]; cbn [step].
  - exact Hs.
  - by apply onComplete_invariant.
  - exact Hs.
  - destruct (fileLoaded s) eqn:El; cbn [andb]; [|done].
    destruct (existsb (Z.eqb p) polarityOptions) eqn:Ep; [|done].
    apply selectPolarity_invariant; [|done].
    apply existsb_exists in Ep as (x & Hx & ->%Z.eqb_eq). done.
Qed.

End SessionFacts.

Section SessionTheorems.
Context {rt : Runtime}.

Lemma step_keeps_loaded e s : fileLoaded s = true -> fileLoaded (step e s) = true.
Proof.
  intros Hl. destruct e as [|data|message|p]; cbn [step].
  - exact Hl.
  - unfold onComplete. destruct (validate data); [exact Hl|].
    by rewrite (proj1 (proj2 (useEffect_frame _))).
  - exact Hl.
  - destruct (_ && _); [|exact Hl]. unfold selectPolarity.
    destruct (_ =? _)%Z; [exact Hl|]. by rewrite (proj1 (proj2 (useEffect_frame _))).
Qed.

Lemma run_invariant events s : sessionInvariant s -> sessionInvariant (run events s).
Proof.
  revert s. induction events as [|e events IH]; intros s Hs; [done|].
  apply IH. by apply step_invariant.
Qed.

Lemma run_keeps_loaded events s : fileLoaded s = true -> fileLoaded (run events s) = true.
Proof.
  revert s. induction events as [|e events IH]; intros s Hs; [done|].
  apply IH. by apply step_keeps_loaded.
Qed.

Lemma initial_invariant : sessionInvariant initialState.
Proof.
  unfold sessionInvariant, initialState, polarityOptions. cbn.
  split_and!; try done; auto.
Qed.

Lemma reachable_invariant s : reachable s -> sessionInvariant s.
Proof.
  induction 1 as [|e s _ IH]; [apply initial_invariant | by apply step_invariant].
Qed.

End SessionTheorems.


(** X3. Once a file is loaded, no later sequence of events (new uploads that
    succeed or fail, parse errors, polarity choices) clears the loaded flag or
    leaves the session without rows. *)
Theorem loaded_session_stays_loaded `{rt : Runtime} (s : State) (events : list Event) :
  reachable s -> fileLoaded s = true ->
  fileLoaded (run events s) = true /\ csvData (run events s) <> [].
Proof.
  intros Hr Hl.
  assert (fileLoaded (run events s) = true) as Hl' by (by apply run_keeps_loaded).
  split; [done|].
  assert (sessionInvariant (run events s)) as (_ & Hiff & _).
  { apply run_invariant. by apply reachable_invariant. }
  by apply Hiff.
Qed.

(** ** Uploads and selections *)

Section UploadFacts.
Context {rt : Runtime}.

Lemma validate_inr_iff data valid :
  validate data = inr valid <->
  headerComplete data = true /\ validData data <> [] /\ valid = validData data.
Proof.
  unfold validate. rewrite <- missingColumns_nil.
  destruct (missingColumns data) as [|c cs]; [|split; [done|by intros [[=] _]]].
  destruct (validData data) as [|row rows]; [split; [done|by intros (_ & ? & _)]|].
  split; [by intros [= <-]|by intros (_ & _ & ->)].
Qed.

Lemma validate_inl_nonempty data message : validate data = inl message -> message <> "".
Proof.
  unfold validate. destruct (missingColumns data); [destruct (validData data)|];
    intros [= <-]; done.
Qed.

End UploadFacts.


Lemma selectPolarity_loaded `{rt : Runtime} p s :
  csvData s <> [] ->
  processedData s = processedOf (selectedPolarity s) (csvData s) ->
  stats s = statsOf (selectedPolarity s) (csvData s) ->
  selectPolarity p s =
  {| csvData := csvData s; processedData := processedOf p (csvData s);
     selectedPolarity := p; fileLoaded := fileLoaded s; loading := loading s;
     error := error s; stats := statsOf p (csvData s) |}.
Proof.
  intros Hne Hpd Hst. unfold selectPolarity.
  destruct (Z.eqb_spec p (selectedPolarity s)) as [->|Hdiff].
  - destruct s as [rows pd sel fl ld er st]. cbn in *. by subst.
  - by rewrite useEffect_loaded.
Qed.


(** With own properties only, the last choice of a polarity decides what is
    shown. *)
Lemma last_selection_wins_own `{rt : Runtime} (s : State) (p q : Z) :
  reachable s -> fileLoaded s = true ->
  In p polarityOptions -> In q polarityOptions ->
  step (PolaritySelected p) (step (PolaritySelected q) s) = step (PolaritySelected p) s.
Proof.
  intros Hr Hl Hp Hq.
  destruct (reachable_inSync s Hr Hl) as (Hne & Hpd & Hst).
  assert (forall x, In x polarityOptions -> existsb (Z.eqb x) polarityOptions = true) as Hopt.
  { intros x Hx. apply existsb_exists. exists x. split; [done|apply Z.eqb_refl]. }
  cbn [step]. rewrite (Hopt q Hq), (Hopt p Hp), Hl. cbn [andb].
  rewrite (selectPolarity_loaded q s Hne Hpd Hst). cbn [fileLoaded]. rewrite Hl.
  rewrite (selectPolarity_loaded p s Hne Hpd Hst).
  rewrite selectPolarity_loaded; [|exact Hne|reflexivity|reflexivity].
  cbn [csvData fileLoaded loading error]. by rewrite Hl.
Qed.


Lemma loaded_session_stays_loaded_witness :
  let s := @step refRuntime (ParseCompleted [rowOf "Jalisco" 5])
             (@step refRuntime FilePicked initialState) in
  @reachable refRuntime s /\ fileLoaded s = true /\
  fileLoaded (@run refRuntime [FilePicked; ParseCompleted [rowOf "Jalisco" 9];
                               FilePicked; ParseFailed "x"; PolaritySelected 2] s) = true.
Proof.
  set (s := @step refRuntime (ParseCompleted [rowOf "Jalisco" 5])
              (@step refRuntime FilePicked initialState)).
  assert (@reachable refRuntime s) as Hr by (do 2 apply reachable_step; apply reachable_initial).
  assert (fileLoaded s = true) as Hl by reflexivity.
  split; [exact Hr|]. split; [exact Hl|].
  exact (proj1 (@loaded_session_stays_loaded refRuntime s _ Hr Hl)).
Defined.

(** ** Order and number of the view rows *)

Lemma existsb_eqb_In k (l : list string) : existsb (String.eqb k) l = true <-> In k l.
Proof.
  rewrite existsb_exists. split.
  - by intros (x & Hx & ->%String.eqb_eq).
  - intros H. exists k. split; [done|apply String.eqb_refl].
Qed.

Lemma keys_obj_set_addKey {V} (o : obj V) k v :
  map fst (obj_set o k v) = addKey (map fst o) k.
Proof.
  rewrite keys_obj_set. unfold addKey.
  destruct (obj_get o k) eqn:E.
  - assert (existsb (String.eqb k) (map fst o) = true) as ->; [|done].
    apply existsb_eqb_In. apply obj_get_In in E. exact (in_map fst _ _ E).
  - assert (existsb (String.eqb k) (map fst o) = false) as ->; [|done].
    apply not_true_is_false. intros H%existsb_eqb_In. apply obj_get_None in E. by apply E.
Qed.

Lemma addKey_idem l k : addKey (addKey l k) k = addKey l k.
Proof.
  assert (existsb (String.eqb k) (addKey l k) = true) as H.
  { unfold addKey. destruct (existsb (String.eqb k) l) eqn:E; [done|].
    apply existsb_eqb_In, in_or_app. right. by left. }
  unfold addKey at 1. by rewrite H.
Qed.

Lemma In_addKey l k x : In x (addKey l k) <-> In x l \/ x = k.
Proof.
  unfold addKey. destruct (existsb (String.eqb k) l) eqn:E.
  - apply existsb_eqb_In in E. split; [tauto|]. intros [?| ->]; done.
  - rewrite in_app_iff. simpl. intuition congruence.
Qed.

Lemma In_fold_addKey l acc x : In x (fold_left addKey l acc) <-> In x acc \/ In x l.
Proof.
  revert acc. induction l as [|k l IH]; intros acc; cbn [fold_left In]; [tauto|].
  rewrite IH, In_addKey. intuition congruence.
Qed.

Lemma NoDup_addKey l k : NoDup l -> NoDup (addKey l k).
Proof.
  intros H. unfold addKey. destruct (existsb (String.eqb k) l) eqn:E; [done|].
  apply NoDup_app. split_and!; [done| |apply NoDup_singleton].
  intros x Hx ->%list_elem_of_singleton.
  apply list_elem_of_In, existsb_eqb_In in Hx. congruence.
Qed.

Lemma NoDup_fold_addKey l acc : NoDup acc -> NoDup (fold_left addKey l acc).
Proof.
  revert acc. induction l as [|k l IH]; intros acc H; cbn [fold_left]; [done|].
  by apply IH, NoDup_addKey.
Qed.

(** A key met again changes nothing. *)
Lemma fold_addKey_skip l1 l2 acc y :
  In y acc \/ In y l1 ->
  fold_left addKey (l1 ++ y :: l2) acc = fold_left addKey (l1 ++ l2) acc.
Proof.
  intros Hy. rewrite !fold_left_app. cbn [fold_left]. f_equal.
  assert (existsb (String.eqb y) (fold_left addKey l1 acc) = true) as H.
  { apply existsb_eqb_In. by apply In_fold_addKey. }
  unfold addKey at 1. by rewrite H.
Qed.

(** Mapping the first occurrences and then taking first occurrences again is
    taking the first occurrences of the mapped list. *)
Lemma fold_addKey_map (f : string -> string) l acc out :
  fold_left addKey (map f (fold_left addKey l acc)) out =
  fold_left addKey (map f (acc ++ l)) out.
Proof.
  revert acc. induction l as [|x l IH]; intros acc; cbn [fold_left].
  - by rewrite app_nil_r.
  - rewrite IH. unfold addKey at 2. destruct (existsb (String.eqb x) acc) eqn:E.
    + apply existsb_eqb_In in E.
      rewrite !map_app. cbn [map].
      symmetry. apply fold_addKey_skip. right. by apply in_map.
    + by rewrite <- app_assoc.
Qed.

Section OrderFacts.
Context {rt : Runtime}.

Lemma group_step_keys acc row :
  map fst (group_step acc row) = addKey (map fst acc) (regionKeyOf row).
Proof.
  unfold group_step. fold (regionKeyOf row) (polarityKeyOf row).
  destruct (obj_get acc (regionKeyOf row)) as [b|] eqn:E.
  - rewrite E. apply keys_obj_set_addKey.
  - rewrite obj_get_set_eq, !keys_obj_set_addKey. apply addKey_idem.
Qed.

Lemma fold_group_keys rows acc :
  map fst (fold_left group_step rows acc) =
  fold_left addKey (map regionKeyOf rows) (map fst acc).
Proof.
  revert acc. induction rows as [|row rows IH]; intros acc; cbn [fold_left map]; [done|].
  by rewrite IH, group_step_keys.
Qed.

Lemma grouped_keys rows :
  map fst (grouped rows) = firstOccurrences (map regionKeyOf rows).
Proof. apply fold_group_keys. Qed.

Lemma project_keys p l st :
  map fst (fold_left (project_step p) l st).1.1 =
  fold_left addKey
    (map (fun e => standardName e.1) (List.filter (fun e => mappableKey e.1) l))
    (map fst st.1.1).
Proof.
  revert st. induction l as [|[region b] l IH]; intros st; cbn [fold_left List.filter];
    [done|].
  rewrite IH. destruct st as [[o m] t]. rewrite project_step_cases.
  unfold mappableKey at 2. cbn [fst].
  destruct (obj_get stateCoordinates (standardName region)); cbn [map fold_left fst snd];
    [|done].
  by rewrite keys_obj_set_addKey.
Qed.

Lemma processedOf_keys p rows :
  map fst (processedOf p rows) =
  firstOccurrences
    (map (fun row => standardName (regionKeyOf row)) (List.filter mappableRow rows)).
Proof.
  unfold processedOf. rewrite project_mappable, project_keys. cbn [map fst snd].
  rewrite filter_filter_imp by done. rewrite grouped_filter.
  assert (map (fun e : string * obj nat => standardName e.1)
              (grouped (List.filter mappableRow rows))
          = map standardName (map fst (grouped (List.filter mappableRow rows)))) as ->
    by (by rewrite map_map).
  rewrite grouped_keys. unfold firstOccurrences.
  rewrite (fold_addKey_map standardName). cbn [app]. by rewrite map_map.
Qed.

End OrderFacts.

Lemma firstOccurrences_nil l : firstOccurrences l = [] <-> l = [].
Proof.
  split; [|by intros ->]. intros H. destruct l as [|x l]; [done|]. exfalso.
  assert (In x (firstOccurrences (x :: l))) as Hin.
  { apply In_fold_addKey. right. by left. }
  rewrite H in Hin. destruct Hin.
Qed.

Lemma processedOf_no_index `{Runtime} p rows e :
  In e (processedOf p rows) -> is_index e.1 = false.
Proof.
  destruct e as [name v].
  intros (region & b & coords & _ & _ & Hc & _)%processedOf_origin. cbn [fst].
  destruct table_keys_not_index as [_ Ht]. rewrite forallb_forall in Ht.
  apply obj_get_In, Ht in Hc. by apply negb_true_iff in Hc.
Qed.


Lemma view_row_in_table `{rt : Runtime} p rows name v :
  In (name, v) (processedOf p rows) ->
  obj_get stateCoordinates name = Some (coordinates v) /\
  name = standardName (originalName v) /\ 0 < total v.
Proof.
  intros (region & b & coords & Hb & -> & Hc & ->)%processedOf_origin.
  unfold viewRowOf. cbn [coordinates originalName total]. split_and!; [done|done|].
  rewrite (grouped_count rows region b "total" Hb), String.eqb_refl.
  assert (0 < totalFor rows region) by (apply grouped_dom; eauto). lia.
Qed.

(** With own properties only, the view rows are keyed by distinct names of
    the coordinate table. *)
Lemma view_rows_are_table_regions_own `{rt : Runtime} (rows : list Row) (p : Z) :
  NoDup (map fst (processedOf p rows)) /\
  length (processedOf p rows) <= 19 /\
  totalStates (statsOf p rows) <= 19 /\
  Forall (fun e => obj_get stateCoordinates e.1 = Some (coordinates e.2) /\
                   e.1 = standardName (originalName e.2) /\
                   0 < total e.2)
         (processedOf p rows).
Proof.
  assert (NoDup (map fst (processedOf p rows))) as Hnd.
  { rewrite processedOf_keys. apply NoDup_fold_addKey. constructor. }
  assert (length (processedOf p rows) <= 19) as Hlen.
  { rewrite <- (length_map fst).
    change 19 with (length (map fst stateCoordinates)).
    apply submseteq_length, NoDup_submseteq; [done|].
    intros name (e & <- & He)%list_elem_of_In%in_map_iff. destruct e as [name v].
    destruct (view_row_in_table p rows name v He) as (Hc & _). apply list_elem_of_In.
    apply obj_get_In in Hc. exact (in_map fst _ _ Hc). }
  split_and!; try done.
  - by rewrite statsOf_totalStates.
  - apply List.Forall_forall. intros [name v] He. by apply (view_row_in_table p rows).
Qed.

(** With own properties only, there are no view rows exactly when no row is
    mappable. *)
Lemma no_view_rows_iff_no_mappable_row_own `{rt : Runtime} (rows : list Row) (p : Z) :
  (processedOf p rows = [] <-> List.filter mappableRow rows = []) /\
  (List.filter mappableRow rows = [] ->
   statsOf p rows = noStats /\
   generateFoliumMap p (processedOf p rows) (maxCount (statsOf p rows)) = []).
Proof.
  assert (processedOf p rows = [] <-> List.filter mappableRow rows = []) as Hiff.
  { split.
    - intros H. pose proof (processedOf_keys p rows) as Hk. rewrite H in Hk.
      symmetry in Hk. apply (proj1 (firstOccurrences_nil _)) in Hk.
      by apply map_eq_nil in Hk.
    - intros H. rewrite <- processedOf_drop_unmappable, H. reflexivity. }
  split; [exact Hiff|]. intros H. split.
  - rewrite <- statsOf_drop_unmappable, H. reflexivity.
  - by rewrite (proj2 Hiff H).
Qed.


(** ** Counting through the grouping and the projection *)

Lemma length_addKey l k : length (addKey l k) <= S (length l).
Proof.
  unfold addKey. destruct (existsb _ l); [lia|]. rewrite length_app. simpl. lia.
Qed.

Lemma length_fold_addKey l acc : length (fold_left addKey l acc) <= length acc + length l.
Proof.
  revert acc. induction l as [|k l IH]; intros acc; cbn [fold_left length]; [lia|].
  pose proof (IH (addKey acc k)). pose proof (length_addKey acc k). lia.
Qed.




Section CountFacts.
Context {rt : Runtime}.

Lemma group_step_bucketSum acc row k :
  bucketSum k (group_step acc row) =
  bucketSum k acc + (if String.eqb (polarityKeyOf row) k then 1 else 0)
  + (if String.eqb "total" k then 1 else 0).
Proof.
  unfold bucketSum, group_step. fold (regionKeyOf row) (polarityKeyOf row).
  destruct (obj_get acc (regionKeyOf row)) as [b|] eqn:E.
  - rewrite E. pose proof (bucket_sum_set acc k _ _ (increment b (polarityKeyOf row)) E) as H.
    rewrite get0_increment in H. lia.
  - rewrite obj_get_set_eq.
    pose proof (bucket_sum_set (obj_set acc (regionKeyOf row) newBucket) k
                  (regionKeyOf row) newBucket (increment newBucket (polarityKeyOf row))
                  (obj_get_set_eq _ _ _)) as H.
    rewrite get0_increment, get0_newBucket in H.
    rewrite (obj_set_fresh acc _ newBucket E) in H at 2.
    rewrite bucket_sum_snoc, get0_newBucket in H. lia.
Qed.

Lemma fold_group_bucketSum rows acc k :
  bucketSum k (fold_left group_step rows acc) =
  bucketSum k acc + rowsWithPolarity rows k
  + (if String.eqb "total" k then length rows else 0).
Proof.
  revert acc. induction rows as [|row rows IH]; intros acc.
  - unfold rowsWithPolarity. cbn [fold_left List.filter length].
    destruct (String.eqb "total" k); lia.
  - cbn [fold_left]. rewrite IH, group_step_bucketSum. unfold rowsWithPolarity.
    cbn [List.filter].
    destruct (String.eqb (polarityKeyOf row) k), (String.eqb "total" k); cbn [length]; lia.
Qed.

Lemma rowsWithPolarity_total_valid `{!RuntimeLaws rt} rows :
  Forall (fun row => validRow row = true) rows -> rowsWithPolarity rows "total" = 0.
Proof.
  intros Hv. unfold rowsWithPolarity. rewrite filter_nil_iff; [done|].
  intros row Hrow. rewrite Forall_forall in Hv.
  apply list_elem_of_In, Hv, validRow_not_total in Hrow.
  by destruct (String.eqb_spec (polarityKeyOf row) "total").
Qed.



End CountFacts.


(** With own properties only, the grouping neither loses nor repeats a
    row. *)
Lemma grouping_conserves_rows_own `{rt : Runtime} `{!RuntimeLaws rt} (rows : list Row) :
  Forall (fun row => validRow row = true) rows ->
  bucketSum "total" (grouped rows) = length rows /\
  (forall k, k <> "total" -> bucketSum k (grouped rows) = rowsWithPolarity rows k) /\
  length (grouped rows) <= length rows.
Proof.
  intros Hv. split_and!.
  - unfold grouped. rewrite fold_group_bucketSum, rowsWithPolarity_total_valid by done.
    rewrite String.eqb_refl. unfold bucketSum. simpl. lia.
  - intros k Hk. unfold grouped. rewrite fold_group_bucketSum.
    destruct (String.eqb_spec "total" k); [congruence|]. unfold bucketSum. simpl. lia.
  - rewrite <- (length_map fst), grouped_keys. unfold firstOccurrences.
    pose proof (length_fold_addKey (map regionKeyOf rows) []) as H.
    rewrite length_map in H. simpl in H. lia.
Qed.




(** ** Rounding between two doubles *)

Local Open Scope Z_scope.

Lemma rne_div_ge a b y : 0 < b -> y * b <= a -> y <= rne_div a b.
Proof.
  intros Hb Ha. unfold rne_div.
  pose proof (Z.div_mod a b ltac:(lia)) as Hdm.
  pose proof (Z.mod_pos_bound a b Hb) as Hr.
  assert (y <= a / b) as Hq by nia.
  destruct (2 * (a mod b) ?= b); [destruct (Z.even (a / b))| |]; lia.
Qed.

Local Close Scope Z_scope.

Lemma scale2_Qpower m u : (scale2 m u == inject_Z m * 2 ^ u)%Q.
Proof.
  unfold scale2. destruct (Z.le_gt_cases 0 u) as [Hu|Hu].
  - rewrite (Z.max_r 0 u), (Z.max_l 0 (- u)) by lia.
    change (Z.to_pos (2 ^ 0)) with 1%positive.
    change (((m * 2 ^ u)%Z # 1)%Q) with (inject_Z (m * 2 ^ u)).
    rewrite inject_Z_mult. by rewrite Zpower_Qpower.
  - rewrite (Z.max_l 0 u), (Z.max_r 0 (- u)) by lia.
    rewrite Z.pow_0_r, Z.mul_1_r.
    assert (0 < 2 ^ (- u))%Z as Hp by (apply Z.pow_pos_nonneg; lia).
    rewrite Qmake_Qdiv, Z2Pos.id by done. unfold Qdiv.
    rewrite Zpower_Qpower by lia. rewrite <- Qpower_opp.
    by rewrite Z.opp_involutive.
Qed.

Lemma scale2_mono m1 m2 u : (m1 <= m2)%Z -> (scale2 m1 u <= scale2 m2 u)%Q.
Proof.
  intros H. unfold scale2, Qle. cbn [Qnum Qden].
  assert (0 <= 2 ^ Z.max 0 u)%Z by (apply Z.pow_nonneg; lia).
  apply Z.mul_le_mono_nonneg_r; [lia|]. by apply Z.mul_le_mono_nonneg_r.
Qed.

Lemma Qpow2_pos z : (0 < 2 ^ z)%Q.
Proof. by apply Qpower_0_lt. Qed.

Lemma scale2_shift k j u : (u <= j)%Z -> (scale2 k j == scale2 (k * 2 ^ (j - u)) u)%Q.
Proof.
  intros H. rewrite !scale2_Qpower, inject_Z_mult, Zpower_Qpower by lia.
  rewrite <- Qmult_assoc. apply Qmult_comp; [reflexivity|].
  rewrite <- Qpower_plus by done. by replace (j - u + u)%Z with j by lia.
Qed.

Lemma scale2_lt_pow k j : (k < 2 ^ 53)%Z -> (scale2 k j < 2 ^ (53 + j))%Q.
Proof.
  intros H. rewrite scale2_Qpower, Qpower_plus by done.
  apply Qmult_lt_compat_r; [apply Qpow2_pos|].
  apply Qlt_le_trans with (inject_Z (2 ^ 53)); [by rewrite <- Zlt_Qlt|].
  rewrite Zpower_Qpower by lia. apply Qle_refl.
Qed.

Lemma ilog2_lower_scale2 n d : (scale2 1 (ilog2 n d) <= Z.pos n # d)%Q.
Proof.
  pose proof (ilog2_lower n d) as H. unfold scale2, Qle. cbn [Qnum Qden].
  assert (0 < 2 ^ Z.max 0 (- ilog2 n d))%Z by (apply Z.pow_pos_nonneg; lia).
  rewrite Z2Pos.id by done. lia.
Qed.

Lemma round64_pos_above n d y :
  (scale2 y (ulp_exp (ilog2 n d)) <= Z.pos n # d)%Q ->
  (scale2 y (ulp_exp (ilog2 n d)) <= round64_pos n d)%Q.
Proof.
  intros H. unfold round64_pos. rewrite Qred_correct.
  set (u := ulp_exp (ilog2 n d)) in *. apply scale2_mono.
  assert (0 < 2 ^ Z.max 0 (- u))%Z as Hp by (apply Z.pow_pos_nonneg; lia).
  assert (0 < 2 ^ Z.max 0 u)%Z as Hq by (apply Z.pow_pos_nonneg; lia).
  apply rne_div_ge; [lia|].
  unfold scale2, Qle in H. cbn [Qnum Qden] in H. rewrite Z2Pos.id in H by done. lia.
Qed.

Lemma round64_pos_below n d y :
  (Z.pos n # d <= scale2 y (ulp_exp (ilog2 n d)))%Q ->
  (round64_pos n d <= scale2 y (ulp_exp (ilog2 n d)))%Q.
Proof.
  intros H. unfold round64_pos. rewrite Qred_correct.
  set (u := ulp_exp (ilog2 n d)) in *. apply scale2_mono.
  assert (0 < 2 ^ Z.max 0 (- u))%Z as Hp by (apply Z.pow_pos_nonneg; lia).
  assert (0 < 2 ^ Z.max 0 u)%Z as Hq by (apply Z.pow_pos_nonneg; lia).
  apply rne_div_le; [lia|].
  unfold scale2, Qle in H. cbn [Qnum Qden] in H. rewrite Z2Pos.id in H by done. lia.
Qed.

(** A double [k * 2^j] below the value stays below its rounding. *)
Lemma round64_pos_lower n d k j :
  (k < 2 ^ 53)%Z -> (-1074 <= j)%Z ->
  (scale2 k j <= Z.pos n # d)%Q -> (scale2 k j <= round64_pos n d)%Q.
Proof.
  intros Hk Hj Hle.
  destruct (Z.le_gt_cases (ulp_exp (ilog2 n d)) j) as [Hu|Hu].
  - rewrite (scale2_shift k j _ Hu) in Hle |- *. by apply round64_pos_above.
  - assert (ulp_exp (ilog2 n d) = ilog2 n d - 52)%Z as Hue by (unfold ulp_exp in *; lia).
    assert (scale2 (2 ^ 52) (ulp_exp (ilog2 n d)) == scale2 1 (ilog2 n d))%Q as Heq.
    { rewrite !scale2_Qpower, Hue, Zpower_Qpower by lia.
      rewrite <- Qpower_plus by done. rewrite Qmult_1_l.
      by replace (52 + (ilog2 n d - 52))%Z with (ilog2 n d) by lia. }
    apply Qle_trans with (scale2 (2 ^ 52) (ulp_exp (ilog2 n d))).
    + rewrite Heq, (scale2_Qpower 1), Qmult_1_l.
      apply Qlt_le_weak, Qlt_le_trans with (2 ^ (53 + j))%Q; [by apply scale2_lt_pow|].
      apply Qpower_le_compat_l; [lia|done].
    + apply round64_pos_above. rewrite Heq. apply ilog2_lower_scale2.
Qed.

(** A double [k * 2^j] above the value stays above its rounding. *)
Lemma round64_pos_upper n d k j :
  (k < 2 ^ 53)%Z -> (-1074 <= j)%Z ->
  (Z.pos n # d <= scale2 k j)%Q -> (round64_pos n d <= scale2 k j)%Q.
Proof.
  intros Hk Hj Hle.
  assert (ulp_exp (ilog2 n d) <= j)%Z as Hu.
  { destruct (Z.le_gt_cases (ilog2 n d - 52) j) as [He|He]; [unfold ulp_exp; lia|].
    exfalso. pose proof (ilog2_lower_scale2 n d) as Hl.
    rewrite (scale2_Qpower 1), Qmult_1_l in Hl.
    pose proof (scale2_lt_pow k j Hk) as Hlt.
    assert (2 ^ (53 + j) <= 2 ^ ilog2 n d)%Q as Hp
      by (apply Qpower_le_compat_l; [lia|done]).
    apply (Qlt_irrefl (scale2 k j)).
    eapply Qlt_le_trans; [exact Hlt|]. eapply Qle_trans; [exact Hp|].
    eapply Qle_trans; [exact Hl|exact Hle]. }
  rewrite (scale2_shift k j _ Hu) in Hle |- *. by apply round64_pos_below.
Qed.

Lemma round64_lower q k j :
  (k < 2 ^ 53)%Z -> (-1074 <= j)%Z -> (0 <= scale2 k j)%Q ->
  (scale2 k j <= q)%Q -> (scale2 k j <= round64 q)%Q.
Proof.
  intros Hk Hj H0 Hle. unfold round64. destruct q as [[|n|n] d]; cbn [Qnum Qden].
  - eapply Qle_trans; [exact Hle|]. by unfold Qle.
  - by apply round64_pos_lower.
  - exfalso. assert (0 <= Z.neg n # d)%Q as H by (by eapply Qle_trans).
    unfold Qle in H. simpl in H. lia.
Qed.

Lemma round64_upper q k j :
  (k < 2 ^ 53)%Z -> (-1074 <= j)%Z -> (0 <= q)%Q ->
  (q <= scale2 k j)%Q -> (round64 q <= scale2 k j)%Q.
Proof.
  intros Hk Hj H0 Hle. unfold round64. destruct q as [[|n|n] d]; cbn [Qnum Qden].
  - by eapply Qle_trans.
  - by apply round64_pos_upper.
  - exfalso. unfold Qle in H0. simpl in H0. lia.
Qed.

Lemma round64_canon q : Qred (round64 q) = round64 q.
Proof.
  unfold round64. destruct (Qnum q); [done| |]; unfold round64_pos;
    apply Qred_involutive.
Qed.

Lemma round64_eq_of_between q r :
  Qred r = r -> (r <= round64 q)%Q -> (round64 q <= r)%Q -> round64 q = r.
Proof.
  intros Hr H1 H2. rewrite <- (round64_canon q), <- Hr. apply Qred_complete.
  by apply Qle_antisym.
Qed.

(** ** Markers *)

Lemma lit_03 : lit (3 # 10) = Qred (scale2 5404319552844595 (-54)).
Proof. vm_compute. reflexivity. Qed.

Lemma lit_07 : lit (7 # 10) = Qred (scale2 6305039478318694 (-53)).
Proof. vm_compute. reflexivity. Qed.

Lemma lit_03_scale2 : (lit (3 # 10) == scale2 5404319552844595 (-54))%Q.
Proof. rewrite lit_03. apply Qred_correct. Qed.

Lemma lit_07_scale2 : (lit (7 # 10) == scale2 6305039478318694 (-53))%Q.
Proof. rewrite lit_07. apply Qred_correct. Qed.

Lemma round64_zero q : Qnum q = 0%Z -> round64 q = 0%Q.
Proof. intros H. unfold round64. by rewrite H. Qed.

Lemma round64_ge_one q : (1 <= q)%Q -> (1 <= round64 q)%Q.
Proof.
  intros H. apply (round64_lower q 1 0); [done|done|by unfold Qle|exact H].
Qed.

Lemma intensityOf_bounds c m :
  c <= m -> (0 <= intensityOf c m)%Q /\ (intensityOf c m <= 1)%Q.
Proof.
  intros Hc. unfold intensityOf. destruct (Nat.ltb_spec 0 m) as [Hm|Hm].
  - destruct (of_count_ratio c m Hc Hm) as [H0 H1]. split.
    + by apply round64_nonneg.
    + by apply (round64_le_int _ 1).
  - split; by unfold Qle.
Qed.

Lemma intensityOf_full m : 0 < m -> intensityOf m m = 1%Q.
Proof.
  intros Hm. unfold intensityOf. destruct (Nat.ltb_spec 0 m) as [_|H]; [|lia].
  destruct (of_count_ratio m m (le_n m) Hm) as [H0 H1].
  apply round64_eq_of_between; [done| |by apply (round64_le_int _ 1)].
  apply round64_ge_one. apply Qle_shift_div_l.
  - unfold of_count, Qlt. simpl. lia.
  - rewrite Qmult_1_l. apply Qle_refl.
Qed.

Lemma intensityOf_none c m : c = 0 \/ m = 0 -> intensityOf c m = 0%Q.
Proof.
  intros H. unfold intensityOf. destruct (Nat.ltb_spec 0 m) as [Hm|Hm]; [|done].
  destruct H as [Hc|Hc]; [|lia]. subst c. by apply round64_zero.
Qed.

Lemma radius_bounds i :
  (0 <= i)%Q -> (i <= 1)%Q ->
  (10 <= js_add 10 (js_mul i 20))%Q /\ (js_add 10 (js_mul i 20) <= 30)%Q.
Proof.
  intros H0 H1.
  assert (0 <= i * 20)%Q as Hx0 by (apply Qmult_le_0_compat; [done|by unfold Qle]).
  assert (i * 20 <= 20)%Q as Hx1.
  { apply Qle_trans with (1 * 20)%Q; [|by unfold Qle].
    apply Qmult_le_compat_r; [done|by unfold Qle]. }
  assert (0 <= js_mul i 20)%Q as Hy0 by (by apply round64_nonneg).
  assert (js_mul i 20 <= 20)%Q as Hy1 by (by apply (round64_le_int _ 20)).
  unfold js_add. split.
  - apply (round64_lower _ 10 0); [done|done|by unfold Qle|].
    apply Qle_trans with (10 + 0)%Q; [by unfold Qle|].
    apply Qplus_le_compat; [apply Qle_refl|done].
  - apply (round64_le_int _ 30); [| |done].
    + apply Qle_trans with (10 + 0)%Q; [by unfold Qle|].
      apply Qplus_le_compat; [apply Qle_refl|done].
    + apply Qle_trans with (10 + 20)%Q; [|by unfold Qle].
      apply Qplus_le_compat; [apply Qle_refl|done].
Qed.

Lemma opacity_bounds i :
  (0 <= i)%Q -> (i <= 1)%Q ->
  (lit (3 # 10) <= js_add (lit (3 # 10)) (js_mul i (lit (7 # 10))))%Q /\
  (js_add (lit (3 # 10)) (js_mul i (lit (7 # 10))) <= 1)%Q.
Proof.
  intros H0 H1.
  assert (0 <= lit (3 # 10))%Q as H3 by (rewrite lit_03; by unfold Qle).
  assert (0 <= lit (7 # 10))%Q as H7 by (rewrite lit_07; by unfold Qle).
  assert (0 <= i * lit (7 # 10))%Q as Hx0 by (by apply Qmult_le_0_compat).
  assert (i * lit (7 # 10) <= lit (7 # 10))%Q as Hx1.
  { apply Qle_trans with (1 * lit (7 # 10))%Q; [|rewrite Qmult_1_l; apply Qle_refl].
    by apply Qmult_le_compat_r. }
  assert (0 <= js_mul i (lit (7 # 10)))%Q as Hy0 by (by apply round64_nonneg).
  assert (js_mul i (lit (7 # 10)) <= lit (7 # 10))%Q as Hy1.
  { apply Qle_trans with (scale2 6305039478318694 (-53)).
    - apply round64_upper; [done|done|done|].
      eapply Qle_trans; [exact Hx1|]. rewrite lit_07_scale2. apply Qle_refl.
    - rewrite lit_07_scale2. apply Qle_refl. }
  unfold js_add. split.
  - apply Qle_trans with (scale2 5404319552844595 (-54)).
    { rewrite lit_03_scale2. apply Qle_refl. }
    apply round64_lower; [done|done|by unfold Qle|].
    apply Qle_trans with (lit (3 # 10) + 0)%Q.
    { rewrite Qplus_0_r, lit_03_scale2. apply Qle_refl. }
    apply Qplus_le_compat; [apply Qle_refl|done].
  - apply (round64_le_int _ 1); [| |done].
    + apply Qle_trans with (0 + 0)%Q; [by unfold Qle|]. by apply Qplus_le_compat.
    + apply Qle_trans with (lit (3 # 10) + lit (7 # 10))%Q.
      * apply Qplus_le_compat; [apply Qle_refl|done].
      * rewrite lit_03, lit_07. by vm_compute.
Qed.

(** ** Percentages at the ends *)

Lemma percentageOf_zero `{Runtime} t : percentageOf 0 t = "0.0".
Proof.
  unfold percentageOf. destruct (0 <? t)%nat; [|done].
  assert (js_div (of_count 0) (of_count t) = 0%Q) as -> by (by apply round64_zero).
  by vm_compute.
Qed.

Lemma percentageOf_all `{Runtime} t : 0 < t -> percentageOf t t = "100.0".
Proof.
  intros Ht. unfold percentageOf. destruct (Nat.ltb_spec 0 t) as [_|?]; [|lia].
  pose proof (intensityOf_full t Ht) as Hi. unfold intensityOf in Hi.
  destruct (Nat.ltb_spec 0 t) as [_|?]; [|lia]. rewrite Hi.
  by vm_compute.
Qed.

(** ** The ranking of the table *)

Lemma insertByCount_perm e l : Permutation (insertByCount e l) (e :: l).
Proof.
  induction l as [|x l IH]; cbn [insertByCount]; [done|].
  destruct (count e.2 <? count x.2)%nat; [|done].
  rewrite IH. apply perm_swap.
Qed.

Lemma sortByCount_perm l : Permutation (sortByCount l) l.
Proof.
  induction l as [|e l IH]; cbn [sortByCount fold_right]; [done|].
  rewrite insertByCount_perm. by constructor.
Qed.

Lemma insertByCount_sorted e l :
  StronglySorted byCount l -> StronglySorted byCount (insertByCount e l).
Proof.
  induction 1 as [|x l Hl IH Hx]; cbn [insertByCount].
  - constructor; [constructor|constructor].
  - destruct (Nat.ltb_spec (count e.2) (count x.2)) as [Hlt|Hge].
    + constructor; [exact IH|].
      apply List.Forall_forall. intros y Hy.
      apply (Permutation_in _ (insertByCount_perm e l)) in Hy as [<-|Hy].
      * unfold byCount. lia.
      * rewrite List.Forall_forall in Hx. by apply Hx.
    + constructor; [by constructor|].
      constructor; [exact Hge|].
      apply List.Forall_forall. intros y Hy. rewrite List.Forall_forall in Hx.
      specialize (Hx y Hy). unfold byCount in *. lia.
Qed.

Lemma sortByCount_sorted l : StronglySorted byCount (sortByCount l).
Proof.
  induction l as [|e l IH]; cbn [sortByCount fold_right]; [constructor|].
  by apply insertByCount_sorted.
Qed.

Lemma insertByCount_withCount c e l :
  withCount c (insertByCount e l) = withCount c (e :: l).
Proof.
  unfold withCount. induction l as [|x l IH]; cbn [insertByCount]; [done|].
  destruct (Nat.ltb_spec (count e.2) (count x.2)) as [Hlt|Hge]; [|done].
  cbn [List.filter] in *. rewrite IH.
  destruct (Nat.eqb_spec (count x.2) c) as [Hx|Hx];
    destruct (Nat.eqb_spec (count e.2) c) as [He|He]; try done. lia.
Qed.

Lemma sortByCount_withCount c l : withCount c (sortByCount l) = withCount c l.
Proof.
  induction l as [|e l IH]; cbn [sortByCount fold_right]; [done|].
  rewrite insertByCount_withCount. unfold withCount in *. cbn [List.filter].
  fold (sortByCount l). by rewrite IH.
Qed.






(** X12. The table lists the view rows by descending count: it is a
    rearrangement of the entries of [processedData], no entry stands before one
    with a larger count, and entries with the same count keep the order they
    have in [processedData]. *)
Theorem table_ranked_by_count (s : State) :
  Permutation (tableData s) (Object_entries (processedData s)) /\
  StronglySorted byCount (tableData s) /\
  (forall c, withCount c (tableData s) = withCount c (Object_entries (processedData s))).
Proof.
  unfold tableData. split_and!.
  - apply sortByCount_perm.
  - apply sortByCount_sorted.
  - intros c. apply sortByCount_withCount.
Qed.


(** ** The bars of the table *)




(** ** The markers of the map *)


(** X16. A region whose count is the maximum gets the largest marker, of
    radius 30 and opacity 1; a region with no review of the selected polarity,
    and any region when the maximum is zero, gets the smallest, of radius 10
    and the opacity 0.3. *)
Theorem marker_extremes `{rt : Runtime} (selected : Z) (maxCount : nat)
    (name : string) (v : ViewRow) :
  (count v = maxCount -> 0 < maxCount ->
   radius (markerOf selected maxCount (name, v)) = 30%Q /\
   fillOpacity (markerOf selected maxCount (name, v)) = 1%Q) /\
  (count v = 0 \/ maxCount = 0 ->
   radius (markerOf selected maxCount (name, v)) = 10%Q /\
   fillOpacity (markerOf selected maxCount (name, v)) = lit (3 # 10)).
Proof.
  unfold markerOf. cbn [radius fillOpacity]. split.
  - intros -> Hm. rewrite (intensityOf_full _ Hm). split; by vm_compute.
  - intros H. rewrite (intensityOf_none _ _ H). split; by vm_compute.
Qed.

Lemma marker_extremes_witness :
  radius (@markerOf refRuntime 3 2
            ("Jalisco",
             {| originalName := "Jalisco"; count := 2; total := 4; percentage := "50.0";
                coordinates := (lit (206597 # 10000)%Q, lit (- 1033496 # 10000)%Q);
                allPolarities := [] |})) = 30%Q.
Proof.
  exact (proj1 (proj1 (@marker_extremes refRuntime 3 2 "Jalisco"
                         {| originalName := "Jalisco"; count := 2; total := 4;
                            percentage := "50.0";
                            coordinates := (lit (206597 # 10000)%Q,
                                            lit (- 1033496 # 10000)%Q);
                            allPolarities := [] |}) eq_refl (Nat.lt_0_succ 1))).
Defined.

(** X17. The percentage of a view row at the ends: "0.0" when the count is
    zero or the total is zero, "100.0" when every row of the region has the
    selected polarity. *)
Theorem percentage_at_the_ends `{rt : Runtime} (c t : nat) :
  percentageOf 0 t = "0.0" /\
  percentageOf c 0 = "0.0" /\
  (0 < t -> percentageOf t t = "100.0").
Proof.
  split_and!; [apply percentageOf_zero|done|apply percentageOf_all].
Qed.

Lemma percentage_at_the_ends_witness : @percentageOf refRuntime 7 7 = "100.0".
Proof.
  exact (proj2 (proj2 (@percentage_at_the_ends refRuntime 7 7)) (Nat.lt_0_succ 6)).
Defined.

(** ** Sessions in a realm *)

Lemma processing_error_nonempty message : "Error al procesar datos: " +:+ message <> "".
Proof. done. Qed.

Section RealmSessions.
Context {rt : Runtime} {en : Engine}.

Lemma shown_returns_iff r p rows :
  (exists r' out, Realm.shown r p rows = (r', Realm.Returns out)) <->
  (exists r' g, Realm.grouped r rows = (r', Realm.Returns g)).
Proof.
  unfold Realm.shown. destruct (Realm.grouped r rows) as [r' [g|message]].
  - destruct (Realm.project r' p g) as [[processed m] t]. split; intros _; eauto.
  - split; intros (? & ? & [=]).
Qed.

Lemma realm_useEffect_frame s :
  Realm.csvData (Realm.useEffect s) = Realm.csvData s /\
  Realm.fileLoaded (Realm.useEffect s) = Realm.fileLoaded s /\
  Realm.loading (Realm.useEffect s) = Realm.loading s /\
  Realm.selectedPolarity (Realm.useEffect s) = Realm.selectedPolarity s.
Proof.
  unfold Realm.useEffect. destruct (Realm.csvData s) as [|row rows] eqn:E; [by rewrite E|].
  unfold Realm.processData.
  destruct (Realm.shown _ _ _) as [r [[processed st]|message]];
    cbn [Realm.csvData Realm.fileLoaded Realm.loading Realm.selectedPolarity];
    by rewrite E.
Qed.

Lemma realm_useEffect_error s :
  Realm.csvData s <> [] ->
  (Realm.error (Realm.useEffect s) = Realm.error s /\
   exists r out, Realm.shown (Realm.realm s) (Realm.selectedPolarity s) (Realm.csvData s)
                 = (r, Realm.Returns out)) \/
  (exists r message,
     Realm.shown (Realm.realm s) (Realm.selectedPolarity s) (Realm.csvData s)
       = (r, Realm.Throws message) /\
     Realm.error (Realm.useEffect s) = "Error al procesar datos: " +:+ message).
Proof.
  intros Hne. unfold Realm.useEffect. destruct (Realm.csvData s) as [|row rows] eqn:E; [done|].
  rewrite <- E. unfold Realm.processData.
  destruct (Realm.shown _ _ _) as [r [[processed st]|message]]; cbn [Realm.error].
  - left. split; [done|]. by exists r, (processed, st).
  - right. by exists r, message.
Qed.

Lemma realm_step_invariant e s : realmInvariant s -> realmInvariant (Realm.step e s).
Proof.
  intros (Hsel & Hl & Hv & Hoff). destruct e as [|data|message|p]; cbn [Realm.step].
  - by split_and!.
  - unfold Realm.onComplete. destruct (validate data) as [message|valid] eqn:E;
      [by split_and!|].
    apply validate_inr in E as [-> Hne].
    match goal with |- realmInvariant (Realm.useEffect ?x) =>
      destruct (realm_useEffect_frame x) as (Hc & Hf & _ & Hs) end.
    unfold realmInvariant. rewrite Hc, Hf, Hs.
    cbn [Realm.csvData Realm.fileLoaded Realm.selectedPolarity].
    split_and!; [done|done| |done].
    apply List.Forall_forall. intros row Hrow. unfold validData in Hrow.
    by apply filter_In in Hrow as [_ ?].
  - by split_and!.
  - destruct (Realm.fileLoaded s && existsb (Z.eqb p) polarityOptions) eqn:G;
      [|by split_and!].
    apply andb_true_iff in G as [Hfl Hopt].
    unfold Realm.selectPolarity. destruct (p =? Realm.selectedPolarity s)%Z; [by split_and!|].
    match goal with |- realmInvariant (Realm.useEffect ?x) =>
      destruct (realm_useEffect_frame x) as (Hc & Hf & _ & Hs) end.
    unfold realmInvariant. rewrite Hc, Hf, Hs.
    cbn [Realm.csvData Realm.fileLoaded Realm.selectedPolarity].
    split_and!; [|done|done|by rewrite Hfl].
    apply existsb_exists in Hopt as (x & Hx & ->%Z.eqb_eq). exact Hx.
Qed.

Lemma realm_reachable_invariant s : Realm.reachable s -> realmInvariant s.
Proof.
  induction 1 as [|e s _ IH]; [|by apply realm_step_invariant].
  unfold realmInvariant. cbn. split_and!; try done.
  do 2 right. by left.
Qed.

End RealmSessions.

(** ** Further properties in a realm *)

Lemma sumCountsIn_embed d : sumCountsIn (embedData d) = sumCounts d.
Proof.
  unfold sumCountsIn, sumCounts, embedData.
  induction d as [|[k v] d IH]; cbn [map fold_right fst snd]; [done|]. by rewrite IH.
Qed.

Lemma maxCountsIn_embed d : maxCountsIn (embedData d) = maxCounts d.
Proof.
  unfold maxCountsIn, maxCounts, embedData.
  induction d as [|[k v] d IH]; cbn [map fold_right fst snd]; [done|]. by rewrite IH.
Qed.

Section RealmExtras.
Context {rt : Runtime} {en : Engine}.

Lemma plainlyReachable_reachable s : Realm.plainlyReachable s -> Realm.reachable s.
Proof. induction 1; by constructor. Qed.

Lemma embedData_no_index p rows e :
  In e (embedData (processedOf p rows)) -> is_index e.1 = false.
Proof.
  destruct e as [name v]. intros (w & -> & Hw)%embedData_In.
  exact (processedOf_no_index p rows (name, w) Hw).
Qed.

Lemma realm_project_step_le r p st e :
  (forall x, In x st.1.1 -> Realm.count x.2 <= st.1.2) ->
  forall x, In x (Realm.project_step r p st e).1.1 ->
            Realm.count x.2 <= (Realm.project_step r p st e).1.2.
Proof.
  destruct st as [[processed m] t], e as [region b]. cbn [fst snd]. intros H.
  unfold Realm.project_step.
  destruct (Realm.nameKey (Realm.standardName r region)) as [key|]; [|exact H].
  destruct (Realm.coordinatesAt r key) as [coords|]; [|exact H].
  cbn [fst snd]. intros x Hx.
  destruct (String.eqb key "__proto__").
  - specialize (H x Hx). lia.
  - apply In_obj_set in Hx as [->|Hx]; [cbn [snd Realm.count]; lia|].
    specialize (H x Hx). lia.
Qed.

Lemma realm_project_le r p l st :
  (forall x, In x st.1.1 -> Realm.count x.2 <= st.1.2) ->
  forall x, In x (fold_left (Realm.project_step r p) l st).1.1 ->
            Realm.count x.2 <= (fold_left (Realm.project_step r p) l st).1.2.
Proof.
  revert st. induction l as [|e l IH]; intros st H; cbn [fold_left]; [exact H|].
  apply IH. by apply realm_project_step_le.
Qed.

Lemma shown_count_le_max r p rows r' processed st :
  Realm.shown r p rows = (r', Realm.Returns (processed, st)) ->
  forall x, In x processed -> Realm.count x.2 <= maxCount st.
Proof.
  unfold Realm.shown. destruct (Realm.grouped r rows) as [r1 [g|message]]; [|done].
  pose proof (realm_project_le r1 p (Object_entries g) ([], 0, 0)) as H.
  fold (Realm.project r1 p g) in H.
  destruct (Realm.project r1 p g) as [[processed' m] t]. intros [= <- <- <-].
  cbn [fst snd maxCount] in *. apply H. by intros x [].
Qed.

End RealmExtras.

(** X2. Every state that a session can reach has a selected polarity from 1
    to 5, has the loaded flag set exactly when it holds rows, holds only rows
    that pass the filter, and shows no view rows and zero statistics while no
    file is loaded.  In a session in which no Region of a file is the name of
    a built-in property, nothing is ever written on a built-in object and,
    with a file loaded, the view rows and statistics are those that
    [processData] computes from the current rows and selected polarity. *)
Theorem reachable_session_invariant `{rt : Runtime} `{en : Engine} (s : Realm.State) :
  (Realm.reachable s -> realmInvariant s) /\
  (Realm.plainlyReachable s ->
   Realm.realm s = Realm.pristine /\
   (Realm.fileLoaded s = true ->
    Realm.shown Realm.pristine (Realm.selectedPolarity s) (Realm.csvData s) =
    (Realm.pristine, Realm.Returns (Realm.processedData s, Realm.stats s)))).
Proof.
  split; [apply realm_reachable_invariant|].
  intros (s0 & Hr & -> & Hplain)%plainlyReachable_embed.
  split; [done|]. cbn [embed Realm.fileLoaded Realm.selectedPolarity Realm.csvData
                       Realm.processedData Realm.stats].
  intros Hl. destruct (reachable_inSync s0 Hr Hl) as (_ & -> & ->).
  by apply shown_plain.
Qed.

Lemma reachable_session_invariant_witness :
  let s := @Realm.step refRuntime refEngine
             (ParseCompleted [rowOf "Jalisco" 5; rowOf "Jalisco" 9])
             (@Realm.step refRuntime refEngine FilePicked Realm.initialState) in
  @Realm.plainlyReachable refRuntime refEngine s /\
  Realm.csvData s = [rowOf "Jalisco" 5] /\
  @realmInvariant refRuntime s /\
  Realm.realm s = Realm.pristine.
Proof.
  set (s := @Realm.step refRuntime refEngine
              (ParseCompleted [rowOf "Jalisco" 5; rowOf "Jalisco" 9])
              (@Realm.step refRuntime refEngine FilePicked Realm.initialState)).
  assert (@Realm.plainlyReachable refRuntime refEngine s) as Hr.
  { apply Realm.plainly_step; [reflexivity|].
    apply Realm.plainly_step; [exact I|]. apply Realm.plainly_initial. }
  split; [exact Hr|]. split; [reflexivity|].
  split.
  - exact (proj1 (@reachable_session_invariant refRuntime refEngine s)
             (plainlyReachable_reachable s Hr)).
  - exact (proj1 (proj2 (@reachable_session_invariant refRuntime refEngine s) Hr)).
Defined.

(** X4. An upload always ends with the loading indicator off.  It ends with
    an empty error message exactly when the parser delivered a file whose
    first row has all required columns, in which some row passes the filter,
    and on whose valid rows the grouping of [processData] does not throw.  A
    file that passes the validation counts as loaded even when [processData]
    throws.  The grouping does not throw when nothing has been written on a
    built-in object and no Region of the valid rows is the name of a built-in
    property. *)
Theorem upload_error_iff_failure `{rt : Runtime} `{en : Engine}
    (s : Realm.State) (outcome : ParseOutcome) :
  Realm.loading (Realm.handleFileUpload (Some outcome) s) = false /\
  (Realm.error (Realm.handleFileUpload (Some outcome) s) = "" <->
   exists data, outcome = Complete data /\ headerComplete data = true /\
                validData data <> [] /\
                exists r g, Realm.grouped (Realm.realm s) (validData data)
                            = (r, Realm.Returns g)) /\
  (forall data, outcome = Complete data -> headerComplete data = true ->
                validData data <> [] ->
                Realm.fileLoaded (Realm.handleFileUpload (Some outcome) s) = true) /\
  (forall data, outcome = Complete data -> headerComplete data = true ->
                validData data <> [] ->
                Realm.realm s = Realm.pristine ->
                forallb Realm.plainRow (validData data) = true ->
                Realm.error (Realm.handleFileUpload (Some outcome) s) = "").
Proof.
  assert (forall data, headerComplete data = true -> validData data <> [] ->
            Realm.loading (Realm.handleFileUpload (Some (Complete data)) s) = false /\
            Realm.fileLoaded (Realm.handleFileUpload (Some (Complete data)) s) = true /\
            (Realm.error (Realm.handleFileUpload (Some (Complete data)) s) = "" <->
             exists r g, Realm.grouped (Realm.realm s) (validData data)
                         = (r, Realm.Returns g))) as Hok.
  { intros data Hh Hv.
    assert (validate data = inr (validData data)) as E by (by apply validate_inr_iff).
    unfold Realm.handleFileUpload, Realm.onComplete. rewrite E.
    match goal with |- context [Realm.useEffect ?x] =>
      destruct (realm_useEffect_frame x) as (_ & -> & -> & _);
      destruct (realm_useEffect_error x Hv) as [[-> Hret]|(r & message & Hth & ->)]
    end.
    - cbn [Realm.loading Realm.fileLoaded Realm.error Realm.beginUpload].
      cbn [Realm.realm Realm.selectedPolarity Realm.csvData Realm.beginUpload] in Hret.
      split_and!; [done|done|]. split; [intros _|done].
      exact (proj1 (shown_returns_iff _ _ _) Hret).
    - cbn [Realm.loading Realm.fileLoaded]. split_and!; [done|done|].
      split; [by intros ?%processing_error_nonempty|].
      intros Hret.
      apply (proj2 (shown_returns_iff _ (Realm.selectedPolarity s) _)) in Hret
        as (r' & out & Hret).
      cbn [Realm.realm Realm.selectedPolarity Realm.csvData Realm.beginUpload] in Hth.
      congruence. }
  destruct outcome as [data|message].
  - destruct (headerComplete data) eqn:Hh.
    + destruct (validData data) as [|row valid] eqn:Hv.
      * assert (validate data = inl "No se encontraron datos válidos en el CSV") as E.
        { unfold validate. apply missingColumns_nil in Hh. by rewrite Hh, Hv. }
        unfold Realm.handleFileUpload, Realm.onComplete. rewrite E.
        cbn [Realm.loading Realm.error]. split_and!; [done| | |].
        -- split; [done|]. intros (data' & [= <-] & _ & Hne & _). by rewrite Hv in Hne.
        -- intros data' [= <-] _ Hne. by rewrite Hv in Hne.
        -- intros data' [= <-] _ Hne. by rewrite Hv in Hne.
      * assert (validData data <> []) as Hne by (by rewrite Hv).
        destruct (Hok data Hh Hne) as (Hlo & Hfl & Herr).
        split_and!; [done| |by intros ? [= <-]|].
        -- rewrite Herr. split.
           ++ intros Hret. by exists data.
           ++ by intros (data' & [= <-] & _ & _ & Hret).
        -- intros data' [= <-] _ _ Hr Hp. apply Herr. rewrite Hr.
           eexists _, _. by apply grouped_plain.
    + assert (exists message, validate data = inl message /\ message <> "")
        as (message & E & Hm).
      { destruct (validate data) as [message|valid] eqn:E.
        - exists message. split; [done|]. by apply validate_inl_nonempty in E.
        - apply validate_inr_iff in E as (Hh' & _). congruence. }
      unfold Realm.handleFileUpload, Realm.onComplete. rewrite E.
      cbn [Realm.loading Realm.error]. split_and!; [done| | |].
      * split; [done|]. intros (data' & [= <-] & Hh' & _). congruence.
      * intros data' [= <-] Hh'. congruence.
      * intros data' [= <-] Hh'. congruence.
  - cbn [Realm.handleFileUpload Realm.onError Realm.loading Realm.error].
    split_and!; [done| |done|done].
    split; [done|]. by intros (data & [=] & _).
Qed.

Lemma upload_error_iff_failure_witness :
  headerComplete [rowOf "Jalisco" 5] = true /\
  @validData refRuntime [rowOf "Jalisco" 5] <> [] /\
  forallb (@Realm.plainRow refRuntime) (@validData refRuntime [rowOf "Jalisco" 5]) = true /\
  Realm.error (@Realm.handleFileUpload refRuntime refEngine
                 (Some (Complete [rowOf "Jalisco" 5])) Realm.initialState) = "" /\
  Realm.fileLoaded (@Realm.handleFileUpload refRuntime refEngine
                      (Some (Complete [rowOf "Jalisco" 5])) Realm.initialState) = true.
Proof.
  assert (headerComplete [rowOf "Jalisco" 5] = true) as Hh by reflexivity.
  assert (@validData refRuntime [rowOf "Jalisco" 5] <> []) as Hv by discriminate.
  assert (forallb (@Realm.plainRow refRuntime)
            (@validData refRuntime [rowOf "Jalisco" 5]) = true) as Hp by reflexivity.
  pose proof (@upload_error_iff_failure refRuntime refEngine Realm.initialState
                (Complete [rowOf "Jalisco" 5])) as (_ & _ & Hfl & Herr).
  split; [exact Hh|]. split; [exact Hv|]. split; [exact Hp|].
  split.
  - exact (Herr _ eq_refl Hh Hv eq_refl Hp).
  - exact (Hfl _ eq_refl Hh Hv).
Defined.

(** X5. In a state reached by a session in which no Region of a file is the
    name of a built-in property, and with a file loaded, choosing a polarity
    and then another one gives the same state as choosing the second one at
    once: what is shown depends on the rows and on the last choice only. *)
Theorem last_selection_wins `{rt : Runtime} `{en : Engine} (s : Realm.State) (p q : Z) :
  Realm.plainlyReachable s -> Realm.fileLoaded s = true ->
  In p polarityOptions -> In q polarityOptions ->
  Realm.step (PolaritySelected p) (Realm.step (PolaritySelected q) s) =
  Realm.step (PolaritySelected p) s.
Proof.
  intros (s0 & Hr & -> & Hplain)%plainlyReachable_embed Hl Hp Hq.
  change (fileLoaded s0 = true) in Hl.
  destruct (step_embed (PolaritySelected q) s0 I Hplain) as [-> Hplain'].
  destruct (step_embed (PolaritySelected p) _ I Hplain') as [-> _].
  destruct (step_embed (PolaritySelected p) s0 I Hplain) as [-> _].
  by rewrite (last_selection_wins_own s0 p q Hr Hl Hp Hq).
Qed.

Lemma last_selection_wins_witness :
  let s := @Realm.step refRuntime refEngine
             (ParseCompleted [rowOf "Jalisco" 5; rowOf "Jalisco" 3])
             (@Realm.step refRuntime refEngine FilePicked Realm.initialState) in
  @Realm.plainlyReachable refRuntime refEngine s /\ Realm.fileLoaded s = true /\
  @Realm.step refRuntime refEngine (PolaritySelected 5)
    (@Realm.step refRuntime refEngine (PolaritySelected 1) s)
  = @Realm.step refRuntime refEngine (PolaritySelected 5) s.
Proof.
  set (s := @Realm.step refRuntime refEngine
              (ParseCompleted [rowOf "Jalisco" 5; rowOf "Jalisco" 3])
              (@Realm.step refRuntime refEngine FilePicked Realm.initialState)).
  assert (@Realm.plainlyReachable refRuntime refEngine s) as Hr.
  { apply Realm.plainly_step; [reflexivity|].
    apply Realm.plainly_step; [exact I|]. apply Realm.plainly_initial. }
  assert (Realm.fileLoaded s = true) as Hl by reflexivity.
  split; [exact Hr|]. split; [exact Hl|].
  apply (@last_selection_wins refRuntime refEngine s 5%Z 1%Z Hr Hl).
  - do 4 right. left. reflexivity.
  - left. reflexivity.
Defined.

(** X6. When no Region is the name of a built-in property and nothing has
    been written on a built-in object, the view rows, and with them the
    markers of the map, come in the order in which their standard names first
    occur among the mappable rows of the data, each name once. *)
Theorem view_rows_in_order_of_first_occurrence `{rt : Runtime} `{en : Engine}
    (rows : list Row) (p : Z) :
  forallb Realm.plainRow rows = true ->
  exists processed st,
    Realm.shown Realm.pristine p rows = (Realm.pristine, Realm.Returns (processed, st)) /\
    map fst processed =
      firstOccurrences
        (map (fun row => standardName (regionKeyOf row)) (List.filter mappableRow rows)) /\
    map Realm.markerName (Realm.generateFoliumMap p processed (maxCount st)) =
      firstOccurrences
        (map (fun row => standardName (regionKeyOf row)) (List.filter mappableRow rows)).
Proof.
  intros Hplain. exists (embedData (processedOf p rows)), (statsOf p rows).
  split; [by apply shown_plain|].
  assert (map fst (embedData (processedOf p rows)) =
          firstOccurrences
            (map (fun row => standardName (regionKeyOf row)) (List.filter mappableRow rows)))
    as Hk by (rewrite embedData_keys; apply processedOf_keys).
  split; [exact Hk|].
  unfold Realm.generateFoliumMap.
  rewrite Object_entries_no_index by (intros e He; by apply (embedData_no_index p rows)).
  rewrite map_map, <- Hk. apply map_ext. by intros [name v].
Qed.

Lemma view_rows_in_order_of_first_occurrence_witness :
  forallb (@Realm.plainRow refRuntime)
    [rowOf "Puebla" 3; rowOf "Atlantis" 3; rowOf "Jalisco" 3; rowOf "Puebla" 5] = true /\
  exists processed st,
    @Realm.shown refRuntime refEngine Realm.pristine 3
      [rowOf "Puebla" 3; rowOf "Atlantis" 3; rowOf "Jalisco" 3; rowOf "Puebla" 5]
    = (Realm.pristine, Realm.Returns (processed, st)) /\
    map fst processed = ["Puebla"; "Jalisco"].
Proof.
  assert (forallb (@Realm.plainRow refRuntime)
            [rowOf "Puebla" 3; rowOf "Atlantis" 3; rowOf "Jalisco" 3; rowOf "Puebla" 5] = true)
    as Hp by reflexivity.
  split; [exact Hp|].
  destruct (@view_rows_in_order_of_first_occurrence refRuntime refEngine _ 3%Z Hp)
    as (processed & st & Hs & Hk & _).
  exists processed, st. split; [exact Hs|]. rewrite Hk. reflexivity.
Defined.

(** X7. When no Region is the name of a built-in property and nothing has
    been written on a built-in object, the view rows have distinct keys, at
    most 19 of them; each is keyed by a name of the coordinate table, carries
    the coordinates the table gives for that name, is keyed by the standard
    name of its original name, and has a positive total. *)
Theorem view_rows_are_table_regions `{rt : Runtime} `{en : Engine}
    (rows : list Row) (p : Z) :
  forallb Realm.plainRow rows = true ->
  exists processed st,
    Realm.shown Realm.pristine p rows = (Realm.pristine, Realm.Returns (processed, st)) /\
    NoDup (map fst processed) /\
    length processed <= 19 /\
    totalStates st <= 19 /\
    Forall (fun e => (exists c, Realm.coordinates e.2 = Realm.FromTable c /\
                                obj_get stateCoordinates e.1 = Some c) /\
                     e.1 = standardName (Realm.originalName e.2) /\
                     0 < Realm.total e.2)
           processed.
Proof.
  intros Hplain. exists (embedData (processedOf p rows)), (statsOf p rows).
  destruct (view_rows_are_table_regions_own rows p) as (Hnd & Hlen & Hst & Hall).
  split_and!.
  - by apply shown_plain.
  - by rewrite embedData_keys.
  - unfold embedData. by rewrite length_map.
  - done.
  - apply List.Forall_forall. intros [name v] (w & -> & Hw)%embedData_In.
    rewrite List.Forall_forall in Hall. destruct (Hall _ Hw) as (Hc & Hn & Ht).
    cbn [fst snd embedRow Realm.coordinates Realm.originalName Realm.total] in *.
    split_and!; [|done|done]. by exists (coordinates w).
Qed.

Lemma view_rows_are_table_regions_witness :
  forallb (@Realm.plainRow refRuntime) [rowOf "QuintanaRoo" 3; rowOf "Atlantis" 3] = true /\
  exists processed st,
    @Realm.shown refRuntime refEngine Realm.pristine 3
      [rowOf "QuintanaRoo" 3; rowOf "Atlantis" 3]
    = (Realm.pristine, Realm.Returns (processed, st)) /\
    length processed <= 19.
Proof.
  assert (forallb (@Realm.plainRow refRuntime)
            [rowOf "QuintanaRoo" 3; rowOf "Atlantis" 3] = true) as Hp by reflexivity.
  split; [exact Hp|].
  destruct (@view_rows_are_table_regions refRuntime refEngine _ 3%Z Hp)
    as (processed & st & Hs & _ & Hlen & _).
  exists processed, st. split; [exact Hs|exact Hlen].
Defined.

(** X8. When no Region is the name of a built-in property and nothing has
    been written on a built-in object, there are no view rows exactly when no
    row of the data is mappable; the statistics are then all zero and the map
    has no marker, although the file counts as loaded. *)
Theorem no_view_rows_iff_no_mappable_row `{rt : Runtime} `{en : Engine}
    (rows : list Row) (p : Z) :
  forallb Realm.plainRow rows = true ->
  exists processed st,
    Realm.shown Realm.pristine p rows = (Realm.pristine, Realm.Returns (processed, st)) /\
    (processed = [] <-> List.filter mappableRow rows = []) /\
    (List.filter mappableRow rows = [] ->
     st = noStats /\ Realm.generateFoliumMap p processed (maxCount st) = []).
Proof.
  intros Hplain. exists (embedData (processedOf p rows)), (statsOf p rows).
  destruct (no_view_rows_iff_no_mappable_row_own rows p) as (Hiff & Hnone).
  split_and!.
  - by apply shown_plain.
  - by rewrite embedData_nil.
  - intros H. destruct (Hnone H) as [Hst _]. split; [done|].
    by rewrite (proj2 Hiff H).
Qed.

Lemma no_view_rows_iff_no_mappable_row_witness :
  forallb (@Realm.plainRow refRuntime) [rowOf "Atlantis" 3; rowOf "Narnia" 5] = true /\
  List.filter (@mappableRow refRuntime) [rowOf "Atlantis" 3; rowOf "Narnia" 5] = [] /\
  exists processed st,
    @Realm.shown refRuntime refEngine Realm.pristine 3 [rowOf "Atlantis" 3; rowOf "Narnia" 5]
    = (Realm.pristine, Realm.Returns (processed, st)) /\
    st = noStats.
Proof.
  assert (forallb (@Realm.plainRow refRuntime) [rowOf "Atlantis" 3; rowOf "Narnia" 5] = true)
    as Hp by reflexivity.
  assert (List.filter (@mappableRow refRuntime) [rowOf "Atlantis" 3; rowOf "Narnia" 5] = [])
    as H by reflexivity.
  split; [exact Hp|]. split; [exact H|].
  destruct (@no_view_rows_iff_no_mappable_row refRuntime refEngine _ 3%Z Hp)
    as (processed & st & Hs & _ & Hnone).
  exists processed, st. split; [exact Hs|]. exact (proj1 (Hnone H)).
Defined.

(** X9. When no Region is the name of a built-in property and nothing has
    been written on a built-in object: [totalStates] is the number of view
    rows; the counts of the view rows add up to at most [totalReviews], which
    is at most the number of rows with the selected polarity and equal to it
    when every row is mappable; when each standard name occurs under one
    spelling, [totalReviews] and [maxCount] are the sum and the maximum of the
    counts of the view rows. *)
Theorem statistics_summary `{rt : Runtime} `{!RuntimeLaws rt} `{en : Engine}
    (rows : list Row) (p : Z) :
  forallb Realm.plainRow rows = true ->
  exists processed st,
    Realm.shown Realm.pristine p rows = (Realm.pristine, Realm.Returns (processed, st)) /\
    totalStates st = length processed /\
    sumCountsIn processed <= totalReviews st /\
    totalReviews st <= rowsWithPolarity rows (polarityKey p) /\
    (forallb mappableRow rows = true ->
     totalReviews st = rowsWithPolarity rows (polarityKey p)) /\
    (oneSpelling rows ->
     totalReviews st = sumCountsIn processed /\ maxCount st = maxCountsIn processed).
Proof.
  intros Hplain. exists (embedData (processedOf p rows)), (statsOf p rows).
  destruct (statistics_of_view_rows rows p) as (H1 & H2 & H3 & H4 & H5).
  rewrite sumCountsIn_embed, maxCountsIn_embed.
  split_and!; try done.
  - by apply shown_plain.
  - unfold embedData. by rewrite length_map.
Qed.

Lemma statistics_summary_witness :
  forallb (@Realm.plainRow refRuntime)
    [rowOf "Jalisco" 3; rowOf "Puebla" 3; rowOf "Jalisco" 4] = true /\
  forallb (@mappableRow refRuntime)
    [rowOf "Jalisco" 3; rowOf "Puebla" 3; rowOf "Jalisco" 4] = true /\
  exists processed st,
    @Realm.shown refRuntime refEngine Realm.pristine 3
      [rowOf "Jalisco" 3; rowOf "Puebla" 3; rowOf "Jalisco" 4]
    = (Realm.pristine, Realm.Returns (processed, st)) /\
    totalReviews st =
    @rowsWithPolarity refRuntime [rowOf "Jalisco" 3; rowOf "Puebla" 3; rowOf "Jalisco" 4]
      (@polarityKey refRuntime 3).
Proof.
  assert (forallb (@Realm.plainRow refRuntime)
            [rowOf "Jalisco" 3; rowOf "Puebla" 3; rowOf "Jalisco" 4] = true) as Hp
    by reflexivity.
  assert (forallb (@mappableRow refRuntime)
            [rowOf "Jalisco" 3; rowOf "Puebla" 3; rowOf "Jalisco" 4] = true) as Hm
    by reflexivity.
  split; [exact Hp|]. split; [exact Hm|].
  destruct (@statistics_summary refRuntime refRuntimeLaws refEngine _ 3%Z Hp)
    as (processed & st & Hs & _ & _ & _ & Hall & _).
  exists processed, st. split; [exact Hs|exact (Hall Hm)].
Defined.

(** X10. When no Region is the name of a built-in property and nothing has
    been written on a built-in object, the grouping neither loses nor repeats
    a row: over the buckets of valid rows the totals add up to the number of
    rows, the entries at a polarity key add up to the number of rows with that
    key, and there are at most as many buckets as rows. *)
Theorem grouping_conserves_rows `{rt : Runtime} `{!RuntimeLaws rt} `{en : Engine}
    (rows : list Row) :
  Forall (fun row => validRow row = true) rows ->
  forallb Realm.plainRow rows = true ->
  exists g,
    Realm.grouped Realm.pristine rows = (Realm.pristine, Realm.Returns g) /\
    bucketSum "total" g = length rows /\
    (forall k, k <> "total" -> bucketSum k g = rowsWithPolarity rows k) /\
    length g <= length rows.
Proof.
  intros Hv Hplain. exists (grouped rows).
  destruct (grouping_conserves_rows_own rows Hv) as (H1 & H2 & H3).
  split_and!; try done. by apply grouped_plain.
Qed.

Lemma grouping_conserves_rows_witness :
  Forall (fun row => @validRow refRuntime row = true)
         [rowOf "Jalisco" 5; rowOf "Puebla" 1; rowOf "Jalisco" 2] /\
  forallb (@Realm.plainRow refRuntime)
         [rowOf "Jalisco" 5; rowOf "Puebla" 1; rowOf "Jalisco" 2] = true /\
  exists g,
    @Realm.grouped refRuntime refEngine Realm.pristine
      [rowOf "Jalisco" 5; rowOf "Puebla" 1; rowOf "Jalisco" 2]
    = (Realm.pristine, Realm.Returns g) /\
    bucketSum "total" g = 3.
Proof.
  assert (Forall (fun row => @validRow refRuntime row = true)
            [rowOf "Jalisco" 5; rowOf "Puebla" 1; rowOf "Jalisco" 2]) as Hv
    by (repeat constructor).
  assert (forallb (@Realm.plainRow refRuntime)
            [rowOf "Jalisco" 5; rowOf "Puebla" 1; rowOf "Jalisco" 2] = true) as Hp
    by reflexivity.
  split; [exact Hv|]. split; [exact Hp|].
  destruct (@grouping_conserves_rows refRuntime refRuntimeLaws refEngine _ Hv Hp)
    as (g & Hg & Ht & _).
  exists g. split; [exact Hg|exact Ht].
Defined.



(** X15. Whatever the data, the selection and what has been written on the
    built-in objects, every marker of a map that [processData] generates has a
    radius between 10 and 30 and an opacity between the double of 0.3 and
    1. *)
Theorem markers_within_bounds `{rt : Runtime} `{en : Engine}
    (r r' : Realm.t) (p : Z) (rows : list Row) (processed : obj Realm.ViewRow) (st : Stats) :
  Realm.shown r p rows = (r', Realm.Returns (processed, st)) ->
  Forall (fun m => (10 <= Realm.radius m)%Q /\ (Realm.radius m <= 30)%Q /\
                   (lit (3 # 10) <= Realm.fillOpacity m)%Q /\ (Realm.fillOpacity m <= 1)%Q)
         (Realm.generateFoliumMap p processed (maxCount st)).
Proof.
  intros Hs. unfold Realm.generateFoliumMap. apply List.Forall_forall.
  intros m ([name v] & <- & He)%in_map_iff.
  apply (proj1 (In_Object_entries _ _)) in He.
  pose proof (shown_count_le_max _ _ _ _ _ _ Hs _ He) as Hle. cbn [snd] in Hle.
  destruct (intensityOf_bounds _ _ Hle) as [H0 H1].
  destruct (radius_bounds _ H0 H1) as [Hr0 Hr1].
  destruct (opacity_bounds _ H0 H1) as [Ho0 Ho1].
  unfold Realm.markerOf. cbn [Realm.radius Realm.fillOpacity]. by split_and!.
Qed.

Lemma markers_within_bounds_witness :
  exists r' processed st,
    @Realm.shown refRuntime refEngine Realm.pristine 3
      [mkRow (JNum 1) (JNum 3); rowOf "__proto__" 1]
    = (r', Realm.Returns (processed, st)) /\
    Forall (fun m => (10 <= Realm.radius m)%Q /\ (Realm.radius m <= 30)%Q /\
                     (lit (3 # 10) <= Realm.fillOpacity m)%Q /\ (Realm.fillOpacity m <= 1)%Q)
           (@Realm.generateFoliumMap refRuntime 3 processed (maxCount st)).
Proof.
  destruct (@Realm.shown refRuntime refEngine Realm.pristine 3
              [mkRow (JNum 1) (JNum 3); rowOf "__proto__" 1])
    as [r' [[processed st]|message]] eqn:E.
  - exists r', processed, st. split; [reflexivity|].
    exact (@markers_within_bounds refRuntime refEngine _ _ _ _ _ _ E).
  - vm_compute in E. discriminate E.
Defined.

(** ** Rows whose Region is the name of a built-in property *)

Section BuiltinRegions.
Context {rt : Runtime} {en : Engine}.





End BuiltinRegions.


